(** * oatdump: boundary inference, table decoders, size ledger, outliers

    A shallow embedding of the core of [src/oatdump.cc] (classes
    [OatDumper] and [ImageDumper]) together with the properties that the
    design document states about it.

    Conventions.
    - The program is a 32-bit one: it casts pointers to [uint32_t] with
      [reinterpret_cast], which the language only allows when a pointer
      has 32 bits.  [size_t], [uint32_t] and addresses are therefore
      integers in [[0, 2^32)], modelled in [Z] with the wrap-around
      written out ([wrap32]).
    - [CHECK(c)] aborts the process when [c] is false ([CheckFailure]).
      Integer division by zero and reads outside a table are undefined
      behaviour ([UndefinedBehaviour]).
    - [std::ostream] is the list of the items inserted into it, in
      order.
    - [double] is IEEE 754 binary64, the primitive [float]. *)

From Stdlib Require Import ZArith Lia Bool.
From Corelib Require Import PrimFloat.
From Stdlib Require Import FloatOps SpecFloat Uint63.
From stdpp Require Import base tactics option list sorting gmap strings.

Local Open Scope Z_scope.

#[local] Set Warnings "-clear-no-such-hyp".

(** ** Machine integers *)

Definition wrap32 (z : Z) : Z := z mod 2 ^ 32.
Definition is_uint32 (z : Z) : Prop := 0 <= z < 2 ^ 32.

(** ** Outcomes of a call *)

Inductive Outcome (A : Type) : Type :=
| Returns (a : A)
| CheckFailure (what : string)
| UndefinedBehaviour (what : string)
| OutOfFuel.
Arguments Returns {A} a.
Arguments CheckFailure {A} what.
Arguments UndefinedBehaviour {A} what.
Arguments OutOfFuel {A}.

Definition returns {A} (o : Outcome A) : Prop := exists a, o = Returns a.

(** ** [std::set<uint32_t>]

    The set is kept as its in-order traversal: a strictly increasing
    list.  [insert] is idempotent, [upper_bound x] is the first element
    that is greater than [x]. *)

Module StdSet.

Fixpoint insert (x : Z) (s : list Z) : list Z :=
  match s with
  | [] => [x]
  | y :: s' =>
      if x <? y then x :: s
      else if x =? y then s
      else y :: insert x s'
  end.

Fixpoint upper_bound (x : Z) (s : list Z) : option Z :=
  match s with
  | [] => None
  | y :: s' => if x <? y then Some y else upper_bound x s'
  end.

Definition ordered (s : list Z) : Prop := StronglySorted Z.lt s.

End StdSet.

(** ** The oat file, as [OatDumper] reads it

    Modelled from the spec: [OatFile], [OatHeader], [OatFile::OatDexFile],
    [OatFile::OatClass], [OatFile::OatMethod], [DexFile], [VmapTable]
    and [NativePcOffsetToReferenceMap] are declared in headers that are
    not part of the source at hand.  They are taken as plain records of
    the values that their accessors return; a null pointer is [None]
    (or address [0] where only the address is printed). *)

Inductive InstructionSet := kNone | kArm | kThumb2 | kX86 | kMips.

Global Instance InstructionSet_eq_dec : EqDecision InstructionSet.
Proof. solve_decision. Defined.

(** A table found at [table_address]; [table_words] are the elements
    that can be read from there, element [i] at index [i].  Reading past
    them has no defined result. *)
Record RawTable := {
  table_address : Z;
  table_words : list Z
}.

(** [VmapTable]: [size()] entries, [operator[]] reads entry [i]. *)
Record VmapTable := {
  vmap_address : Z;
  vmap_entries : list Z
}.

(** [NativePcOffsetToReferenceMap]: [RegWidth()] bytes of bitmap per
    entry, and for each entry its native pc offset and bitmap bytes. *)
Record NativePcOffsetToReferenceMap := {
  gc_map_address : Z;
  RegWidth : Z;
  gc_map_entries : list (Z * list Z)
}.

Record OatMethod := {
  GetCodeOffset : Z;
  GetFrameSizeInBytes : Z;
  GetCoreSpillMask : Z;
  GetFpSpillMask : Z;
  GetMappingTableOffset : Z;
  GetVmapTableOffset : Z;
  GetNativeGcMapOffset : Z;
  GetInvokeStubOffset : Z;
  GetCode : Z;
  GetCodeSize : Z;
  GetInvokeStub : Z;
  GetInvokeStubSize : Z;
  GetMappingTable : option RawTable;
  GetVmapTable : option VmapTable;
  GetNativeGcMap : option NativePcOffsetToReferenceMap
}.

(** One method of a class, as [ClassDataItemIterator] and
    [OatClass::GetOatMethod] deliver it. *)
Record ClassMethod := {
  GetMemberIndex : Z;
  oat_method : OatMethod
}.

Record ClassData := {
  direct_methods : list ClassMethod;
  virtual_methods : list ClassMethod
}.

Record ClassDef := {
  GetClassDescriptor : string;
  class_idx_ : Z;
  GetStatus : Z;
  GetClassData : option ClassData
}.

Record DexFile := {
  GetHeader : Z;                 (* address of the dex header *)
  class_defs : list ClassDef
}.

Record OatDexFile := {
  GetDexFileLocation : string;
  GetDexFileLocationChecksum : Z;
  OpenDexFile : option DexFile
}.

Record OatHeader := {
  GetMagic : string;
  GetChecksum : Z;
  GetInstructionSet : InstructionSet;
  GetDexFileCount : Z;
  GetExecutableOffset : Z;
  GetImageFileLocationChecksum : Z;
  GetImageFileLocation : string
}.

Record OatFile := {
  GetOatHeader : OatHeader;
  Begin : Z;
  End_ : Z;
  GetOatDexFiles : list OatDexFile
}.

(** ** [OatDumper]: the registry of region starts *)

Record OatDumper := {
  host_prefix_ : string;
  oat_file_ : OatFile;
  offsets_ : list Z              (* std::set<uint32_t> *)
}.

Definition set_offsets (d : OatDumper) (s : list Z) : OatDumper :=
  {| host_prefix_ := host_prefix_ d; oat_file_ := oat_file_ d; offsets_ := s |}.

(** [offsets_.insert(x)] with [x] converted to [uint32_t]. *)
Definition offsets_insert (x : Z) (d : OatDumper) : OatDumper :=
  set_offsets d (StdSet.insert (wrap32 x) (offsets_ d)).

Definition AddOffsets (m : OatMethod) (d : OatDumper) : OatDumper :=
  let code_offset := GetCodeOffset m in
  let code_offset :=
    if decide (GetInstructionSet (GetOatHeader (oat_file_ d)) = kThumb2)
    then Z.land code_offset 0xFFFFFFFE   (* code_offset &= ~0x1 *)
    else code_offset in
  let d := offsets_insert code_offset d in
  let d := offsets_insert (GetMappingTableOffset m) d in
  let d := offsets_insert (GetVmapTableOffset m) d in
  let d := offsets_insert (GetNativeGcMapOffset m) d in
  offsets_insert (GetInvokeStubOffset m) d.

(** The two [while] loops over the direct and the virtual methods. *)
Definition AddClassOffsets (c : ClassDef) (d : OatDumper) : OatDumper :=
  match GetClassData c with
  | None => d
  | Some cd =>
      let d := foldl (fun d m => AddOffsets (oat_method m) d) d (direct_methods cd) in
      foldl (fun d m => AddOffsets (oat_method m) d) d (virtual_methods cd)
  end.

Definition AddDexFileOffsets (odf : OatDexFile) (d : OatDumper) : OatDumper :=
  match OpenDexFile odf with
  | None => d                                        (* continue *)
  | Some dex_file =>
      let d := offsets_insert (GetHeader dex_file) d in
      foldl (fun d c => AddClassOffsets c d) d (class_defs dex_file)
  end.

Definition AddAllOffsets (d : OatDumper) : OatDumper :=
  let d := foldl (fun d odf => AddDexFileOffsets odf d) d
                 (GetOatDexFiles (oat_file_ d)) in
  offsets_insert (End_ (oat_file_ d) - Begin (oat_file_ d)) d.

(** The constructor. *)
Definition new_OatDumper (host_prefix : string) (oat_file : OatFile) : OatDumper :=
  AddAllOffsets
    {| host_prefix_ := host_prefix; oat_file_ := oat_file; offsets_ := [] |}.

(** [ComputeSize] is a non-const member function: it is given the
    object and hands it back. *)
Definition ComputeSize (d : OatDumper) (oat_data : Z) : OatDumper * Outcome Z :=
  if (oat_data <? Begin (oat_file_ d)) || (oat_data >? End_ (oat_file_ d)) then
    (d, Returns 0)   (* Address not in oat file *)
  else
    let begin_offset := wrap32 (oat_data - Begin (oat_file_ d)) in
    match StdSet.upper_bound begin_offset (offsets_ d) with
    | None => (d, CheckFailure "it != offsets_.end()")
    | Some end_offset => (d, Returns (wrap32 (end_offset - begin_offset)))
    end.

(** The oat file is mapped in a 32-bit address space. *)
Definition mapped (f : OatFile) : Prop :=
  0 <= Begin f /\ Begin f <= End_ f /\ End_ f < 2 ^ 32.

(** What the registry looks like, however it was filled. *)
Definition registry_ok (d : OatDumper) : Prop :=
  StdSet.ordered (offsets_ d) /\ Forall is_uint32 (offsets_ d).


(** ** A small oat file, used to run the model

    One dex file with one class that has one direct Thumb2 method.  The
    file is mapped at [0x100 .. 0x10000]. *)

Definition sample_method : OatMethod := {|
  GetCodeOffset := 0x1001;
  GetFrameSizeInBytes := 32;
  GetCoreSpillMask := 3;
  GetFpSpillMask := 0;
  GetMappingTableOffset := 0x900;
  GetVmapTableOffset := 0x940;
  GetNativeGcMapOffset := 0x960;
  GetInvokeStubOffset := 0x2000;
  GetCode := 0x1101;
  GetCodeSize := 64;
  GetInvokeStub := 0x2100;
  GetInvokeStubSize := 16;
  GetMappingTable :=
    Some {| table_address := 0xa00;
            table_words := [8; 4; 0x10; 3; 0x20; 5; 3; 0x10; 5; 0x20] |};
  GetVmapTable := Some {| vmap_address := 0xa40; vmap_entries := [5; 7] |};
  GetNativeGcMap := None
|}.

Definition sample_class (m : OatMethod) : ClassDef := {|
  GetClassDescriptor := "LSample;";
  class_idx_ := 7;
  GetStatus := 0;
  GetClassData :=
    Some {| direct_methods := [ {| GetMemberIndex := 12; oat_method := m |} ];
            virtual_methods := [] |}
|}.

Definition sample_header : OatHeader := {|
  GetMagic := "oat";
  GetChecksum := 0;
  GetInstructionSet := kThumb2;
  GetDexFileCount := 1;
  GetExecutableOffset := 0x1000;
  GetImageFileLocationChecksum := 0;
  GetImageFileLocation := EmptyString
|}.

Definition sample_oat_file_of (classes : list ClassDef) : OatFile := {|
  GetOatHeader := sample_header;
  Begin := 0x100;
  End_ := 0x10000;
  GetOatDexFiles :=
    [ {| GetDexFileLocation := "sample.dex";
         GetDexFileLocationChecksum := 0;
         OpenDexFile := Some {| GetHeader := 0x140; class_defs := classes |} |} ]
|}.

Definition sample_oat_file : OatFile :=
  sample_oat_file_of [sample_class sample_method].

Definition sample_dumper : OatDumper := new_OatDumper EmptyString sample_oat_file.

(** ** [ImageDumper]: sizes with a first-occurrence signal *)

Record ImageDumper := {
  oat_dumper_ : OatDumper;
  already_seen_ : gset Z         (* std::set<const void*> *)
}.

(** [size_t ComputeOatSize(const void* oat_data, bool* first_occurrence)]:
    the new object, the flag stored through [first_occurrence], and the
    outcome of the call.  The flag is stored before [ComputeSize] runs. *)
Definition ComputeOatSize (s : ImageDumper) (oat_data : Z)
  : ImageDumper * bool * Outcome Z :=
  let '(seen, first_occurrence) :=
    if decide (oat_data ∈ already_seen_ s)            (* count(oat_data) != 0 *)
    then (already_seen_ s, false)
    else ({[ oat_data ]} ∪ already_seen_ s, true) in
  let '(d, size) := ComputeSize (oat_dumper_ s) oat_data in
  ({| oat_dumper_ := d; already_seen_ := seen |}, first_occurrence, size).

(** One report session: the calls made for the addresses [addrs], in
    order, each giving its size and its flag; a call that does not
    return ends the session. *)
Fixpoint ComputeOatSize_session (s : ImageDumper) (addrs : list Z)
  : list (Z * bool) :=
  match addrs with
  | [] => []
  | a :: addrs' =>
      let '(s', first_occurrence, size) := ComputeOatSize s a in
      match size with
      | Returns n => (n, first_occurrence) :: ComputeOatSize_session s' addrs'
      | _ => []
      end
  end.

Definition sample_image_dumper : ImageDumper :=
  {| oat_dumper_ := sample_dumper; already_seen_ := ∅ |}.

(** ** The output stream

    [os << x] appends one item.  A dump function is a computation that
    extends the stream and returns, or stops where a CHECK fails or the
    behaviour is undefined; what was written before stays written. *)

Inductive Arg :=
| ArgInt (z : Z)                  (* %d, %zd, %x *)
| ArgPtr (p : Z)                  (* %p *)
| ArgStr (s : string)             (* %s *)
| ArgPrettyMethod (dex_method_idx : Z).  (* %s of PrettyMethod(idx, dex_file, true) *)

Inductive Item :=
| Text (s : string)               (* os << "..." *)
| Num (z : Z)                     (* os << integer *)
| Pointer (p : Z)                 (* os << const void* *)
| Formatted (fmt : string) (args : list Arg)   (* os << StringPrintf(fmt, args...) *)
| InstructionSetName (i : InstructionSet)
| Disassembly (begin_pc end_pc : Z)            (* disassembler_->Dump(os, begin, end) *)
| PrettyMethod (method : Z)       (* os << PrettyMethod(method) *)
| PrettySize (bytes : Z)          (* os << PrettySize(bytes) *)
| Double (d : float)              (* os << double *)
| Flush.                          (* os << std::flush *)

Definition ostream := list Item.

Definition Dumping (A : Type) : Type := ostream -> ostream * Outcome A.

Definition Dumping_ret {A} (a : A) : Dumping A := fun os => (os, Returns a).

Definition Dumping_bind {A B} (k : A -> Dumping B) (m : Dumping A) : Dumping B :=
  fun os =>
    match m os with
    | (os', Returns a) => k a os'
    | (os', CheckFailure what) => (os', CheckFailure what)
    | (os', UndefinedBehaviour what) => (os', UndefinedBehaviour what)
    | (os', OutOfFuel) => (os', OutOfFuel)
    end.

Global Instance Dumping_mret : MRet Dumping := @Dumping_ret.
Global Instance Dumping_mbind : MBind Dumping := @Dumping_bind.

Definition put (i : Item) : Dumping unit := fun os => (os ++ [i], Returns tt).

(** The outcome of a computation that writes nothing. *)
Definition lift {A} (o : Outcome A) : Dumping A := fun os => (os, o).

Definition CHECK (c : bool) (what : string) : Dumping unit :=
  if c then mret tt else lift (CheckFailure what).

(** [for (size_t i = start; ...; i++)] over the elements of a list. *)
Fixpoint for_each {A} (body : Z -> A -> Dumping unit) (i : Z) (l : list A)
  : Dumping unit :=
  match l with
  | [] => mret tt
  | x :: l' => body i x;; for_each body (wrap32 (i + 1)) l'
  end.

(** ** [DumpSpillMask] *)

Fixpoint DumpSpillMask_loop (n : nat) (i : Z) (spill_mask : Z) (is_float : bool)
  : Dumping unit :=
  match n with
  | O => mret tt
  | S n' =>
      if negb (Z.land spill_mask (wrap32 (Z.shiftl 1 i)) =? 0) then
        (if is_float then put (Text "fr");; put (Num i)
         else put (Text "r");; put (Num i));;
        let spill_mask := Z.lxor spill_mask (wrap32 (Z.shiftl 1 i)) in  (* clear bit *)
        if negb (spill_mask =? 0) then
          put (Text ", ");;
          DumpSpillMask_loop n' (i + 1) spill_mask is_float
        else mret tt                                     (* break *)
      else DumpSpillMask_loop n' (i + 1) spill_mask is_float
  end.

Definition DumpSpillMask (spill_mask : Z) (is_float : bool) : Dumping unit :=
  if spill_mask =? 0 then mret tt
  else
    put (Text " (");;
    DumpSpillMask_loop 32 0 spill_mask is_float;;
    put (Text ")").

(** ** [DumpVmap] *)

(** The [while (matches != (i + 1))] loop; [target] is [i + 1].  The
    result is [spill_shifts] when the loop is left. *)
Fixpoint DumpVmap_scan (fuel : nat) (target matches spill_shifts spill_mask : Z)
    (processing_fp : bool) (fp_spill_mask : Z) : Outcome Z :=
  match fuel with
  | O => OutOfFuel
  | S fuel' =>
      if negb (matches =? target) then
        if spill_mask =? 0 then
          if negb processing_fp then                 (* CHECK(!processing_fp) *)
            let spill_mask := fp_spill_mask in
            let processing_fp := true in
            DumpVmap_scan fuel' target
              (wrap32 (matches + Z.land spill_mask 1))
              (wrap32 (spill_shifts + 1))
              (Z.shiftr spill_mask 1) processing_fp fp_spill_mask
          else CheckFailure "!processing_fp"
        else
          DumpVmap_scan fuel' target
            (wrap32 (matches + Z.land spill_mask 1))   (* Add 1 if the low bit is set *)
            (wrap32 (spill_shifts + 1))
            (Z.shiftr spill_mask 1) processing_fp fp_spill_mask
      else Returns spill_shifts
  end.

(** Each pass either shifts a non-zero mask or switches to the other
    mask, so two 32-bit masks give at most 66 passes. *)
Definition DumpVmap_fuel : nat := 67.

(** The body of the [for] loop over the table, and the loop; [first]
    is the local flag of the same name. *)
Fixpoint DumpVmap_loop (core_spill_mask fp_spill_mask : Z)
    (entries : list Z) (i : Z) (first : bool) : Dumping unit :=
  match entries with
  | [] => mret tt
  | dex_reg :: entries' =>
      spill_shifts ← lift (DumpVmap_scan DumpVmap_fuel (wrap32 (i + 1)) 0 0
                             core_spill_mask false fp_spill_mask);
      let arm_reg := wrap32 (spill_shifts - 1) in  (* wind back one as we want the last match *)
      put (Text (if first then "v" else ", v"));; put (Num dex_reg);;
      (if arm_reg <? 16 then
         put (Text "/r");; put (Num arm_reg)
       else
         put (Text "/fr");; put (Num (wrap32 (arm_reg - 16))));;
      DumpVmap_loop core_spill_mask fp_spill_mask entries' (wrap32 (i + 1)) false
  end.

Definition DumpVmap (raw_table : option VmapTable)
    (core_spill_mask fp_spill_mask : Z) : Dumping unit :=
  match raw_table with
  | None => mret tt
  | Some vmap_table =>
      put (Text "\t\t\t");;
      DumpVmap_loop core_spill_mask fp_spill_mask (vmap_entries vmap_table) 0 true;;
      put (Text "\n")
  end.

(** ** [DumpGcMap] *)

(** [reg_bitmap[k]]: a read of element [k] of an array. *)
Definition read (what : string) (a : list Z) (k : Z) : Dumping Z :=
  match a !! Z.to_nat k with
  | Some w => mret w
  | None => lift (UndefinedBehaviour what)
  end.

Fixpoint DumpGcMap_regs (n : nat) (reg : Z) (reg_bitmap : list Z) (first : bool)
  : Dumping unit :=
  match n with
  | O => mret tt
  | S n' =>
      byte ← read "reg_bitmap" reg_bitmap (reg / 8);
      if negb (Z.land (Z.shiftr byte (reg mod 8)) 1 =? 0) then
        (if first then put (Text "  v");; put (Num reg)
         else put (Text ", v");; put (Num reg));;
        DumpGcMap_regs n' (wrap32 (reg + 1)) reg_bitmap false
      else DumpGcMap_regs n' (wrap32 (reg + 1)) reg_bitmap first
  end.

Definition DumpGcMap (code : Z) (gc_map_raw : option NativePcOffsetToReferenceMap)
  : Dumping unit :=
  match gc_map_raw with
  | None => mret tt
  | Some map =>
      for_each (fun _ entry =>
                  let native_pc := wrap32 (code + fst entry) in
                  put (Formatted "\t\t\t%p" [ArgPtr native_pc]);;
                  let num_regs := wrap32 (RegWidth map * 8) in
                  DumpGcMap_regs (Z.to_nat num_regs) 0 (snd entry) true;;
                  put (Text "\n"))
               0 (gc_map_entries map)
  end.

(** ** [DumpMappingTable] *)

(** The [for (size_t i = 0; i < length; i += 2)] loop.  [raw_table] is
    the table after its two leading counts. *)
Fixpoint DumpMappingTable_loop (fuel : nat) (code : Z) (raw_table : list Z)
    (length pc_to_dex_entries : Z) (i : Z) : Dumping unit :=
  match fuel with
  | O => lift OutOfFuel
  | S fuel' =>
      if i <? length then
        offset ← read "raw_table" raw_table i;
        let native_pc := wrap32 (code + offset) in
        dex_pc ← read "raw_table" raw_table (i + 1);
        put (Formatted "%p -> 0x%04x" [ArgPtr native_pc; ArgInt dex_pc]);;
        (if wrap32 (i + 2) =? pc_to_dex_entries then
           (* Separate the pc -> dex from dex -> pc sections *)
           put (Text "}\n\t\t{")
         else if wrap32 (i + 2) <? length then
           put (Text ", ")
         else mret tt);;
        DumpMappingTable_loop fuel' code raw_table length pc_to_dex_entries
                              (wrap32 (i + 2))
      else mret tt
  end.

(** Every pass reads two further elements of the table, so there are
    not more passes than elements. *)
Definition DumpMappingTable (m : OatMethod) : Dumping unit :=
  match GetMappingTable m with
  | None => mret tt
  | Some table =>
      let code := GetCode m in
      if code =? 0 then mret tt
      else
        match table_words table with
        | length :: pc_to_dex_entries :: raw_table =>
            put (Text "\t\t{");;
            DumpMappingTable_loop (S (List.length raw_table)) code raw_table
                                  length pc_to_dex_entries 0;;
            put (Text "}\n");; put Flush
        | _ => lift (UndefinedBehaviour "raw_table")
        end
  end.

(** ** [DumpCode] *)

Definition DumpCode (code : Z) (code_size : Z) : Dumping unit :=
  if (code =? 0) || (code_size =? 0) then mret tt
  else
    let native_pc := code in
    let end_native_pc := wrap32 (native_pc + code_size) in
    put (Disassembly native_pc end_native_pc).

(** ** The report of an oat file *)

Definition table_pointer (t : option RawTable) : Z :=
  match t with Some t => table_address t | None => 0 end.
Definition vmap_pointer (t : option VmapTable) : Z :=
  match t with Some t => vmap_address t | None => 0 end.
Definition gc_map_pointer (t : option NativePcOffsetToReferenceMap) : Z :=
  match t with Some t => gc_map_address t | None => 0 end.

Definition DumpOatMethod (class_method_index : Z) (oat_method : OatMethod)
    (dex_method_idx : Z) : Dumping unit :=
  put (Formatted "\t%d: %s (dex_method_idx=%d)\n"
         [ArgInt class_method_index; ArgPrettyMethod dex_method_idx;
          ArgInt dex_method_idx]);;
  put (Formatted "\t\tframe_size_in_bytes: %zd\n"
         [ArgInt (GetFrameSizeInBytes oat_method)]);;
  put (Formatted "\t\tcore_spill_mask: 0x%08x" [ArgInt (GetCoreSpillMask oat_method)]);;
  DumpSpillMask (GetCoreSpillMask oat_method) false;;
  put (Formatted "\n\t\tfp_spill_mask: 0x%08x" [ArgInt (GetFpSpillMask oat_method)]);;
  DumpSpillMask (GetFpSpillMask oat_method) true;;
  put (Formatted "\n\t\tmapping_table: %p (offset=0x%08x)\n"
         [ArgPtr (table_pointer (GetMappingTable oat_method));
          ArgInt (GetMappingTableOffset oat_method)]);;
  DumpMappingTable oat_method;;
  put (Formatted "\t\tvmap_table: %p (offset=0x%08x)\n"
         [ArgPtr (vmap_pointer (GetVmapTable oat_method));
          ArgInt (GetVmapTableOffset oat_method)]);;
  DumpVmap (GetVmapTable oat_method) (GetCoreSpillMask oat_method)
           (GetFpSpillMask oat_method);;
  put (Formatted "\t\tgc_map: %p (offset=0x%08x)\n"
         [ArgPtr (gc_map_pointer (GetNativeGcMap oat_method));
          ArgInt (GetNativeGcMapOffset oat_method)]);;
  DumpGcMap (GetCode oat_method) (GetNativeGcMap oat_method);;
  put (Formatted "\t\tCODE: %p (offset=0x%08x size=%d)%s\n"
         [ArgPtr (GetCode oat_method); ArgInt (GetCodeOffset oat_method);
          ArgInt (GetCodeSize oat_method);
          ArgStr (if GetCode oat_method =? 0 then EmptyString else "...")]);;
  DumpCode (GetCode oat_method) (GetCodeSize oat_method);;
  put (Formatted "\t\tINVOKE STUB: %p (offset=0x%08x size=%d)%s\n"
         [ArgPtr (GetInvokeStub oat_method); ArgInt (GetInvokeStubOffset oat_method);
          ArgInt (GetInvokeStubSize oat_method);
          ArgStr (if GetInvokeStub oat_method =? 0 then EmptyString else "...")]);;
  DumpCode (GetInvokeStub oat_method) (GetInvokeStubSize oat_method).

Definition DumpOatClass_method (class_method_index : Z) (m : ClassMethod)
  : Dumping unit :=
  DumpOatMethod class_method_index (oat_method m) (GetMemberIndex m).

Definition DumpOatClass (class_def : ClassDef) : Dumping unit :=
  match GetClassData class_def with
  | None => mret tt                 (* empty class such as a marker interface? *)
  | Some class_data =>
      for_each DumpOatClass_method 0 (direct_methods class_data);;
      for_each DumpOatClass_method
               (wrap32 (Z.of_nat (List.length (direct_methods class_data))))
               (virtual_methods class_data);;
      put Flush
  end.

Definition DumpOatDexFile (oat_dex_file : OatDexFile) : Dumping unit :=
  put (Text "OAT DEX FILE:\n");;
  put (Formatted "location: %s\n" [ArgStr (GetDexFileLocation oat_dex_file)]);;
  put (Formatted "checksum: 0x%08x\n" [ArgInt (GetDexFileLocationChecksum oat_dex_file)]);;
  match OpenDexFile oat_dex_file with
  | None => put (Text "NOT FOUND\n\n")
  | Some dex_file =>
      for_each (fun class_def_index class_def =>
                  put (Formatted "%zd: %s (type_idx=%d) ("
                         [ArgInt class_def_index;
                          ArgStr (GetClassDescriptor class_def);
                          ArgInt (class_idx_ class_def)]);;
                  put (Num (GetStatus class_def));;
                  put (Text ")\n");;
                  DumpOatClass class_def)
               0 (class_defs dex_file);;
      put Flush
  end.

Definition Dump (d : OatDumper) : Dumping unit :=
  let oat_header := GetOatHeader (oat_file_ d) in
  put (Text "MAGIC:\n");;
  put (Text (GetMagic oat_header));; put (Text "\n\n");;
  put (Text "CHECKSUM:\n");;
  put (Formatted "0x%08x\n\n" [ArgInt (GetChecksum oat_header)]);;
  put (Text "INSTRUCTION SET:\n");;
  put (InstructionSetName (GetInstructionSet oat_header));; put (Text "\n\n");;
  put (Text "DEX FILE COUNT:\n");;
  put (Num (GetDexFileCount oat_header));; put (Text "\n\n");;
  put (Text "EXECUTABLE OFFSET:\n");;
  put (Formatted "0x%08x\n\n" [ArgInt (GetExecutableOffset oat_header)]);;
  put (Text "IMAGE FILE LOCATION CHECKSUM:\n");;
  put (Formatted "0x%08x\n\n" [ArgInt (GetImageFileLocationChecksum oat_header)]);;
  put (Text "IMAGE FILE LOCATION:\n");;
  let image_file_location := GetImageFileLocation oat_header in
  put (Text image_file_location);;
  (if negb (String.eqb image_file_location EmptyString) && negb (String.eqb (host_prefix_ d) EmptyString)
   then put (Text " (");; put (Text (host_prefix_ d));;
        put (Text image_file_location);; put (Text ")")
   else mret tt);;
  put (Text "\n\n");;
  put (Text "BEGIN:\n");;
  put (Pointer (Begin (oat_file_ d)));; put (Text "\n\n");;
  put (Text "END:\n");;
  put (Pointer (End_ (oat_file_ d)));; put (Text "\n\n");;
  put Flush;;
  for_each (fun _ oat_dex_file => DumpOatDexFile oat_dex_file)
           0 (GetOatDexFiles (oat_file_ d)).

(** ** What [DumpVmap] prints, stated on the spill masks

    The binary digits of a mask, least significant first, ending with
    its highest set bit (none for 0). *)

Fixpoint positive_bits (p : positive) : list bool :=
  match p with
  | xH => [true]
  | xO p' => false :: positive_bits p'
  | xI p' => true :: positive_bits p'
  end.

Definition mask_bits (m : Z) : list bool :=
  match m with
  | Zpos p => positive_bits p
  | _ => []
  end.

Definition bit_length (m : Z) : Z := Z.of_nat (length (mask_bits m)).

(** The stream that the scan walks: the core mask up to its highest set
    bit, then the fp mask. *)
Definition spill_stream (core_spill_mask fp_spill_mask : Z) : list bool :=
  mask_bits core_spill_mask ++ mask_bits fp_spill_mask.

(** Position of the [(k+1)]-th set bit of a stream. *)
Fixpoint nth_set_bit (k : nat) (bits : list bool) : option Z :=
  match bits with
  | [] => None
  | b :: bits' =>
      match b, k with
      | true, O => Some 0
      | true, S k' => Z.succ <$> nth_set_bit k' bits'
      | false, _ => Z.succ <$> nth_set_bit k bits'
      end
  end.

Inductive PhysicalRegister :=
| CoreRegister (n : Z)            (* printed as /r<n> *)
| FpRegister (n : Z).             (* printed as /fr<n> *)

(** The register that [DumpVmap] names for a slot. *)
Definition arm_register (slot : Z) : PhysicalRegister :=
  if slot <? 16 then CoreRegister slot else FpRegister (slot - 16).

(** Entries [i, i+1, ...] of a table decoded against a stream. *)
Fixpoint decode_entries (stream : list bool) (name : Z -> PhysicalRegister)
    (i : nat) (entries : list Z) : option (list (Z * PhysicalRegister)) :=
  match entries with
  | [] => Some []
  | dex_reg :: entries' =>
      slot ← nth_set_bit i stream;
      rest ← decode_entries stream name (S i) entries';
      Some ((dex_reg, name slot) :: rest)
  end.

Definition render_register (r : PhysicalRegister) : list Item :=
  match r with
  | CoreRegister n => [Text "/r"; Num n]
  | FpRegister n => [Text "/fr"; Num n]
  end.

Fixpoint render_entries (first : bool) (es : list (Z * PhysicalRegister))
  : list Item :=
  match es with
  | [] => []
  | (dex_reg, r) :: es' =>
      [Text (if first then "v" else ", v"); Num dex_reg]
        ++ render_register r ++ render_entries false es'
  end.

Definition render_vmap (es : list (Z * PhysicalRegister)) : list Item :=
  [Text "\t\t\t"] ++ render_entries true es ++ [Text "\n"].

(** The decoding that the design document words: both masks taken at
    their full 32 bits, a slot below 32 a core register, any other an fp
    register numbered from 32. *)
Definition spec_mask_bits (m : Z) : list bool := Z.testbit m <$> seqZ 0 32.

Definition spec_stream (gpMask fpMask : Z) : list bool :=
  spec_mask_bits gpMask ++ spec_mask_bits fpMask.

Definition spec_register (slot : Z) : PhysicalRegister :=
  if slot <? 32 then CoreRegister slot else FpRegister (slot - 32).

Definition spec_decodeVirtualRegisterTable (table : list Z) (gpMask fpMask : Z)
  : option (list (Z * PhysicalRegister)) :=
  decode_entries (spec_stream gpMask fpMask) spec_register 0 table.

Definition vmap_of (entries : list Z) : VmapTable :=
  {| vmap_address := 0xa40; vmap_entries := entries |}.

(** What the scan returns, read off the stream that is still ahead. *)
Definition scan_result (target matches spill_shifts : Z) (stream : list bool)
  : Outcome Z :=
  if matches =? target then Returns spill_shifts
  else match nth_set_bit (Z.to_nat (target - matches - 1)) stream with
       | Some k => Returns (spill_shifts + k + 1)
       | None => CheckFailure "!processing_fp"
       end.

(** ** The methods that a report goes through *)

Definition class_methods (c : ClassDef) : list ClassMethod :=
  match GetClassData c with
  | None => []
  | Some class_data => direct_methods class_data ++ virtual_methods class_data
  end.

Definition dex_file_methods (odf : OatDexFile) : list ClassMethod :=
  match OpenDexFile odf with
  | None => []
  | Some dex_file => class_defs dex_file ≫= class_methods
  end.

Definition dumped_methods (f : OatFile) : list OatMethod :=
  oat_method <$> (GetOatDexFiles f ≫= dex_file_methods).

(** The scan for some entry of the table of [m] runs through both spill
    masks without finding enough set bits. *)
Definition malformed_vmap (m : OatMethod) : Prop :=
  exists t i,
    GetVmapTable m = Some t /\
    (i < length (vmap_entries t))%nat /\
    nth_set_bit i (spill_stream (GetCoreSpillMask m) (GetFpSpillMask m)) = None.

Definition vmap_in_range (m : OatMethod) : Prop :=
  is_uint32 (GetCoreSpillMask m) /\ is_uint32 (GetFpSpillMask m) /\
  forall t, GetVmapTable m = Some t -> Z.of_nat (length (vmap_entries t)) <= 65535.

(** A method whose table has two entries for one spilled register,
    followed in the file by a well-formed one. *)
Definition bad_vmap_method : OatMethod := {|
  GetCodeOffset := 0x3001;
  GetFrameSizeInBytes := 32;
  GetCoreSpillMask := 1;
  GetFpSpillMask := 0;
  GetMappingTableOffset := 0x980;
  GetVmapTableOffset := 0x9c0;
  GetNativeGcMapOffset := 0x9e0;
  GetInvokeStubOffset := 0x4000;
  GetCode := 0x3101;
  GetCodeSize := 64;
  GetInvokeStub := 0x4100;
  GetInvokeStubSize := 16;
  GetMappingTable := None;
  GetVmapTable := Some {| vmap_address := 0xac0; vmap_entries := [5; 7] |};
  GetNativeGcMap := None
|}.

Definition bad_vmap_oat_file : OatFile :=
  sample_oat_file_of [sample_class bad_vmap_method; sample_class sample_method].

Definition bad_vmap_dumper : OatDumper := new_OatDumper EmptyString bad_vmap_oat_file.

(** The first item of the block of class [class_def_index]. *)
Definition class_header_item (class_def_index : Z) (c : ClassDef) : Item :=
  Formatted "%zd: %s (type_idx=%d) ("
            [ArgInt class_def_index; ArgStr (GetClassDescriptor c);
             ArgInt (class_idx_ c)].

(** ** What [DumpMappingTable] prints, stated on the pairs of the table *)

Definition render_pair (code : Z) (p : Z * Z) : Item :=
  Formatted "%p -> 0x%04x" [ArgPtr (wrap32 (code + fst p)); ArgInt (snd p)].

(** The pairs of one section, separated by commas. *)
Fixpoint render_section (code : Z) (ps : list (Z * Z)) : list Item :=
  match ps with
  | [] => []
  | p :: ps' =>
      match ps' with
      | [] => [render_pair code p]
      | _ => render_pair code p :: Text ", " :: render_section code ps'
      end
  end.

(** Two brace groups: the pc -> dex section, then the dex -> pc one. *)
Definition render_mapping_table (code : Z) (forward reverse : list (Z * Z))
  : list Item :=
  [Text "\t\t{"] ++ render_section code forward ++ [Text "}\n\t\t{"]
    ++ render_section code reverse ++ [Text "}\n"; Flush].

(** The pairs laid out as the words of a table. *)
Fixpoint flatten_pairs (ps : list (Z * Z)) : list Z :=
  match ps with
  | [] => []
  | (a, b) :: ps' => a :: b :: flatten_pairs ps'
  end.

(** What the loop writes for the pairs from number [j] on: after each
    pair the section break, a comma, or nothing. *)
Fixpoint render_loop (code length pc_to_dex_entries : Z) (j : nat)
    (todo : list (Z * Z)) : list Item :=
  match todo with
  | [] => []
  | p :: todo' =>
      render_pair code p
        :: (if 2 * Z.of_nat j + 2 =? pc_to_dex_entries then [Text "}\n\t\t{"]
            else if 2 * Z.of_nat j + 2 <? length then [Text ", "]
            else [])
        ++ render_loop code length pc_to_dex_entries (S j) todo'
  end.

(** The sample method with another mapping table. *)
Definition with_mapping_table (words : list Z) : OatMethod := {|
  GetCodeOffset := GetCodeOffset sample_method;
  GetFrameSizeInBytes := GetFrameSizeInBytes sample_method;
  GetCoreSpillMask := GetCoreSpillMask sample_method;
  GetFpSpillMask := GetFpSpillMask sample_method;
  GetMappingTableOffset := GetMappingTableOffset sample_method;
  GetVmapTableOffset := GetVmapTableOffset sample_method;
  GetNativeGcMapOffset := GetNativeGcMapOffset sample_method;
  GetInvokeStubOffset := GetInvokeStubOffset sample_method;
  GetCode := 0x1000;
  GetCodeSize := GetCodeSize sample_method;
  GetInvokeStub := GetInvokeStub sample_method;
  GetInvokeStubSize := GetInvokeStubSize sample_method;
  GetMappingTable := Some {| table_address := 0xa00; table_words := words |};
  GetVmapTable := GetVmapTable sample_method;
  GetNativeGcMap := GetNativeGcMap sample_method
|}.

(** ** [ImageDumper::Stats]: the outlier samples *)

(** [static_cast<double>] of a [size_t], and the conversion of a
    [double] to [size_t]: truncation towards zero, undefined when the
    truncated value is not a [size_t] (also for NaN and infinities). *)
Definition double_of_size (z : Z) : float := PrimFloat.of_uint63 (Uint63.of_Z z).

Definition size_of_double (d : float) : Outcome Z :=
  let undefined := UndefinedBehaviour "double to size_t" in
  match Prim2SF d with
  | S754_zero _ => Returns 0
  | S754_finite sign m e =>
      let magnitude := if 0 <=? e then Z.pos m * 2 ^ e else Z.pos m / 2 ^ (- e) in
      if magnitude =? 0 then Returns 0
      else if sign then undefined
      else if magnitude <? 2 ^ 32 then Returns magnitude
      else undefined
  | _ => undefined
  end.

Record Stats := {
  method_outlier : list Z;               (* std::vector<AbstractMethod*> *)
  method_outlier_size : list Z;          (* std::vector<size_t> *)
  method_outlier_expansion : list float  (* std::vector<double> *)
}.

Definition ComputeOutliers (total_size : Z) (expansion : float) (method : Z)
    (s : Stats) : Stats :=
  {| method_outlier_size := method_outlier_size s ++ [total_size];
     method_outlier_expansion := method_outlier_expansion s ++ [expansion];
     method_outlier := method_outlier s ++ [method] |}.

Definition puts (items : list Item) : Dumping unit :=
  fun os => (os ++ items, Returns tt).

(** [v[j]] of a vector. *)
Definition element {A} (what : string) (v : list A) (j : nat) : Dumping A :=
  match v !! j with
  | Some x => mret x
  | None => lift (UndefinedBehaviour what)
  end.

(** Unsigned division. *)
Definition udiv (a b : Z) : Dumping Z :=
  if b =? 0 then lift (UndefinedBehaviour "division by zero") else mret (a / b).

(** *** One sweep

    The two sweeps of [DumpOutliers] are the same loop over different
    vectors.  [exceeds i cur] is the test made on a sample ([cur > mean]
    and [cur_var > i * i * variance]); [header] and [line] are what is
    written; [zero] is stored in a sample once it is written. *)
Section Sweep.
Context {T : Type}.
Variable exceeds : Z -> T -> Outcome bool.
Variable zero : T.
Variable header : Z -> list Item.
Variable line : Z -> T -> list Item.
Variable methods : list Z.

Record SweepState := {
  samples : list T;
  dumped_values : Z;
  skipped_values : Z
}.

(** [for (size_t j = 0; j < n; j++)], from [j] on, with [count] passes
    to go.  The result carries the value of [i] when the loop is left:
    [2] after [i = 2; break]. *)
Fixpoint sweep_scan (count j : nat) (i : Z) (first : bool) (st : SweepState)
  : Dumping (Z * SweepState) :=
  match count with
  | O => mret (i, st)
  | S count' =>
      cur ← element "vector index" (samples st) j;
      over ← lift (exceeds i cur);
      if over : bool then
        if dumped_values st >? 20 then
          if i =? 1 then
            sweep_scan count' (S j) i first
              {| samples := samples st;
                 dumped_values := dumped_values st;
                 skipped_values := wrap32 (skipped_values st + 1) |}
          else
            mret (2, st)     (* jump to counting for 1 standard deviation *)
        else
          (if first then puts (header i) else mret tt);;
          method ← element "vector index" methods j;
          puts (line method cur);;
          sweep_scan count' (S j) i false
            {| samples := <[j := zero]> (samples st);  (* don't consider this method again *)
               dumped_values := wrap32 (dumped_values st + 1);
               skipped_values := skipped_values st |}
      else sweep_scan count' (S j) i first st
  end.

(** [for (size_t i = start; i > 0; i--)]. *)
Fixpoint sweep_loop (fuel : nat) (n : nat) (i : Z) (st : SweepState)
  : Dumping SweepState :=
  match fuel with
  | O => lift OutOfFuel
  | S fuel' =>
      if i >? 0 then
        r ← sweep_scan n 0 i true st;
        sweep_loop fuel' n (wrap32 (fst r - 1)) (snd r)
      else mret st
  end.

(** A pass never leaves [i] greater than it was, so [start] passes and
    the last test are all there is. *)
Definition sweep (start : Z) (n : nat) (values : list T) : Dumping SweepState :=
  sweep_loop (S (Z.to_nat start)) n start
             {| samples := values; dumped_values := 0; skipped_values := 0 |}.

End Sweep.

Arguments samples {T} _.
Arguments dumped_values {T} _.
Arguments skipped_values {T} _.

(** *** [DumpOutliers] *)

(** The loop that sums the samples.  The two sums of the expansions are
    [size_t] variables: each [+=] adds in [double] and converts back. *)
Fixpoint DumpOutliers_sums (count i : nat) (s : Stats)
    (sum_of_sizes sum_of_sizes_squared sum_of_expansion sum_of_expansion_squared : Z)
  : Dumping (Z * Z * Z * Z) :=
  match count with
  | O => mret (sum_of_sizes, sum_of_sizes_squared,
               sum_of_expansion, sum_of_expansion_squared)
  | S count' =>
      cur_size ← element "vector index" (method_outlier_size s) i;
      let sum_of_sizes := wrap32 (sum_of_sizes + cur_size) in
      let sum_of_sizes_squared :=
        wrap32 (sum_of_sizes_squared + wrap32 (cur_size * cur_size)) in
      cur_expansion ← element "vector index" (method_outlier_expansion s) i;
      sum_of_expansion ←
        lift (size_of_double (double_of_size sum_of_expansion + cur_expansion)%float);
      sum_of_expansion_squared ←
        lift (size_of_double (double_of_size sum_of_expansion_squared
                              + cur_expansion * cur_expansion)%float);
      DumpOutliers_sums count' (S i) s sum_of_sizes sum_of_sizes_squared
                        sum_of_expansion sum_of_expansion_squared
  end.

Definition size_exceeds (size_mean size_variance : Z) (i : Z) (cur_size : Z)
  : Outcome bool :=
  let cur_size_variance := wrap32 (wrap32 (i * i) * size_variance) in
  if cur_size >? size_mean then
    let cur_var := wrap32 (cur_size - size_mean) in
    let cur_var := wrap32 (cur_var * cur_var) in
    Returns (cur_var >? cur_size_variance)
  else Returns false.

Definition size_header (i : Z) : list Item :=
  [Text "\nBig methods (size > "; Num i; Text " standard deviations the norm):\n"].

Definition size_line (method : Z) (cur_size : Z) : list Item :=
  [Text "\t"; PrettyMethod method; Text " requires storage of ";
   PrettySize cur_size; Text "\n"].

Definition expansion_exceeds (expansion_mean expansion_variance : float) (i : Z)
    (cur_expansion : float) : Outcome bool :=
  let cur_expansion_variance :=
    (double_of_size (wrap32 (i * i)) * expansion_variance)%float in
  if (expansion_mean <? cur_expansion)%float then
    match size_of_double (cur_expansion - expansion_mean)%float with
    | Returns cur_var =>
        let cur_var := wrap32 (cur_var * cur_var) in
        Returns (cur_expansion_variance <? double_of_size cur_var)%float
    | CheckFailure what => CheckFailure what
    | UndefinedBehaviour what => UndefinedBehaviour what
    | OutOfFuel => OutOfFuel
    end
  else Returns false.

Definition expansion_header (i : Z) : list Item :=
  [Text "\nLarge expansion methods (size > "; Num i;
   Text " standard deviations the norm):\n"].

Definition expansion_line (method : Z) (cur_expansion : float) : list Item :=
  [Text "\t"; PrettyMethod method; Text " expanded code by ";
   Double cur_expansion; Text "\n"].

Definition size_sweep (size_mean size_variance : Z) (s : Stats)
  : Dumping (SweepState (T := Z)) :=
  sweep (size_exceeds size_mean size_variance) 0 size_header size_line
        (method_outlier s) 100 (length (method_outlier_size s))
        (method_outlier_size s).

Definition expansion_sweep (expansion_mean expansion_variance : float) (s : Stats)
  : Dumping (SweepState (T := float)) :=
  sweep (expansion_exceeds expansion_mean expansion_variance) 0%float
        expansion_header expansion_line
        (method_outlier s) 10 (length (method_outlier_size s))
        (method_outlier_expansion s).

Definition DumpOutliers (s : Stats) : Dumping Stats :=
  let n := length (method_outlier_size s) in
  sums ← DumpOutliers_sums n 0 s 0 0 0 0;
  let '(sum_of_sizes, sum_of_sizes_squared,
        sum_of_expansion, sum_of_expansion_squared) := sums in
  size_mean ← udiv sum_of_sizes (Z.of_nat n);
  size_variance ←
    udiv (wrap32 (sum_of_sizes_squared - wrap32 (sum_of_sizes * size_mean)))
         (wrap32 (Z.of_nat n - 1));
  expansion_mean ← udiv sum_of_expansion (Z.of_nat n);
  let expansion_mean := double_of_size expansion_mean in
  let expansion_variance :=
    ((double_of_size sum_of_expansion_squared
      - double_of_size sum_of_expansion * expansion_mean)
     / double_of_size (wrap32 (Z.of_nat n - 1)))%float in
  (* Dump methods whose size is a certain number of standard deviations from the mean *)
  st ← size_sweep size_mean size_variance s;
  let s := {| method_outlier := method_outlier s;
              method_outlier_size := samples st;
              method_outlier_expansion := method_outlier_expansion s |} in
  (if skipped_values st >? 0 then
     puts [Text "\t... skipped "; Num (skipped_values st);
           Text " methods with size > 1 standard deviation from the norm\n"]
   else mret tt);;
  put Flush;;
  (* Dump methods whose expansion is a certain number of standard deviations from the mean *)
  st ← expansion_sweep expansion_mean expansion_variance s;
  let s := {| method_outlier := method_outlier s;
              method_outlier_size := method_outlier_size s;
              method_outlier_expansion := samples st |} in
  (if skipped_values st >? 0 then
     puts [Text "\t... skipped "; Num (skipped_values st);
           Text " methods with expansion > 1 standard deviation from the norm\n"]
   else mret tt);;
  put (Text "\n");; put Flush;;
  mret s.

(** *** What a sweep writes *)

Inductive SweepEvent (T : Type) :=
| Heading (i : Z)                      (* the header line of threshold [i] *)
| Report (method : Z) (cur : T).       (* one sample written *)
Arguments Heading {T} i.
Arguments Report {T} method cur.

Definition is_report {T} (e : SweepEvent T) : bool :=
  match e with Report _ _ => true | Heading _ => false end.

(** Number of samples written. *)
Definition reports {T} (evs : list (SweepEvent T)) : Z :=
  Z.of_nat (length (List.filter is_report evs)).

Definition render_event {T} (header : Z -> list Item) (line : Z -> T -> list Item)
    (e : SweepEvent T) : list Item :=
  match e with
  | Heading i => header i
  | Report method cur => line method cur
  end.

Definition render_events {T} (header : Z -> list Item) (line : Z -> T -> list Item)
    (evs : list (SweepEvent T)) : list Item :=
  evs ≫= render_event header line.

(** The test on a sample gives an answer. *)
Definition decided {T} (exceeds : Z -> T -> Outcome bool) (i : Z) (x : T) : Prop :=
  exists b, exceeds i x = Returns b.

Definition qualifies {T} (exceeds : Z -> T -> Outcome bool) (i : Z) (x : T) : bool :=
  match exceeds i x with Returns true => true | _ => false end.

(** Number of samples that qualify at threshold [i]. *)
Definition qualifying {T} (exceeds : Z -> T -> Outcome bool) (i : Z)
    (values : list T) : Z :=
  Z.of_nat (length (List.filter (qualifies exceeds i) values)).


(** No sample qualifies above threshold 1, and the test gives an answer
    on every sample at every threshold of the sweep. *)
Definition only_at_one {T} (exceeds : Z -> T -> Outcome bool) (start : Z)
    (values : list T) : Prop :=
  (forall k x, 1 <= k <= start -> x ∈ values -> decided exceeds k x) /\
  (forall k x, 2 <= k <= start -> x ∈ values -> qualifies exceeds k x = false).

Definition only_at_one_check {T} (exceeds : Z -> T -> Outcome bool) (start : Z)
    (values : list T) : bool :=
  forallb (fun k =>
             forallb (fun x => match exceeds k x with
                               | Returns b => if 2 <=? k then negb b else true
                               | _ => false
                               end) values)
          (seqZ 1 start).

(** Samples to run the model on: [sizes] with the one expansion [e] for
    every method. *)
Definition stats_of (sizes : list Z) (e : float) : Stats :=
  {| method_outlier := seqZ 0 (Z.of_nat (length sizes));
     method_outlier_size := sizes;
     method_outlier_expansion := replicate (length sizes) e |}.

(** 25 samples that are more than one and less than two standard
    deviations above the mean: the mean is 41, the variance 2500. *)
Definition stats_25_at_one : Stats :=
  stats_of (replicate 25 100 ++ replicate 35 0) 2%float.

(** 22 samples that are more than three standard deviations above the
    mean: the mean is 80, the variance 74686. *)
Definition stats_22_at_three : Stats :=
  stats_of (replicate 22 1000 ++ replicate 250 0) 2%float.


Definition is_size_report (it : Item) : bool :=
  match it with
  | Text " requires storage of " => true
  | _ => false
  end.

(** ** Further definitions for the properties of the registry *)

(** The code offset that [AddOffsets] registers for a method of [f]. *)
Definition registered_code_offset (f : OatFile) (m : OatMethod) : Z :=
  if decide (GetInstructionSet (GetOatHeader f) = kThumb2)
  then Z.land (GetCodeOffset m) 0xFFFFFFFE
  else GetCodeOffset m.

(** The five offsets of a method are in the registry. *)
Definition method_registered (f : OatFile) (m : OatMethod) (d : OatDumper) : Prop :=
  wrap32 (registered_code_offset f m) ∈ offsets_ d /\
  wrap32 (GetMappingTableOffset m) ∈ offsets_ d /\
  wrap32 (GetVmapTableOffset m) ∈ offsets_ d /\
  wrap32 (GetNativeGcMapOffset m) ∈ offsets_ d /\
  wrap32 (GetInvokeStubOffset m) ∈ offsets_ d.

(** The dex files of [f] that open. *)
Definition opened_dex_files (f : OatFile) : list DexFile :=
  GetOatDexFiles f ≫= fun odf => option_list (OpenDexFile odf).

Definition Zsum (l : list Z) : Z := foldr Z.add 0 l.

(** The addresses of a session whose query set the first-occurrence
    flag. *)
Fixpoint first_occurrences (addrs : list Z) (results : list (Z * bool)) : list Z :=
  match addrs, results with
  | a :: addrs', (_, first) :: results' =>
      if first : bool then a :: first_occurrences addrs' results'
      else first_occurrences addrs' results'
  | _, _ => []
  end.

(** ** What [DumpSpillMask] and [DumpGcMap] print *)

(** The positions below [width] at which [mask] has a bit set, in
    increasing order. *)
Definition set_bits (mask : Z) (from width : Z) : list Z :=
  List.filter (Z.testbit mask) (seqZ from width).

Definition render_spilled (is_float : bool) (i : Z) : list Item :=
  [Text (if is_float then "fr" else "r"); Num i].

(** Registers separated by commas. *)
Fixpoint render_spills (is_float : bool) (regs : list Z) : list Item :=
  match regs with
  | [] => []
  | i :: regs' =>
      match regs' with
      | [] => render_spilled is_float i
      | _ => render_spilled is_float i ++ [Text ", "] ++ render_spills is_float regs'
      end
  end.

Definition render_spill_mask (is_float : bool) (spill_mask : Z) : list Item :=
  if spill_mask =? 0 then []
  else [Text " ("] ++ render_spills is_float (set_bits spill_mask 0 32) ++ [Text ")"].

(** The registers that an entry of the gc map marks as live: bit
    [reg mod 8] of byte [reg / 8] of its bitmap. *)
Definition live_registers (width : Z) (reg_bitmap : list Z) : list Z :=
  List.filter (fun reg => Z.testbit (default 0 (reg_bitmap !! Z.to_nat (reg / 8)))
                                    (reg mod 8))
              (seqZ 0 (width * 8)).

Fixpoint render_live (first : bool) (regs : list Z) : list Item :=
  match regs with
  | [] => []
  | reg :: regs' =>
      [Text (if first then "  v" else ", v"); Num reg] ++ render_live false regs'
  end.

Definition render_gc_entry (code width : Z) (entry : Z * list Z) : list Item :=
  [Formatted "\t\t\t%p" [ArgPtr (wrap32 (code + fst entry))]]
    ++ render_live true (live_registers width (snd entry)) ++ [Text "\n"].

Definition sample_gc_map : NativePcOffsetToReferenceMap :=
  {| gc_map_address := 0xa60; RegWidth := 2;
     gc_map_entries := [(0x10, [5; 0]); (0x24, [0x80; 1])] |}.

(** ** Methods that the report can go through

    What the loops of [DumpMappingTable], [DumpVmap] and [DumpGcMap]
    rely on without testing it. *)

(** The [length] field counts whole pairs, all of them in the table. *)
Definition well_formed_mapping_table (m : OatMethod) : Prop :=
  forall t, GetMappingTable m = Some t -> GetCode m <> 0 ->
    exists len P raw,
      table_words t = len :: P :: raw /\
      Z.even len = true /\ 0 <= len <= Z.of_nat (length raw) /\ len < 2 ^ 32.

(** Every bitmap has its [RegWidth] bytes. *)
Definition well_formed_gc_map (m : OatMethod) : Prop :=
  forall map, GetNativeGcMap m = Some map ->
    0 <= RegWidth map /\ RegWidth map * 8 < 2 ^ 32 /\
    forall entry, entry ∈ gc_map_entries map ->
      RegWidth map <= Z.of_nat (length (snd entry)).

Definition well_formed_method (m : OatMethod) : Prop :=
  vmap_in_range m /\ ~ malformed_vmap m /\
  well_formed_mapping_table m /\ well_formed_gc_map m.

(** ** [Stats::Update] and the bytes of the objects

    [sizes_and_counts] is a [SafeMap] from class descriptors to the
    bytes and the number of the objects of the class. *)

Record SizeAndCount := {
  bytes : Z;
  count : Z
}.

Abbreviation SizeAndCountTable := (gmap string SizeAndCount).

Definition Update (descriptor : string) (object_bytes : Z)
    (sizes_and_counts : SizeAndCountTable) : SizeAndCountTable :=
  match sizes_and_counts !! descriptor with
  | Some it =>
      <[descriptor := {| bytes := wrap32 (bytes it + object_bytes);
                         count := wrap32 (count it + 1) |}]> sizes_and_counts
  | None =>
      <[descriptor := {| bytes := object_bytes; count := 1 |}]> sizes_and_counts
  end.

(** The fields of [Stats] that [Callback] keeps for the sizes of the
    objects, and what [Callback] reads of an object for them. *)
Record ObjectStats := {
  object_bytes : Z;
  sizes_and_counts : SizeAndCountTable
}.

Record HeapObject := {
  InDumpSpace : bool;
  SizeOf : Z;
  GetDescriptor : string
}.

(** [Stats()]. *)
Definition new_ObjectStats : ObjectStats :=
  {| object_bytes := 0; sizes_and_counts := ∅ |}.

(** What [Callback] does to these fields: [stats_.object_bytes +=
    object_bytes] and, at its end, [stats_.Update(descriptor,
    object_bytes)]. *)
Definition Callback_object_bytes (obj : HeapObject) (s : ObjectStats) : ObjectStats :=
  if negb (InDumpSpace obj) then s
  else
    let object_bytes_ := SizeOf obj in
    {| object_bytes := wrap32 (object_bytes s + object_bytes_);
       sizes_and_counts := Update (GetDescriptor obj) object_bytes_ (sizes_and_counts s) |}.

(** The walk over the live objects. *)
Definition Walk (objs : list HeapObject) (s : ObjectStats) : ObjectStats :=
  foldl (fun s obj => Callback_object_bytes obj s) s objs.

(** The loop of [Stats::Dump] that adds up the table, and the check
    that follows it.  The sum of a table does not depend on the order in
    which its entries are visited. *)
Definition object_bytes_total (sizes_and_counts : SizeAndCountTable) : Z :=
  map_fold (fun _ it object_bytes_total => wrap32 (object_bytes_total + bytes it))
           0 sizes_and_counts.

Definition Dump_object_bytes_check (s : ObjectStats) : Outcome unit :=
  if object_bytes s =? object_bytes_total (sizes_and_counts s) then Returns tt
  else CheckFailure "object_bytes == object_bytes_total".

(** The objects of a class that the walk accounts for. *)
Definition objects_of (descriptor : string) (objs : list HeapObject) : list HeapObject :=
  List.filter (fun obj => InDumpSpace obj && String.eqb (GetDescriptor obj) descriptor)
              objs.

Definition sample_objects : list HeapObject :=
  [ {| InDumpSpace := true; SizeOf := 16; GetDescriptor := "Ljava/lang/String;" |};
    {| InDumpSpace := true; SizeOf := 24; GetDescriptor := "[I" |};
    {| InDumpSpace := false; SizeOf := 40; GetDescriptor := "[I" |};
    {| InDumpSpace := true; SizeOf := 32; GetDescriptor := "Ljava/lang/String;" |} ].

(** ** [Callback]: the elements of an object array, in runs

    [summary] is a [std::string] that [StringAppendF] and
    [PrettyObjectValue] append to; it is modelled as the list of what was
    appended. *)

Inductive SummaryItem :=
| Appended (fmt : string) (args : list Arg)   (* StringAppendF(&summary, fmt, args...) *)
| ObjectValue (value : Z).                    (* PrettyObjectValue(summary, value_class, value) *)

(** [for (int32_t j = i + 1; j < length; j++)]: [rest] holds the
    elements from [i + 1] on; [run] is a [size_t]. *)
Fixpoint Callback_run (value : Z) (rest : list Z) (run : Z) : Z :=
  match rest with
  | [] => run
  | x :: rest' =>
      if value =? x then Callback_run value rest' (wrap32 (run + 1))
      else run                                     (* break *)
  end.

(** [for (int32_t i = 0; i < length; i++)], from [i] on.  The sum
    [i + run] is a [size_t]; it is the index of an element, so that
    storing it in [i] and the [i++] that follows stay within
    [int32_t]. *)
Fixpoint Callback_elements (fuel : nat) (obj_array : list Z) (i : Z)
    (summary : list SummaryItem) : Outcome (list SummaryItem) :=
  match fuel with
  | O => OutOfFuel
  | S fuel' =>
      if i <? Z.of_nat (length obj_array) then
        match obj_array !! Z.to_nat i with
        | None => UndefinedBehaviour "obj_array"
        | Some value =>
            let run := Callback_run value (drop (Z.to_nat (i + 1)) obj_array) 0 in
            let '(summary, i) :=
              if run =? 0 then
                (summary ++ [Appended "\t%d: " [ArgInt i]], i)
              else
                (summary ++ [Appended "\t%d to %zd: " [ArgInt i; ArgInt (wrap32 (i + run))]],
                 wrap32 (i + run)) in
            Callback_elements fuel' obj_array (i + 1) (summary ++ [ObjectValue value])
        end
      else Returns summary
  end.

(** Every pass moves on by one element at least. *)
Definition Callback_object_array (obj_array : list Z) (summary : list SummaryItem)
  : Outcome (list SummaryItem) :=
  Callback_elements (S (length obj_array)) obj_array 0 summary.

(** Reading the summary back: a single index stands for one element, a
    range of indices for as many copies of the value as it has indices;
    the indices have to follow one another from [i] on. *)
Fixpoint expand_summary (i : Z) (summary : list SummaryItem) : option (list Z) :=
  match summary with
  | [] => Some []
  | Appended _ [ArgInt first] :: ObjectValue value :: summary' =>
      if first =? i then
        cons value <$> expand_summary (i + 1) summary'
      else None
  | Appended _ [ArgInt first; ArgInt last] :: ObjectValue value :: summary' =>
      if (first =? i) && (first <? last) then
        app (replicate (Z.to_nat (last - first + 1)) value)
          <$> expand_summary (last + 1) summary'
      else None
  | _ => None
  end.

(** The values that a summary lists, one for each run. *)
Definition summary_values (summary : list SummaryItem) : list Z :=
  omap (fun item => match item with ObjectValue value => Some value | _ => None end)
       summary.

Fixpoint no_repeat (values : list Z) : Prop :=
  match values with
  | x :: (y :: _) as values' => x <> y /\ no_repeat values'
  | _ => True
  end.

(** ** [oatdump]: the command line

    What the function asks of its environment is given to it:
    [good filename] tells whether the output file could be opened,
    [android_product_out] is [getenv("ANDROID_PRODUCT_OUT")],
    [OatFile_Open] is [OatFile::Open] and [Runtime_Create] is
    [Runtime::Create] with what the created runtime holds. *)

(** [option.starts_with(prefix)] and
    [option.substr(strlen(prefix)).data()]. *)
Definition starts_with (prefix option : string) : bool := String.prefix prefix option.

Definition substr (prefix option : string) : string :=
  String.substring (String.length prefix)
                   (String.length option - String.length prefix) option.

(** The local variables that the loop over [argv] sets; [out] is the
    name of the file that [os] writes to, [None] for [std::cout]. *)
Record Options := {
  oat_filename : option string;
  image_filename : option string;
  boot_image_filename : option string;
  host_prefix : option string;
  out : option string
}.

Definition no_Options : Options :=
  {| oat_filename := None; image_filename := None; boot_image_filename := None;
     host_prefix := None; out := None |}.

(** [fprintf(stderr, fmt, args...)]. *)
Definition Message : Type := string * list Arg.

(** What [Runtime::Create] leaves behind when it succeeds: the image
    space of the heap, if there is one, and whether its header is
    valid. *)
Inductive CreatedRuntime :=
| NoImageSpace
| ImageSpace (IsValid : bool).

(** How the function ends. *)
Inductive Action :=
| usage (message : Message)          (* the message, the usage text, exit(EXIT_FAILURE) *)
| EXIT_FAILURE (message : Message)   (* the message, return EXIT_FAILURE *)
| CHECK_failed (what : string)       (* the process is aborted *)
| DumpOatFile (oat_dumper : OatDumper) (out : option string)
                                     (* oat_dumper.Dump; return EXIT_SUCCESS *)
| DumpImage (options : list (string * option string))
            (image_filename : string) (host_prefix : string)
            (out : option string).   (* image_dumper.Dump; return EXIT_SUCCESS *)

(** [for (int i = 0; i < argc; i++)]. *)
Fixpoint parse_options (good : string -> bool) (argv : list string) (o : Options)
  : Options + Message :=
  match argv with
  | [] => inl o
  | option :: argv' =>
      if starts_with "--oat-file=" option then
        parse_options good argv'
          {| oat_filename := Some (substr "--oat-file=" option);
             image_filename := image_filename o;
             boot_image_filename := boot_image_filename o;
             host_prefix := host_prefix o; out := out o |}
      else if starts_with "--image=" option then
        parse_options good argv'
          {| oat_filename := oat_filename o;
             image_filename := Some (substr "--image=" option);
             boot_image_filename := boot_image_filename o;
             host_prefix := host_prefix o; out := out o |}
      else if starts_with "--boot-image=" option then
        parse_options good argv'
          {| oat_filename := oat_filename o;
             image_filename := image_filename o;
             boot_image_filename := Some (substr "--boot-image=" option);
             host_prefix := host_prefix o; out := out o |}
      else if starts_with "--host-prefix=" option then
        parse_options good argv'
          {| oat_filename := oat_filename o;
             image_filename := image_filename o;
             boot_image_filename := boot_image_filename o;
             host_prefix := Some (substr "--host-prefix=" option); out := out o |}
      else if starts_with "--output=" option then
        let filename := substr "--output=" option in
        if good filename then
          parse_options good argv'
            {| oat_filename := oat_filename o;
               image_filename := image_filename o;
               boot_image_filename := boot_image_filename o;
               host_prefix := host_prefix o; out := Some filename |}
        else inr ("Failed to open output filename %s\n", [ArgStr filename])
      else inr ("Unknown argument %s\n", [ArgStr option])
  end.

(** [argv] is the command line after [argv[0]]. *)
Definition oatdump (good : string -> bool) (android_product_out : option string)
    (OatFile_Open : string -> option OatFile)
    (Runtime_Create : list (string * option string) -> option CreatedRuntime)
    (argv : list string) : Action :=
  match argv with
  | [] => usage ("No arguments specified\n", [])
  | _ =>
      match parse_options good argv no_Options with
      | inr message => usage message
      | inl o =>
          match image_filename o, oat_filename o with
          | None, None =>
              EXIT_FAILURE ("Either --image or --oat must be specified\n", [])
          | Some _, Some _ =>
              EXIT_FAILURE ("Either --image or --oat must be specified but not both\n", [])
          | _, _ =>
              let host_prefix :=
                match host_prefix o with
                | Some host_prefix => host_prefix
                | None =>
                    match android_product_out with
                    | Some android_product_out => android_product_out
                    | None => EmptyString
                    end
                end in
              match oat_filename o with
              | Some oat_filename =>
                  match OatFile_Open oat_filename with
                  | None =>
                      EXIT_FAILURE ("Failed to open oat file from %s\n",
                                    [ArgStr oat_filename])
                  | Some oat_file =>
                      DumpOatFile (new_OatDumper host_prefix oat_file) (out o)
                  end
              | None =>
                  let options := [] in
                  let options :=
                    match boot_image_filename o with
                    | Some boot_image_filename =>
                        options ++ [("-Ximage:" +:+ boot_image_filename, None)]
                    | None => options
                    end in
                  let options :=
                    match image_filename o with
                    | Some image_filename =>
                        options ++ [("-Ximage:" +:+ image_filename, None)]
                    | None => options
                    end in
                  let options :=
                    if negb (String.eqb host_prefix EmptyString)
                    then options ++ [("host-prefix", Some host_prefix)]
                    else options in
                  (* [image_filename] is not NULL on this path *)
                  let image_filename := default EmptyString (image_filename o) in
                  match Runtime_Create options with
                  | None => EXIT_FAILURE ("Failed to create runtime\n", [])
                  | Some NoImageSpace => CHECK_failed "image_space != NULL"
                  | Some (ImageSpace IsValid) =>
                      if negb IsValid then
                        EXIT_FAILURE ("Invalid image header %s\n", [ArgStr image_filename])
                      else DumpImage options image_filename host_prefix (out o)
                  end
              end
          end
      end
  end.

(** *** The command line, read as a whole *)

(** The value of the last option that starts with [prefix]. *)
Definition last_value (prefix : string) (argv : list string) : option string :=
  last (substr prefix <$> List.filter (starts_with prefix) argv).

(** An option that the loop goes past. *)
Definition accepted (good : string -> bool) (option : string) : bool :=
  starts_with "--oat-file=" option || starts_with "--image=" option
  || starts_with "--boot-image=" option || starts_with "--host-prefix=" option
  || (starts_with "--output=" option && good (substr "--output=" option)).

(** The options that the loop has set when it has gone past every
    argument: for each kind the last one counts. *)
Definition set_Options (argv : list string) (o : Options) : Options :=
  {| oat_filename := from_option Some (oat_filename o) (last_value "--oat-file=" argv);
     image_filename := from_option Some (image_filename o) (last_value "--image=" argv);
     boot_image_filename :=
       from_option Some (boot_image_filename o) (last_value "--boot-image=" argv);
     host_prefix := from_option Some (host_prefix o) (last_value "--host-prefix=" argv);
     out := from_option Some (out o) (last_value "--output=" argv) |}.

Definition is_dump (a : Action) : bool :=
  match a with
  | DumpOatFile _ _ | DumpImage _ _ _ _ => true
  | _ => false
  end.

(** The host prefix and the options of the runtime that a command line
    gives. *)
Definition given_host_prefix (android_product_out : option string)
    (argv : list string) : string :=
  default (default EmptyString android_product_out) (last_value "--host-prefix=" argv).

Definition given_runtime_options (android_product_out : option string)
    (argv : list string) : list (string * option string) :=
  match last_value "--boot-image=" argv with
  | Some boot_image_filename => [("-Ximage:" +:+ boot_image_filename, None)]
  | None => []
  end
  ++ match last_value "--image=" argv with
     | Some image_filename => [("-Ximage:" +:+ image_filename, None)]
     | None => []
     end
  ++ (if negb (String.eqb (given_host_prefix android_product_out argv) EmptyString)
      then [("host-prefix", Some (given_host_prefix android_product_out argv))]
      else []).

(** An environment to run the model in: one oat file can be opened. *)
Definition sample_OatFile_Open (filename : string) : option OatFile :=
  if String.eqb filename "boot.oat" then Some sample_oat_file else None.

(** ** The samples that a sweep can still write *)

(** Number of samples that [live] holds of; for the sizes, the samples
    above the mean. *)
Definition live_count {T} (live : T -> bool) (values : list T) : Z :=
  Z.of_nat (length (List.filter live values)).

Definition above (size_mean : Z) (cur_size : Z) : bool := cur_size >? size_mean.

(** How the state after a pass or a sweep stands to the state before
    it: what was written has been counted and set to [zero], the other
    samples are as they were. *)
Definition zeroes_what_it_counts {T} (live : T -> bool) (zero : T)
    (st st' : SweepState (T := T)) : Prop :=
  length (samples st') = length (samples st) /\
  dumped_values st' + live_count live (samples st')
  = dumped_values st + live_count live (samples st) /\
  0 <= dumped_values st' <= 21 /\
  forall k x, samples st' !! k = Some x -> x = zero \/ samples st !! k = Some x.

(** ** The methods that a report lists *)

(** The line that [DumpOatMethod] starts a method with, read back:
    [class_method_index] and [dex_method_idx]. *)
Definition reported_method (item : Item) : option (Z * Z) :=
  match item with
  | Formatted fmt [ArgInt class_method_index; ArgPrettyMethod _; ArgInt dex_method_idx] =>
      if String.eqb fmt "\t%d: %s (dex_method_idx=%d)\n"
      then Some (class_method_index, dex_method_idx)
      else None
  | _ => None
  end.

Definition reported_methods (os : ostream) : list (Z * Z) := omap reported_method os.

(** A part of the report that starts no method. *)
Definition silent {A} (m : Dumping A) : Prop :=
  forall os, reported_methods (fst (m os)) = reported_methods os.

(** The methods of a class, a dex file and an oat file with their
    indices: the direct methods of a class are counted from 0, its
    virtual methods after them. *)
Definition class_listing (c : ClassDef) : list (Z * Z) :=
  imap (fun k cm => (wrap32 (Z.of_nat k), GetMemberIndex cm)) (class_methods c).

Definition dex_file_listing (odf : OatDexFile) : list (Z * Z) :=
  match OpenDexFile odf with
  | None => []
  | Some dex_file => class_defs dex_file ≫= class_listing
  end.

Definition oat_file_listing (f : OatFile) : list (Z * Z) :=
  GetOatDexFiles f ≫= dex_file_listing.

(** A part of the report that is written to its end and starts the
    methods [listing]. *)
Definition lists {A} (m : Dumping A) (listing : list (Z * Z)) : Prop :=
  forall os,
    returns (snd (m os)) /\
    reported_methods (fst (m os)) = reported_methods os ++ listing.

(** ** [Callback]: the code of a method in the ledger

    The part of [Callback] that files the sizes of what a method owns in
    the oat file.  The counters are the [size_t] fields of [Stats],
    named as there.  The [DCHECK]s are those of a debug build and are
    left out. *)

Module AbstractMethod.
Record t := {
  address : Z;                       (* the AbstractMethod* *)
  IsNative : bool;
  IsAbstract : bool;
  IsCalleeSaveMethod : bool;
  IsResolutionMethod : bool;
  IsConstructor : bool;
  IsStatic : bool;
  insns_size_in_code_units_ : Z;     (* of MethodHelper(method).GetCodeItem() *)
  GetNativeGcMap : Z;
  GetMappingTableRaw : Z;
  GetVmapTableRaw : Z;
  GetInvokeStub : Z;
  GetCode : Z
}.
End AbstractMethod.

(** What [GetOatCodeBegin] and [GetOatCodeSize] ask of the runtime and
    of the memory: the static resolution stub, the code that
    [OatDumper::GetOatCode] finds for a method, and the word stored
    before an address ([oat_code_begin[-1]]). *)
Record Runtime := {
  resolution_stub : Z;
  GetOatCode : AbstractMethod.t -> Z;
  word_before : Z -> Z
}.

Definition GetOatCodeBegin (runtime : Runtime) (d : OatDumper) (m : AbstractMethod.t) : Z :=
  let code := AbstractMethod.GetCode m in
  let code := if code =? resolution_stub runtime then GetOatCode runtime m else code in
  if decide (GetInstructionSet (GetOatHeader (oat_file_ d)) = kThumb2)
  then Z.land code 0xFFFFFFFE
  else code.

Definition GetOatCodeSize (runtime : Runtime) (d : OatDumper) (m : AbstractMethod.t) : Z :=
  let oat_code_begin := GetOatCodeBegin runtime d m in
  if oat_code_begin =? 0 then 0 else word_before runtime oat_code_begin.

Inductive Counter :=
| managed_code_bytes
| managed_code_bytes_ignoring_deduplication
| managed_to_native_code_bytes
| native_to_managed_code_bytes
| class_initializer_code_bytes
| large_initializer_code_bytes
| large_method_code_bytes
| gc_map_bytes
| pc_mapping_table_bytes
| vmap_table_bytes
| dex_instruction_bytes.

Global Instance Counter_eq_dec : EqDecision Counter.
Proof. solve_decision. Defined.

Record CodeStats := {
  counter : Counter -> Z;
  outliers : Stats
}.

(** [Stats()]. *)
Definition new_CodeStats : CodeStats :=
  {| counter := fun _ => 0;
     outliers := {| method_outlier := []; method_outlier_size := [];
                    method_outlier_expansion := [] |} |}.

Definition kLargeConstructorDexBytes : Z := 4000.
Definition kLargeMethodDexBytes : Z := 16000.

(** A step of [Callback] on the image dumper and its [stats_]. *)
Definition Accounting (A : Type) : Type :=
  ImageDumper * CodeStats -> Outcome (A * (ImageDumper * CodeStats)).

Definition Accounting_ret {A} (a : A) : Accounting A := fun st => Returns (a, st).

Definition Accounting_bind {A B} (k : A -> Accounting B) (m : Accounting A)
  : Accounting B :=
  fun st =>
    match m st with
    | Returns (a, st') => k a st'
    | CheckFailure what => CheckFailure what
    | UndefinedBehaviour what => UndefinedBehaviour what
    | OutOfFuel => OutOfFuel
    end.

Global Instance Accounting_mret : MRet Accounting := @Accounting_ret.
Global Instance Accounting_mbind : MBind Accounting := @Accounting_bind.

(** [state->stats_.c += n]. *)
Definition bump (c : Counter) (n : Z) (stats : CodeStats) : CodeStats :=
  {| counter := fun c' => if decide (c' = c)
                          then wrap32 (counter stats c' + n)
                          else counter stats c';
     outliers := outliers stats |}.

Definition add (c : Counter) (n : Z) : Accounting unit :=
  fun '(s, stats) => Returns (tt, (s, bump c n stats)).

(** [state->ComputeOatSize(oat_data, &first_occurrence)]. *)
Definition state_ComputeOatSize (oat_data : Z) : Accounting (Z * bool) :=
  fun '(s, stats) =>
    let '(s', first_occurrence, size) := ComputeOatSize s oat_data in
    match size with
    | Returns n => Returns ((n, first_occurrence), (s', stats))
    | CheckFailure what => CheckFailure what
    | UndefinedBehaviour what => UndefinedBehaviour what
    | OutOfFuel => OutOfFuel
    end.

Definition state_GetOatCodeBegin (runtime : Runtime) (m : AbstractMethod.t) : Accounting Z :=
  fun '(s, stats) => Returns (GetOatCodeBegin runtime (oat_dumper_ s) m, (s, stats)).

Definition state_GetOatCodeSize (runtime : Runtime) (m : AbstractMethod.t) : Accounting Z :=
  fun '(s, stats) => Returns (GetOatCodeSize runtime (oat_dumper_ s) m, (s, stats)).

Definition stats_ComputeOutliers (total_size : Z) (expansion : float) (method : Z)
  : Accounting unit :=
  fun '(s, stats) =>
    Returns (tt, (s, {| counter := counter stats;
                        outliers := ComputeOutliers total_size expansion method
                                                    (outliers stats) |})).

(** The branch [obj->IsMethod()] of [Callback]; [object_bytes] is the
    size of the method object. *)
Definition Callback_method (runtime : Runtime) (object_bytes : Z)
    (method : AbstractMethod.t) : Accounting unit :=
  if AbstractMethod.IsNative method then
    '(invoke_stub_size, first_occurrence) ←
      state_ComputeOatSize (AbstractMethod.GetInvokeStub method);
    (if first_occurrence : bool
     then add managed_to_native_code_bytes invoke_stub_size else mret tt);;
    oat_code ← state_GetOatCodeBegin runtime method;
    oat_code_size ← state_GetOatCodeSize runtime method;
    '(_, first_occurrence) ← state_ComputeOatSize oat_code;
    (if first_occurrence : bool
     then add native_to_managed_code_bytes oat_code_size else mret tt)
  else if AbstractMethod.IsAbstract method || AbstractMethod.IsCalleeSaveMethod method
          || AbstractMethod.IsResolutionMethod method then
    mret tt
  else
    let dex_instruction_bytes_ :=
      wrap32 (AbstractMethod.insns_size_in_code_units_ method * 2) in
    add dex_instruction_bytes dex_instruction_bytes_;;
    '(gc_map_bytes_, first_occurrence) ←
      state_ComputeOatSize (AbstractMethod.GetNativeGcMap method);
    (if first_occurrence : bool then add gc_map_bytes gc_map_bytes_ else mret tt);;
    '(pc_mapping_table_bytes_, first_occurrence) ←
      state_ComputeOatSize (AbstractMethod.GetMappingTableRaw method);
    (if first_occurrence : bool
     then add pc_mapping_table_bytes pc_mapping_table_bytes_ else mret tt);;
    '(vmap_table_bytes_, first_occurrence) ←
      state_ComputeOatSize (AbstractMethod.GetVmapTableRaw method);
    (if first_occurrence : bool then add vmap_table_bytes vmap_table_bytes_ else mret tt);;
    '(invoke_stub_size, first_occurrence) ←
      state_ComputeOatSize (AbstractMethod.GetInvokeStub method);
    (if first_occurrence : bool
     then add native_to_managed_code_bytes invoke_stub_size else mret tt);;
    oat_code_begin ← state_GetOatCodeBegin runtime method;
    oat_code_size ← state_GetOatCodeSize runtime method;
    '(_, first_occurrence) ← state_ComputeOatSize oat_code_begin;
    (if first_occurrence : bool then
       add managed_code_bytes oat_code_size;;
       if AbstractMethod.IsConstructor method then
         if AbstractMethod.IsStatic method then
           add class_initializer_code_bytes oat_code_size
         else if dex_instruction_bytes_ >? kLargeConstructorDexBytes then
           add large_initializer_code_bytes oat_code_size
         else mret tt
       else if dex_instruction_bytes_ >? kLargeMethodDexBytes then
         add large_method_code_bytes oat_code_size
       else mret tt
     else mret tt);;
    add managed_code_bytes_ignoring_deduplication oat_code_size;;
    let total_size :=
      wrap32 (dex_instruction_bytes_ + gc_map_bytes_ + pc_mapping_table_bytes_
              + vmap_table_bytes_ + invoke_stub_size + oat_code_size + object_bytes) in
    let expansion :=
      (double_of_size oat_code_size / double_of_size dex_instruction_bytes_)%float in
    stats_ComputeOutliers total_size expansion (AbstractMethod.address method).

(** The callbacks for the method objects of a walk, each with the size
    of its object. *)
Fixpoint Callback_methods (runtime : Runtime) (methods : list (Z * AbstractMethod.t))
  : Accounting unit :=
  match methods with
  | [] => mret tt
  | (object_bytes, method) :: methods' =>
      Callback_method runtime object_bytes method;;
      Callback_methods runtime methods'
  end.

(** The methods that have code of their own in the ledger. *)
Definition has_managed_code (method : AbstractMethod.t) : bool :=
  negb (AbstractMethod.IsNative method)
  && negb (AbstractMethod.IsAbstract method || AbstractMethod.IsCalleeSaveMethod method
           || AbstractMethod.IsResolutionMethod method).

Definition managed_methods (methods : list (Z * AbstractMethod.t)) : list AbstractMethod.t :=
  List.filter has_managed_code (snd <$> methods).

Definition sample_runtime : Runtime :=
  {| resolution_stub := 0x500; GetOatCode := fun _ => 0; word_before := fun _ => 64 |}.

Definition sample_abstract_method (address code : Z) (native : bool) : AbstractMethod.t :=
  {| AbstractMethod.address := address;
     AbstractMethod.IsNative := native;
     AbstractMethod.IsAbstract := false;
     AbstractMethod.IsCalleeSaveMethod := false;
     AbstractMethod.IsResolutionMethod := false;
     AbstractMethod.IsConstructor := false;
     AbstractMethod.IsStatic := false;
     AbstractMethod.insns_size_in_code_units_ := 20;
     AbstractMethod.GetNativeGcMap := 0xa60;
     AbstractMethod.GetMappingTableRaw := 0xa00;
     AbstractMethod.GetVmapTableRaw := 0xa40;
     AbstractMethod.GetInvokeStub := 0x2100;
     AbstractMethod.GetCode := code |}.

(** Two methods that share their code, and a native method. *)
Definition sample_methods : list (Z * AbstractMethod.t) :=
  [ (48, sample_abstract_method 0x7000 0x1101 false);
    (48, sample_abstract_method 0x7030 0x1101 false);
    (48, sample_abstract_method 0x7060 0x3101 true) ].

(** The counters that the code of the methods is filed under. *)
Definition code_counter (c : Counter) : bool :=
  match c with
  | managed_code_bytes | managed_code_bytes_ignoring_deduplication
  | class_initializer_code_bytes | large_initializer_code_bytes
  | large_method_code_bytes => true
  | _ => false
  end.

(** Two states of [stats_] with the same code counters and outlier
    samples. *)
Definition same_ledger (stats stats' : CodeStats) : Prop :=
  outliers stats' = outliers stats /\
  forall c, code_counter c = true -> counter stats' c = counter stats c.

(** What the callback for one method does to the code counters:
    nothing for a method without code of its own; else [size] is added
    to the count that ignores deduplication, and, the first time the
    code is met, to [managed_code_bytes] and to one of the three classes
    of code at most. *)
Definition files_code (method : AbstractMethod.t) (size : Z) (stats stats' : CodeStats)
  : Prop :=
  let old := counter stats in
  let new := counter stats' in
  if has_managed_code method then
    new managed_code_bytes_ignoring_deduplication
    = wrap32 (old managed_code_bytes_ignoring_deduplication + size) /\
    ((new managed_code_bytes = old managed_code_bytes /\
      new class_initializer_code_bytes = old class_initializer_code_bytes /\
      new large_initializer_code_bytes = old large_initializer_code_bytes /\
      new large_method_code_bytes = old large_method_code_bytes) \/
     (new managed_code_bytes = wrap32 (old managed_code_bytes + size) /\
      ((new class_initializer_code_bytes = wrap32 (old class_initializer_code_bytes + size) /\
        new large_initializer_code_bytes = old large_initializer_code_bytes /\
        new large_method_code_bytes = old large_method_code_bytes) \/
       (new class_initializer_code_bytes = old class_initializer_code_bytes /\
        new large_initializer_code_bytes = wrap32 (old large_initializer_code_bytes + size) /\
        new large_method_code_bytes = old large_method_code_bytes) \/
       (new class_initializer_code_bytes = old class_initializer_code_bytes /\
        new large_initializer_code_bytes = old large_initializer_code_bytes /\
        new large_method_code_bytes = wrap32 (old large_method_code_bytes + size)) \/
       (new class_initializer_code_bytes = old class_initializer_code_bytes /\
        new large_initializer_code_bytes = old large_initializer_code_bytes /\
        new large_method_code_bytes = old large_method_code_bytes))))
  else
    forall c, code_counter c = true -> new c = old c.

(** The samples that the callback for one method adds. *)
Definition files_sample (method : AbstractMethod.t) (stats stats' : CodeStats) : Prop :=
  let added := if has_managed_code method then 1%nat else 0%nat in
  method_outlier (outliers stats')
  = method_outlier (outliers stats)
    ++ (if has_managed_code method then [AbstractMethod.address method] else []) /\
  length (method_outlier_size (outliers stats'))
  = (length (method_outlier_size (outliers stats)) + added)%nat /\
  length (method_outlier_expansion (outliers stats'))
  = (length (method_outlier_expansion (outliers stats)) + added)%nat.

(** The code counters are in order: no class of code holds more than
    was filed, and deduplication does not add code. *)
Definition ledger_ok (stats : CodeStats) : Prop :=
  0 <= counter stats class_initializer_code_bytes /\
  0 <= counter stats large_initializer_code_bytes /\
  0 <= counter stats large_method_code_bytes /\
  counter stats class_initializer_code_bytes
  + counter stats large_initializer_code_bytes
  + counter stats large_method_code_bytes <= counter stats managed_code_bytes /\
  counter stats managed_code_bytes
  <= counter stats managed_code_bytes_ignoring_deduplication.

(** ** The units of a report

    A unit is a method with the index that it has in its class: the
    direct methods of the class are counted from 0, its virtual methods
    after them. *)

Definition class_units (c : ClassDef) : list (Z * ClassMethod) :=
  imap (fun k cm => (wrap32 (Z.of_nat k), cm)) (class_methods c).

Definition dex_file_units (odf : OatDexFile) : list (Z * ClassMethod) :=
  match OpenDexFile odf with
  | None => []
  | Some dex_file => class_defs dex_file ≫= class_units
  end.

Definition oat_file_units (f : OatFile) : list (Z * ClassMethod) :=
  GetOatDexFiles f ≫= dex_file_units.

(** The lines that start the units, as [reported_methods] reads them. *)
Definition unit_listing (units : list (Z * ClassMethod)) : list (Z * Z) :=
  (fun u => (fst u, GetMemberIndex (snd u))) <$> units.

(** A method that [DumpOatMethod] takes as far as its vmap table, where
    the scan runs out of set bits. *)
Definition fails_at_vmap (m : OatMethod) : Prop :=
  vmap_in_range m /\ malformed_vmap m /\ well_formed_mapping_table m.

(** A part of the report that goes through [units] in order: it writes
    them all when they are all well formed, and it ends at the first
    one that fails at its vmap table when those before it are well
    formed. *)
Definition runs (m : Dumping unit) (units : list (Z * ClassMethod)) : Prop :=
  forall os,
    (Forall (fun u => well_formed_method (oat_method (snd u))) units ->
     returns (snd (m os)) /\
     reported_methods (fst (m os)) = reported_methods os ++ unit_listing units) /\
    (forall before u after,
       units = before ++ u :: after ->
       Forall (fun u => well_formed_method (oat_method (snd u))) before ->
       fails_at_vmap (oat_method (snd u)) ->
       snd (m os) = CheckFailure "!processing_fp" /\
       reported_methods (fst (m os))
       = reported_methods os ++ unit_listing (before ++ [u])).
(** * Properties *)

(** ** Machine integers *)

Lemma wrap32_range z : is_uint32 (wrap32 z).
Proof. unfold is_uint32, wrap32. apply Z.mod_pos_bound. lia. Qed.

Lemma wrap32_small z : is_uint32 z -> wrap32 z = z.
Proof. unfold is_uint32, wrap32. intros H. apply Z.mod_small. lia. Qed.

(** ** The ordered set *)

Lemma StdSet_elem_of_insert x y s : y ∈ StdSet.insert x s <-> y = x \/ y ∈ s.
Proof.
  induction s as [|z s IH]; simpl.
  - rewrite list_elem_of_singleton. split; [auto|].
    intros [?|Hn]; [done|]. by apply elem_of_nil in Hn.
  - destruct (Z.ltb_spec x z) as [Hlt|Hge].
    + rewrite !elem_of_cons. tauto.
    + destruct (Z.eqb_spec x z) as [->|Hne].
      * rewrite !elem_of_cons. tauto.
      * rewrite !elem_of_cons, IH. tauto.
Qed.

Lemma StdSet_insert_ordered x s : StdSet.ordered s -> StdSet.ordered (StdSet.insert x s).
Proof.
  unfold StdSet.ordered. induction s as [|z s IH]; simpl; intros Hs.
  - repeat constructor.
  - inversion Hs as [|? ? Hs' Hall]; subst.
    destruct (Z.ltb_spec x z).
    + constructor; [done|]. constructor; [done|].
      eapply Forall_impl; [exact Hall|]. simpl. intros; lia.
    + destruct (Z.eqb_spec x z); [done|].
      constructor; [auto|].
      apply Forall_forall. intros w Hw.
      apply StdSet_elem_of_insert in Hw as [->|Hw]; [lia|].
      rewrite Forall_forall in Hall. auto.
Qed.

Lemma StdSet_insert_idempotent x s : StdSet.ordered s -> StdSet.insert x (StdSet.insert x s) = StdSet.insert x s.
Proof.
  unfold StdSet.ordered. induction s as [|z s IH]; simpl; intros Hs.
  - rewrite Z.ltb_irrefl, Z.eqb_refl. done.
  - inversion Hs; subst.
    destruct (Z.ltb_spec x z) as [Hlt|Hge]; simpl.
    + rewrite Z.ltb_irrefl, Z.eqb_refl. done.
    + destruct (Z.eqb_spec x z) as [->|Hne]; simpl.
      * rewrite Z.ltb_irrefl, Z.eqb_refl. done.
      * destruct (Z.ltb_spec x z); [lia|].
        destruct (Z.eqb_spec x z); [lia|]. f_equal. auto.
Qed.

Lemma StdSet_upper_bound_Some x s y :
  StdSet.ordered s ->
  StdSet.upper_bound x s = Some y <->
  y ∈ s /\ x < y /\ (forall z, z ∈ s -> x < z -> y <= z).
Proof.
  unfold StdSet.ordered. induction s as [|w s IH]; simpl; intros Hs.
  - split; [done|]. intros [H _]. by apply elem_of_nil in H.
  - inversion Hs as [|? ? Hs' Hall]; subst.
    rewrite Forall_forall in Hall.
    destruct (Z.ltb_spec x w) as [Hlt|Hge].
    + split.
      * intros [= <-]. split; [left|]. split; [done|].
        intros z Hz _. apply elem_of_cons in Hz as [->|Hz]; [lia|].
        specialize (Hall z Hz). lia.
      * intros (Hy & Hxy & Hmin). f_equal.
        specialize (Hmin w (list_elem_of_here _ _) Hlt).
        apply elem_of_cons in Hy as [->|Hy]; [done|].
        specialize (Hall y Hy). lia.
    + rewrite IH by done. split.
      * intros (Hy & Hxy & Hmin). split; [by right|]. split; [done|].
        intros z Hz Hxz. apply elem_of_cons in Hz as [->|Hz]; [lia|auto].
      * intros (Hy & Hxy & Hmin).
        apply elem_of_cons in Hy as [->|Hy]; [lia|].
        split; [done|]. split; [done|].
        intros z Hz. apply Hmin. by right.
Qed.

Lemma StdSet_upper_bound_None x s :
  StdSet.upper_bound x s = None <-> (forall z, z ∈ s -> z <= x).
Proof.
  induction s as [|w s IH]; simpl.
  - split; [|done]. intros _ z Hz. by apply elem_of_nil in Hz.
  - destruct (Z.ltb_spec x w) as [Hlt|Hge].
    + split; [done|]. intros H. specialize (H w (list_elem_of_here _ _)). lia.
    + rewrite IH. split.
      * intros H z Hz. apply elem_of_cons in Hz as [->|Hz]; auto.
      * intros H z Hz. apply H. by right.
Qed.

Lemma StdSet_upper_bound_greater x s y : StdSet.upper_bound x s = Some y -> x < y /\ y ∈ s.
Proof.
  induction s as [|w s IH]; simpl; [done|].
  destruct (Z.ltb_spec x w) as [Hlt|Hge].
  - intros [= <-]. split; [done|left].
  - intros H. destruct (IH H). split; [done|by right].
Qed.

Lemma StdSet_upper_bound_adjacent s1 o1 o2 s2 :
  StdSet.ordered (s1 ++ o1 :: o2 :: s2) ->
  StdSet.upper_bound o1 (s1 ++ o1 :: o2 :: s2) = Some o2.
Proof.
  unfold StdSet.ordered. induction s1 as [|w s1 IH]; simpl; intros Hs.
  - inversion Hs as [|? ? _ Hall]; subst.
    inversion Hall; subst.
    rewrite Z.ltb_irrefl.
    destruct (Z.ltb_spec o1 o2); [done|lia].
  - inversion Hs as [|? ? Hs' Hall]; subst.
    rewrite Forall_forall in Hall.
    assert (w < o1) by (apply Hall; set_solver).
    destruct (Z.ltb_spec o1 w); [lia|auto].
Qed.


(** ** The registry *)

Lemma offsets_insert_ok x d : registry_ok d -> registry_ok (offsets_insert x d).
Proof.
  intros [Ho Hr]. split; simpl.
  - by apply StdSet_insert_ordered.
  - apply Forall_forall. intros y Hy.
    apply StdSet_elem_of_insert in Hy as [->|Hy].
    + apply wrap32_range.
    + rewrite Forall_forall in Hr. auto.
Qed.

Lemma offsets_insert_file x d : oat_file_ (offsets_insert x d) = oat_file_ d.
Proof. done. Qed.

Lemma offsets_insert_mono x d y :
  y ∈ offsets_ d -> y ∈ offsets_ (offsets_insert x d).
Proof. intros Hy. simpl. apply StdSet_elem_of_insert. by right. Qed.

(** An invariant of the registry that every insertion keeps is kept by
    the loops that only insert. *)
Section RegistryInvariant.
Variable P : OatDumper -> Prop.
Hypothesis P_insert : forall x d, P d -> P (offsets_insert x d).

Lemma AddOffsets_inv m d : P d -> P (AddOffsets m d).
Proof. intros H. unfold AddOffsets. auto 10. Qed.

Lemma foldl_inv {A} (f : A -> OatDumper -> OatDumper) (l : list A) :
  (forall a d, P d -> P (f a d)) ->
  forall d, P d -> P (foldl (fun d a => f a d) d l).
Proof. intros Hf. induction l as [|a l IH]; simpl; auto. Qed.

Lemma AddClassOffsets_inv c d : P d -> P (AddClassOffsets c d).
Proof.
  intros H. unfold AddClassOffsets. destruct (GetClassData c); [|done].
  apply (foldl_inv (fun m => AddOffsets (oat_method m))).
  { intros. by apply AddOffsets_inv. }
  apply (foldl_inv (fun m => AddOffsets (oat_method m))); [|done].
  intros. by apply AddOffsets_inv.
Qed.

Lemma AddDexFileOffsets_inv odf d : P d -> P (AddDexFileOffsets odf d).
Proof.
  intros H. unfold AddDexFileOffsets. destruct (OpenDexFile odf); [|done].
  apply (foldl_inv AddClassOffsets); [|auto].
  intros. by apply AddClassOffsets_inv.
Qed.

Lemma AddAllOffsets_inv d : P d -> P (AddAllOffsets d).
Proof.
  intros H. unfold AddAllOffsets. apply P_insert.
  apply (foldl_inv AddDexFileOffsets); [|done].
  intros. by apply AddDexFileOffsets_inv.
Qed.
End RegistryInvariant.

Lemma new_OatDumper_ok hp f : registry_ok (new_OatDumper hp f).
Proof.
  unfold new_OatDumper. apply (AddAllOffsets_inv registry_ok).
  - intros. by apply offsets_insert_ok.
  - split; simpl; constructor.
Qed.

Lemma new_OatDumper_file hp f : oat_file_ (new_OatDumper hp f) = f.
Proof.
  unfold new_OatDumper.
  apply (AddAllOffsets_inv (fun d => oat_file_ d = f)); [|done].
  intros x d H. by rewrite offsets_insert_file.
Qed.

(** The end of the file is registered (the closing sentinel). *)
Lemma new_OatDumper_sentinel hp f :
  wrap32 (End_ f - Begin f) ∈ offsets_ (new_OatDumper hp f).
Proof.
  unfold new_OatDumper, AddAllOffsets.
  set (d0 := {| host_prefix_ := hp; oat_file_ := f; offsets_ := [] |}).
  change (GetOatDexFiles (oat_file_ d0)) with (GetOatDexFiles f).
  unfold offsets_insert at 1. cbn [offsets_ set_offsets].
  apply StdSet_elem_of_insert. left.
  assert (H : oat_file_ (foldl (fun d odf => AddDexFileOffsets odf d) d0
                               (GetOatDexFiles f)) = f).
  { apply (foldl_inv (fun d => oat_file_ d = f)); [|done].
    intros a d H. apply (AddDexFileOffsets_inv (fun d => oat_file_ d = f)); [|done].
      intros x d' H'. by rewrite offsets_insert_file. }
  by rewrite H.
Qed.

Example sample_dumper_offsets :
  offsets_ sample_dumper = [0x140; 0x900; 0x940; 0x960; 0x1000; 0x2000; 0xff00].
Proof. reflexivity. Qed.

Lemma sample_oat_file_mapped : mapped sample_oat_file.
Proof. unfold mapped. simpl. lia. Qed.

(** ** Boundary inference: [ComputeSize] *)

(** [ComputeSize] never changes the object it is called on. *)
Lemma ComputeSize_object d a : fst (ComputeSize d a) = d.
Proof.
  unfold ComputeSize.
  destruct (_ || _); [done|]. by destruct (StdSet.upper_bound _ _).
Qed.

Lemma ComputeSize_inside d a :
  Begin (oat_file_ d) <= a <= End_ (oat_file_ d) ->
  ComputeSize d a =
    let begin_offset := wrap32 (a - Begin (oat_file_ d)) in
    match StdSet.upper_bound begin_offset (offsets_ d) with
    | None => (d, CheckFailure "it != offsets_.end()")
    | Some end_offset => (d, Returns (wrap32 (end_offset - begin_offset)))
    end.
Proof.
  intros Ha. unfold ComputeSize.
  destruct (Z.ltb_spec a (Begin (oat_file_ d))); [lia|].
  destruct (Z.gtb_spec a (End_ (oat_file_ d))); [lia|]. done.
Qed.

(** Inside the file, with the successor [o] of the offset in the
    registry, the size is the distance to [o]. *)
Lemma ComputeSize_successor d start o :
  registry_ok d -> mapped (oat_file_ d) ->
  0 <= start <= End_ (oat_file_ d) - Begin (oat_file_ d) ->
  StdSet.upper_bound start (offsets_ d) = Some o ->
  ComputeSize d (Begin (oat_file_ d) + start) = (d, Returns (o - start)).
Proof.
  intros [Hord Hrng] (HB & HBE & HE) Hs Hub.
  rewrite ComputeSize_inside by lia. cbv zeta.
  replace (Begin (oat_file_ d) + start - Begin (oat_file_ d)) with start by lia.
  rewrite (wrap32_small start) by (unfold is_uint32; lia).
  rewrite Hub.
  destruct (StdSet_upper_bound_greater _ _ _ Hub) as [Hlt Hin].
  rewrite Forall_forall in Hrng. specialize (Hrng o Hin).
  rewrite wrap32_small; [done|]. unfold is_uint32 in *. lia.
Qed.

(** C1. In a registry filled by the constructor (all region starts, then
    the end of the file), the size that [ComputeSize] returns for a
    start offset inside the file is the distance to the least registered
    offset that is strictly greater; in particular, for two offsets
    [o1 < o2] that are neighbours in the registry the size at [o1] is
    [o2 - o1]. *)
Theorem ComputeSize_distance_to_next_offset hp f :
  mapped f ->
  let d := new_OatDumper hp f in
  (forall start o,
      0 <= start <= End_ f - Begin f ->
      o ∈ offsets_ d -> start < o ->
      (forall o', o' ∈ offsets_ d -> start < o' -> o <= o') ->
      ComputeSize d (Begin f + start) = (d, Returns (o - start)))
  /\
  (forall s1 o1 o2 s2,
      offsets_ d = s1 ++ o1 :: o2 :: s2 ->
      o1 <= End_ f - Begin f ->
      o1 < o2 /\ ComputeSize d (Begin f + o1) = (d, Returns (o2 - o1))).
Proof.
  intros Hmap d.
  assert (Hok : registry_ok d) by apply new_OatDumper_ok.
  assert (Hf : oat_file_ d = f) by apply new_OatDumper_file.
  split.
  - intros start o Hs Hin Hlt Hmin.
    rewrite <- Hf at 1. apply ComputeSize_successor; rewrite ?Hf; try done.
    apply StdSet_upper_bound_Some; [apply Hok|done].
  - intros s1 o1 o2 s2 Heq Ho1.
    destruct Hok as [Hord Hrng].
    assert (Hub : StdSet.upper_bound o1 (offsets_ d) = Some o2).
    { rewrite Heq. apply StdSet_upper_bound_adjacent. by rewrite <- Heq. }
    split; [by apply StdSet_upper_bound_greater in Hub as [? _]|].
    rewrite <- Hf at 1. apply ComputeSize_successor; rewrite ?Hf; try done.
    rewrite Forall_forall in Hrng.
    assert (is_uint32 o1) by (apply Hrng; rewrite Heq; set_solver).
    unfold is_uint32 in *. lia.
Qed.

Lemma ComputeSize_distance_to_next_offset_witness :
  mapped sample_oat_file /\
  ComputeSize sample_dumper (0x100 + 0x940) = (sample_dumper, Returns 0x20) /\
  ComputeSize sample_dumper (0x100 + 0x2000) = (sample_dumper, Returns 0xdf00).
Proof.
  split; [exact sample_oat_file_mapped|].
  destruct (ComputeSize_distance_to_next_offset EmptyString sample_oat_file
              sample_oat_file_mapped) as [_ Hadj].
  split.
  - refine (proj2 (Hadj [0x140; 0x900] 0x940 0x960 [0x1000; 0x2000; 0xff00] _ _)).
    + reflexivity.
    + simpl. lia.
  - refine (proj2 (Hadj [0x140; 0x900; 0x940; 0x960; 0x1000] 0x2000 0xff00 [] _ _)).
    + reflexivity.
    + simpl. lia.
Defined.

(** C2, as stated, fails at the end of the file: the address [End()]
    passes the range test, its offset is the sentinel itself, and no
    registered offset is strictly greater. *)
Lemma ComputeSize_at_End_aborts :
  mapped sample_oat_file /\
  Begin sample_oat_file <= End_ sample_oat_file <= End_ sample_oat_file /\
  wrap32 (End_ sample_oat_file - Begin sample_oat_file) ∈ offsets_ sample_dumper /\
  ComputeSize sample_dumper (End_ sample_oat_file) =
    (sample_dumper, CheckFailure "it != offsets_.end()") /\
  ~ returns (snd (ComputeSize sample_dumper (End_ sample_oat_file))).
Proof.
  split; [exact sample_oat_file_mapped|].
  split; [simpl; lia|].
  split; [apply (new_OatDumper_sentinel EmptyString sample_oat_file)|].
  split; [reflexivity|].
  intros [n Hn]. discriminate Hn.
Qed.

(** C2, amended. With the end of the file registered, [ComputeSize]
    returns a positive size for every address in [[Begin, End)]; and
    for an address in [[Begin, End]] whose offset has no strictly
    greater registered offset it fails its CHECK: no size is returned. *)
Theorem ComputeSize_inside_file hp f a :
  mapped f ->
  Begin f <= a <= End_ f ->
  let d := new_OatDumper hp f in
  (a < End_ f -> exists n, 0 < n /\ ComputeSize d a = (d, Returns n)) /\
  ((forall o, o ∈ offsets_ d -> o <= a - Begin f) ->
   exists what, ComputeSize d a = (d, CheckFailure what)).
Proof.
  intros (HB & HBE & HE) Ha d.
  assert (Hok : registry_ok d) by apply new_OatDumper_ok.
  assert (Hf : oat_file_ d = f) by apply new_OatDumper_file.
  split.
  - intros Hlt.
    destruct (StdSet.upper_bound (a - Begin f) (offsets_ d)) as [o|] eqn:Hub.
    + exists (o - (a - Begin f)).
      apply StdSet_upper_bound_greater in Hub as Hgt. split; [lia|].
      replace a with (Begin (oat_file_ d) + (a - Begin f)) at 1 by (rewrite Hf; lia).
      apply ComputeSize_successor; rewrite ?Hf; try done. lia.
    + exfalso. rewrite StdSet_upper_bound_None in Hub.
      specialize (Hub _ (new_OatDumper_sentinel hp f)).
      rewrite wrap32_small in Hub by (unfold is_uint32; lia). lia.
  - intros Hmax. eexists.
    rewrite ComputeSize_inside by (rewrite Hf; lia). cbv zeta.
    rewrite Hf, wrap32_small by (unfold is_uint32; lia).
    apply StdSet_upper_bound_None in Hmax. by rewrite Hmax.
Qed.

Lemma ComputeSize_inside_file_witness :
  exists n, 0 < n /\ ComputeSize sample_dumper 0x1101 = (sample_dumper, Returns n).
Proof.
  refine (proj1 (ComputeSize_inside_file EmptyString sample_oat_file 0x1101
                   sample_oat_file_mapped _) _); simpl; lia.
Defined.

Lemma ComputeSize_outside d a :
  a < Begin (oat_file_ d) \/ End_ (oat_file_ d) < a ->
  ComputeSize d a = (d, Returns 0).
Proof.
  intros Ha. unfold ComputeSize.
  destruct (Z.ltb_spec a (Begin (oat_file_ d))); [done|].
  destruct (Z.gtb_spec a (End_ (oat_file_ d))); [done|lia].
Qed.

(** The CHECK can only fail for an address in [[Begin, End]]. *)
Lemma ComputeSize_abort_inside d a what :
  snd (ComputeSize d a) = CheckFailure what ->
  Begin (oat_file_ d) <= a <= End_ (oat_file_ d).
Proof.
  intros H.
  destruct (decide (a < Begin (oat_file_ d) \/ End_ (oat_file_ d) < a)) as [Hout|Hin].
  - by rewrite (ComputeSize_outside d a Hout) in H.
  - lia.
Qed.

(** C10. For an address below [Begin()] or above [End()], [ComputeSize]
    returns 0, leaves the dumper (and so the registry) as it was, and
    does not reach the CHECK: a call that fails the CHECK was made with
    an address in [[Begin, End]]. *)
Theorem ComputeSize_outside_file d a :
  a < Begin (oat_file_ d) \/ End_ (oat_file_ d) < a ->
  ComputeSize d a = (d, Returns 0) /\
  offsets_ (fst (ComputeSize d a)) = offsets_ d /\
  (forall a' what,
      snd (ComputeSize d a') = CheckFailure what ->
      Begin (oat_file_ d) <= a' <= End_ (oat_file_ d)).
Proof.
  intros Ha. rewrite (ComputeSize_outside d a Ha).
  split; [done|]. split; [done|]. apply ComputeSize_abort_inside.
Qed.

Lemma ComputeSize_outside_file_witness :
  ComputeSize sample_dumper 0x10001 = (sample_dumper, Returns 0) /\
  ComputeSize sample_dumper 0xff = (sample_dumper, Returns 0).
Proof.
  split.
  - refine (proj1 (ComputeSize_outside_file sample_dumper 0x10001 _)).
    right. simpl. lia.
  - refine (proj1 (ComputeSize_outside_file sample_dumper 0xff _)).
    left. simpl. lia.
Defined.

(** ** The size ledger: [ComputeOatSize] *)

Lemma ComputeOatSize_unfold s a :
  ComputeOatSize s a =
    ({| oat_dumper_ := oat_dumper_ s;
        already_seen_ := if decide (a ∈ already_seen_ s) then already_seen_ s
                         else {[ a ]} ∪ already_seen_ s |},
     bool_decide (a ∉ already_seen_ s),
     snd (ComputeSize (oat_dumper_ s) a)).
Proof.
  unfold ComputeOatSize.
  pose proof (ComputeSize_object (oat_dumper_ s) a) as Hd.
  destruct (ComputeSize (oat_dumper_ s) a) as [d r]. simpl in Hd. subst d.
  destruct (decide (a ∈ already_seen_ s)) as [Hin|Hnin].
  - rewrite bool_decide_eq_false_2; [done|]. intros Hn. by apply Hn.
  - by rewrite bool_decide_eq_true_2.
Qed.

Lemma ComputeOatSize_seen s a :
  already_seen_ (fst (fst (ComputeOatSize s a))) = {[ a ]} ∪ already_seen_ s.
Proof.
  rewrite ComputeOatSize_unfold. simpl.
  destruct (decide (a ∈ already_seen_ s)) as [Hin|Hnin]; [|done].
  apply set_eq. intros x. rewrite elem_of_union, elem_of_singleton.
  split; [tauto|]. intros [->|Hx]; done.
Qed.

Lemma ComputeOatSize_session_lookup s addrs i a :
  (forall b, b ∈ addrs -> returns (snd (ComputeSize (oat_dumper_ s) b))) ->
  addrs !! i = Some a ->
  exists n,
    ComputeOatSize_session s addrs !! i =
      Some (n, bool_decide ((a ∉ already_seen_ s) /\ (a ∉ take i addrs))) /\
    snd (ComputeSize (oat_dumper_ s) a) = Returns n.
Proof.
  revert s i. induction addrs as [|b addrs IH]; intros s i Hret Hi; [done|].
  simpl.
  pose proof (ComputeOatSize_seen s b) as Hseen.
  rewrite ComputeOatSize_unfold in *. simpl in Hseen.
  destruct (Hret b) as [n Hn]; [left|]. rewrite Hn.
  destruct i as [|i]; simpl in *.
  - injection Hi as ->. exists n. split; [|done]. do 2 f_equal.
    apply bool_decide_ext. split; [|tauto].
    intros H. split; [done|]. apply not_elem_of_nil.
  - rewrite Hseen.
    match goal with |- context [ComputeOatSize_session ?s' _] =>
      destruct (IH s' i) as (m & Hm & Hsz); [|done|] end.
    { intros c Hc. apply Hret. by right. }
    simpl in Hm, Hsz.
    exists m. split; [|done]. rewrite Hm. do 2 f_equal.
    apply bool_decide_ext. set_solver.
Qed.

(** C7. In a session that starts with nothing seen, the [i]-th call
    (for address [a]) returns the size that [ComputeSize] gives for [a],
    and its flag is true exactly when [a] was not queried before: true
    at the first query of an address, false at each later one. *)
Theorem ComputeOatSize_first_occurrence_once s addrs i a :
  already_seen_ s = ∅ ->
  (forall b, b ∈ addrs -> returns (snd (ComputeSize (oat_dumper_ s) b))) ->
  addrs !! i = Some a ->
  exists n,
    ComputeOatSize_session s addrs !! i = Some (n, bool_decide (a ∉ take i addrs)) /\
    snd (ComputeSize (oat_dumper_ s) a) = Returns n /\
    length (ComputeOatSize_session s addrs) = length addrs.
Proof.
  intros Hfresh Hret Hi.
  destruct (ComputeOatSize_session_lookup s addrs i a Hret Hi) as (n & Hn & Hsz).
  exists n. split; [|split; [done|]].
  - rewrite Hn. do 2 f_equal. apply bool_decide_ext. rewrite Hfresh. set_solver.
  - clear Hi Hn Hsz Hfresh. revert s Hret.
    induction addrs as [|b addrs IH]; intros s Hret; [done|]. simpl.
    rewrite ComputeOatSize_unfold.
    destruct (Hret b) as [m Hm]; [left|]. rewrite Hm. simpl. f_equal.
    apply IH. intros c Hc. apply Hret. by right.
Qed.

Example ComputeOatSize_session_sample :
  ComputeOatSize_session sample_image_dumper [0x1101; 0xa40; 0x1101; 0x20000; 0xa40]
  = [(0xfff, true); (0x20, true); (0xfff, false); (0, true); (0x20, false)].
Proof. vm_compute. reflexivity. Qed.

Lemma ComputeOatSize_first_occurrence_once_witness :
  exists n,
    ComputeOatSize_session sample_image_dumper [0x1101; 0xa40; 0x1101] !! 2%nat
      = Some (n, bool_decide (0x1101 ∉ take 2 [0x1101; 0xa40])) /\
    snd (ComputeSize (oat_dumper_ sample_image_dumper) 0x1101) = Returns n /\
    length (ComputeOatSize_session sample_image_dumper [0x1101; 0xa40; 0x1101])
      = length [0x1101; 0xa40; 0x1101].
Proof.
  apply (ComputeOatSize_first_occurrence_once sample_image_dumper
           [0x1101; 0xa40; 0x1101] 2 0x1101).
  - reflexivity.
  - intros b Hb. rewrite !elem_of_cons in Hb.
    destruct Hb as [->|[->|[->|Hb]]];
      [eexists; vm_compute; reflexivity ..|by apply elem_of_nil in Hb].
  - reflexivity.
Defined.

(** ** The virtual register table: [DumpVmap] *)

Lemma Dumping_bind_unfold {A B} (m : Dumping A) (k : A -> Dumping B) os :
  (m ≫= k) os =
    match m os with
    | (os', Returns a) => k a os'
    | (os', CheckFailure what) => (os', CheckFailure what)
    | (os', UndefinedBehaviour what) => (os', UndefinedBehaviour what)
    | (os', OutOfFuel) => (os', OutOfFuel)
    end.
Proof. reflexivity. Qed.

Lemma put_bind {B} (i : Item) (k : unit -> Dumping B) os :
  (put i ≫= k) os = k tt (os ++ [i]).
Proof. reflexivity. Qed.

Lemma mret_bind {A B} (a : A) (k : A -> Dumping B) os :
  (mret a ≫= k) os = k a os.
Proof. reflexivity. Qed.

Lemma lift_bind {A B} (o : Outcome A) (k : A -> Dumping B) os :
  (lift o ≫= k) os =
    match o with
    | Returns a => k a os
    | CheckFailure what => (os, CheckFailure what)
    | UndefinedBehaviour what => (os, UndefinedBehaviour what)
    | OutOfFuel => (os, OutOfFuel)
    end.
Proof. unfold lift. rewrite Dumping_bind_unfold. by destruct o. Qed.

Lemma positive_bits_testbit p k b :
  positive_bits p !! k = Some b -> Z.testbit (Zpos p) (Z.of_nat k) = b.
Proof.
  revert k. induction p as [p IH|p IH|]; intros k; destruct k as [|k];
    intros H; cbn [positive_bits lookup list_lookup] in H;
    try (injection H as <-; reflexivity).
  - rewrite <- (IH k H), Nat2Z.inj_succ.
    change (Zpos p~1) with (2 * Zpos p + 1). rewrite Z.testbit_odd_succ; [done|lia].
  - rewrite <- (IH k H), Nat2Z.inj_succ.
    change (Zpos p~0) with (2 * Zpos p). rewrite Z.testbit_even_succ; [done|lia].
  - destruct k; discriminate H.
Qed.

Lemma positive_bits_length p : Z.of_nat (length (positive_bits p)) = Z.log2 (Zpos p) + 1.
Proof.
  induction p as [p IH|p IH|]; simpl length; [| |done].
  - rewrite Nat2Z.inj_succ, IH. change (Zpos p~1) with (2 * Zpos p + 1).
    rewrite Z.log2_succ_double; lia.
  - rewrite Nat2Z.inj_succ, IH. change (Zpos p~0) with (2 * Zpos p).
    rewrite Z.log2_double; lia.
Qed.

(** The bits of a mask are its binary digits up to the highest set one. *)
Lemma mask_bits_spec m :
  0 <= m ->
  bit_length m = (if m =? 0 then 0 else Z.log2 m + 1) /\
  (forall k b, mask_bits m !! k = Some b -> Z.testbit m (Z.of_nat k) = b).
Proof.
  intros Hm. unfold bit_length. destruct m as [|p|p]; [done| |lia]. split.
  - apply positive_bits_length.
  - apply positive_bits_testbit.
Qed.

Lemma bit_length_uint32 m : is_uint32 m -> 0 <= bit_length m <= 32.
Proof.
  intros [H0 H1]. destruct (mask_bits_spec m H0) as [Hl _]. rewrite Hl.
  destruct (Z.eqb_spec m 0); [lia|].
  assert (Z.log2 m < 32); [|pose proof (Z.log2_nonneg m); lia].
  apply Z.log2_lt_pow2; lia.
Qed.

(** One pass of the scan takes the lowest bit of a non-zero mask. *)
Lemma mask_bits_step m :
  0 < m ->
  exists b : bool,
    mask_bits m = b :: mask_bits (Z.shiftr m 1) /\
    0 <= Z.shiftr m 1 /\
    Z.land m 1 = (if b then 1 else 0).
Proof.
  intros Hm. destruct m as [|p|p]; [lia| |lia].
  destruct p as [p|p|]; [exists true|exists false|exists true];
    simpl; repeat split; done.
Qed.

Lemma nth_set_bit_bound k bits i :
  nth_set_bit k bits = Some i -> 0 <= i < Z.of_nat (length bits).
Proof.
  revert k i. induction bits as [|b bits IH]; intros k i; simpl; [done|].
  destruct b, k as [|k]; simpl.
  - intros [= <-]. lia.
  - destruct (nth_set_bit k bits) as [j|] eqn:Hj; [|done].
    intros [= <-]. specialize (IH _ _ Hj). lia.
  - destruct (nth_set_bit 0 bits) as [j|] eqn:Hj; [|done].
    intros [= <-]. specialize (IH _ _ Hj). lia.
  - destruct (nth_set_bit (S k) bits) as [j|] eqn:Hj; [|done].
    intros [= <-]. specialize (IH _ _ Hj). lia.
Qed.

Lemma scan_result_cons target matches shifts b rest :
  matches < target ->
  scan_result target matches shifts (b :: rest) =
  scan_result target (matches + (if b then 1 else 0)) (shifts + 1) rest.
Proof.
  intros Hlt. unfold scan_result.
  destruct (Z.eqb_spec matches target) as [|_]; [lia|].
  destruct b.
  - destruct (Z.to_nat (target - matches - 1)) as [|j] eqn:Hj; simpl.
    + destruct (Z.eqb_spec (matches + 1) target); [f_equal; lia|lia].
    + destruct (Z.eqb_spec (matches + 1) target); [lia|].
      replace (Z.to_nat (target - (matches + 1) - 1)) with j by lia.
      destruct (nth_set_bit j rest); simpl; [f_equal; lia|done].
  - rewrite Z.add_0_r. destruct (Z.eqb_spec matches target); [lia|]. simpl.
    destruct (nth_set_bit _ rest); simpl; [f_equal; lia|done].
Qed.

Lemma mask_bits_step_length m : 0 < m -> bit_length (Z.shiftr m 1) = bit_length m - 1.
Proof.
  intros Hm. unfold bit_length.
  destruct (mask_bits_step m Hm) as (b & -> & _ & _). simpl length. lia.
Qed.

(** The scan loop computes [scan_result] on the stream ahead of it, as
    soon as the fuel covers the bits that are left. *)
Lemma DumpVmap_scan_spec fuel : forall target matches shifts mask (pfp : bool) fp,
  0 <= mask -> 0 <= fp ->
  0 <= matches <= target -> target < 2 ^ 32 ->
  0 <= shifts ->
  shifts + bit_length mask + 1 + (if pfp then 0 else bit_length fp + 1) < 2 ^ 32 ->
  bit_length mask + 1 + (if pfp then 0 else bit_length fp + 1) < Z.of_nat fuel ->
  DumpVmap_scan fuel target matches shifts mask pfp fp =
  scan_result target matches shifts
              (mask_bits mask ++ (if pfp then [] else mask_bits fp)).
Proof.
  induction fuel as [|fuel IH]; intros target matches shifts mask pfp fp
    Hmask Hfp Hm Ht Hs Hbound Hfuel.
  { unfold bit_length in Hfuel. destruct pfp; lia. }
  cbn [DumpVmap_scan].
  destruct (Z.eqb_spec matches target) as [Heq|Hne]; cbn [negb].
  { unfold scan_result. by rewrite (proj2 (Z.eqb_eq _ _) Heq). }
  assert (Hlt : matches < target) by lia.
  assert (Hbl : forall m, 0 <= bit_length m) by (intros; unfold bit_length; lia).
  destruct (Z.eqb_spec mask 0) as [->|Hnz].
  - destruct pfp; cbn [negb].
    + unfold scan_result. destruct (Z.eqb_spec matches target); [lia|done].
    + change (mask_bits 0) with (@nil bool). rewrite app_nil_l.
      change (bit_length 0) with 0 in *.
      destruct (Z.eqb_spec fp 0) as [->|Hfnz].
      * change (Z.land 0 1) with 0. change (Z.shiftr 0 1) with 0.
        change (bit_length 0) with 0 in *.
        rewrite Z.add_0_r, (wrap32_small matches), (wrap32_small (shifts + 1))
          by (unfold is_uint32; lia).
        rewrite IH; try (change (bit_length 0) with 0; lia).
        change (mask_bits 0) with (@nil bool). simpl.
        unfold scan_result. destruct (Z.eqb_spec matches target); [lia|done].
      * destruct (mask_bits_step fp) as (b & Hbits & Hsh & Hland); [lia|].
        pose proof (mask_bits_step_length fp ltac:(lia)) as Hlen.
        pose proof (Hbl (Z.shiftr fp 1)).
        rewrite Hbits, scan_result_cons by done. rewrite Hland.
        rewrite (wrap32_small (matches + _)), (wrap32_small (shifts + 1));
          [|unfold is_uint32; lia
           |unfold is_uint32; destruct b; lia].
        rewrite IH; [by rewrite app_nil_r|try (destruct b); lia ..].
  - destruct (mask_bits_step mask) as (b & Hbits & Hsh & Hland); [lia|].
    pose proof (mask_bits_step_length mask ltac:(lia)) as Hlen.
    pose proof (Hbl (Z.shiftr mask 1)). pose proof (Hbl fp).
    rewrite Hbits, <- app_comm_cons, scan_result_cons by done. rewrite Hland.
    rewrite (wrap32_small (matches + _)), (wrap32_small (shifts + 1));
      [|unfold is_uint32; destruct pfp; lia
       |unfold is_uint32; destruct b; lia].
    rewrite IH; [done|try (destruct b); try (destruct pfp); lia ..].
Qed.

(** With 32-bit masks the fuel of the model is never used up. *)
Lemma DumpVmap_scan_total i core fp :
  is_uint32 core -> is_uint32 fp -> 0 <= i < 65535 ->
  DumpVmap_scan DumpVmap_fuel (wrap32 (i + 1)) 0 0 core false fp =
  match nth_set_bit (Z.to_nat i) (spill_stream core fp) with
  | Some k => Returns (k + 1)
  | None => CheckFailure "!processing_fp"
  end.
Proof.
  intros Hc Hf Hi.
  pose proof (bit_length_uint32 core Hc). pose proof (bit_length_uint32 fp Hf).
  rewrite wrap32_small by (unfold is_uint32; lia).
  rewrite DumpVmap_scan_spec; unfold is_uint32 in *; try lia.
  - unfold scan_result, spill_stream.
    destruct (Z.eqb_spec 0 (i + 1)); [lia|].
    replace (Z.to_nat (i + 1 - 0 - 1)) with (Z.to_nat i) by lia.
    by destruct (nth_set_bit _ _).
  - unfold DumpVmap_fuel. lia.
Qed.

Lemma nth_set_bit_spill_stream_bound k core fp slot :
  is_uint32 core -> is_uint32 fp ->
  nth_set_bit k (spill_stream core fp) = Some slot -> 0 <= slot < 64.
Proof.
  intros Hc Hf H. apply nth_set_bit_bound in H.
  unfold spill_stream in H. rewrite length_app, Nat2Z.inj_add in H.
  pose proof (bit_length_uint32 core Hc). pose proof (bit_length_uint32 fp Hf).
  unfold bit_length in *. lia.
Qed.

(** The loop over the table prints the entries decoded against the
    stream of the two masks, and fails its CHECK when the stream has too
    few set bits. *)
Lemma DumpVmap_loop_spec core fp :
  is_uint32 core -> is_uint32 fp ->
  forall entries i first os,
    0 <= i -> i + Z.of_nat (length entries) <= 65535 ->
    DumpVmap_loop core fp entries i first os =
    match decode_entries (spill_stream core fp) arm_register (Z.to_nat i) entries with
    | Some es => (os ++ render_entries first es, Returns tt)
    | None => (fst (DumpVmap_loop core fp entries i first os),
               CheckFailure "!processing_fp")
    end.
Proof.
  intros Hc Hf. induction entries as [|dex_reg entries IH]; intros i first os Hi Hlen.
  { simpl. by rewrite app_nil_r. }
  simpl length in Hlen.
  cbn [DumpVmap_loop decode_entries].
  rewrite lift_bind, DumpVmap_scan_total by (try done; lia).
  destruct (nth_set_bit (Z.to_nat i) (spill_stream core fp)) as [slot|] eqn:Hslot;
    [|done].
  pose proof (nth_set_bit_spill_stream_bound _ _ _ _ Hc Hf Hslot) as Hb.
  cbn [mbind option_bind].
  replace (slot + 1 - 1) with slot by lia.
  rewrite (wrap32_small slot), (wrap32_small (i + 1)) by (unfold is_uint32; lia).
  rewrite !put_bind.
  replace (S (Z.to_nat i)) with (Z.to_nat (i + 1)) by lia.
  assert (Hreg : forall k : unit -> Dumping unit,
    ((if slot <? 16 then put (Text "/r");; put (Num slot)
      else put (Text "/fr");; put (Num (wrap32 (slot - 16)))) ≫= k)
      ((os ++ [Text (if first then "v" else ", v")]) ++ [Num dex_reg])
    = k tt (os ++ [Text (if first then "v" else ", v"); Num dex_reg]
               ++ render_register (arm_register slot))).
  { intros k. unfold arm_register.
    destruct (Z.ltb_spec slot 16).
    - rewrite Dumping_bind_unfold, !put_bind. simpl.
      by rewrite <- !app_assoc.
    - rewrite Dumping_bind_unfold, !put_bind. simpl.
      rewrite wrap32_small by (unfold is_uint32; lia).
      by rewrite <- !app_assoc. }
  rewrite Hreg, IH by lia.
  destruct (decode_entries _ _ _ entries) as [es|]; simpl; [|done].
  by rewrite <- !app_assoc.
Qed.

Lemma decode_entries_lookup stream name entries : forall j es,
  decode_entries stream name j entries = Some es ->
  length es = length entries /\
  forall i v, entries !! i = Some v ->
    exists slot, nth_set_bit (j + i) stream = Some slot /\
                 es !! i = Some (v, name slot).
Proof.
  induction entries as [|dex_reg entries IH]; intros j es; simpl.
  { intros [= <-]. split; [done|]. intros i v Hi. by destruct i. }
  destruct (nth_set_bit j stream) as [slot|] eqn:Hslot; [|done]. simpl.
  destruct (decode_entries stream name (S j) entries) as [rest|] eqn:Hrest; [|done].
  simpl. intros [= <-]. destruct (IH _ _ Hrest) as [Hlen Hlk].
  split; [simpl; by rewrite Hlen|].
  intros [|i] v Hi; simpl in Hi.
  - injection Hi as <-. exists slot. by rewrite Nat.add_0_r.
  - destruct (Hlk i v Hi) as (s & Hs & Hes). exists s.
    split; [|done]. by rewrite <- Nat.add_succ_comm.
Qed.

Lemma decode_entries_is_Some stream name entries : forall j,
  (forall i, (i < length entries)%nat -> is_Some (nth_set_bit (j + i) stream)) ->
  is_Some (decode_entries stream name j entries).
Proof.
  induction entries as [|dex_reg entries IH]; intros j Hall; simpl; [done|].
  destruct (Hall 0%nat) as [slot Hslot]; [simpl; lia|].
  rewrite Nat.add_0_r in Hslot. rewrite Hslot. simpl.
  destruct (IH (S j)) as [rest Hrest].
  { intros i Hi. rewrite Nat.add_succ_comm. apply Hall. simpl. lia. }
  rewrite Hrest. done.
Qed.

Lemma decode_entries_None stream name entries : forall j i,
  (i < length entries)%nat -> nth_set_bit (j + i) stream = None ->
  decode_entries stream name j entries = None.
Proof.
  induction entries as [|dex_reg entries IH]; intros j i Hi Hnone; simpl in *; [lia|].
  destruct i as [|i].
  - rewrite Nat.add_0_r in Hnone. by rewrite Hnone.
  - destruct (nth_set_bit j stream); [simpl|done].
    rewrite (IH (S j) i); [done|lia|]. by rewrite Nat.add_succ_comm.
Qed.

Lemma DumpVmap_spec t core fp os :
  is_uint32 core -> is_uint32 fp ->
  Z.of_nat (length (vmap_entries t)) <= 65535 ->
  DumpVmap (Some t) core fp os =
  match decode_entries (spill_stream core fp) arm_register 0 (vmap_entries t) with
  | Some es => (os ++ render_vmap es, Returns tt)
  | None => (fst (DumpVmap (Some t) core fp os), CheckFailure "!processing_fp")
  end.
Proof.
  intros Hc Hf Hlen. cbv [DumpVmap].
  rewrite put_bind. cbv beta. rewrite Dumping_bind_unfold.
  rewrite DumpVmap_loop_spec by (try done; lia).
  change (Z.to_nat 0) with 0%nat.
  destruct (decode_entries _ _ _ _) as [es|]; [|done].
  unfold render_vmap, put. simpl. by rewrite <- !app_assoc.
Qed.

(** The example of the design document. *)
Example DumpVmap_example :
  DumpVmap (Some (vmap_of [5; 7])) 3 0 []
  = (render_vmap [(5, CoreRegister 0); (7, CoreRegister 1)], Returns tt).
Proof. reflexivity. Qed.

(** C3, as stated, fails: a slot from 16 on is printed as an fp register
    numbered from 16, not as a core register. *)
Lemma DumpVmap_differs_from_spec_decoding :
  spec_decodeVirtualRegisterTable [5] (2 ^ 16) 0 = Some [(5, CoreRegister 16)] /\
  DumpVmap (Some (vmap_of [5])) (2 ^ 16) 0 []
    = (render_vmap [(5, FpRegister 0)], Returns tt) /\
  render_vmap [(5, FpRegister 0)] <> render_vmap [(5, CoreRegister 16)].
Proof.
  repeat split; try (vm_compute; reflexivity); discriminate.
Qed.

(** An entry beyond the set bits of the core mask: [spill_shifts] is not
    set back when the scan goes over to the fp mask, so the register is
    named by its place after the highest set bit of the core mask.
    Here bit 0 of the fp mask, which [DumpSpillMask] writes as [fr0],
    comes out as [r2]. *)
Example DumpVmap_past_the_core_mask :
  DumpVmap (Some (vmap_of [5; 7; 9])) 3 1 []
  = (render_vmap [(5, CoreRegister 0); (7, CoreRegister 1); (9, CoreRegister 2)],
     Returns tt).
Proof. vm_compute. reflexivity. Qed.

Lemma nth_set_bit_app_Some k bits bits' slot :
  nth_set_bit k bits = Some slot -> nth_set_bit k (bits ++ bits') = Some slot.
Proof.
  revert k slot. induction bits as [|b bits IH]; intros k slot; simpl; [done|].
  destruct b, k as [|k]; simpl; try done.
  - destruct (nth_set_bit k bits) as [j|] eqn:Hj; [|done].
    intros [= <-]. by rewrite (IH _ _ Hj).
  - destruct (nth_set_bit 0 bits) as [j|] eqn:Hj; [|done].
    intros [= <-]. by rewrite (IH _ _ Hj).
  - destruct (nth_set_bit (S k) bits) as [j|] eqn:Hj; [|done].
    intros [= <-]. by rewrite (IH _ _ Hj).
Qed.

(** The loop only appends to the stream. *)
Lemma DumpVmap_loop_extends core fp entries : forall i first os,
  exists out, fst (DumpVmap_loop core fp entries i first os) = os ++ out.
Proof.
  induction entries as [|dex_reg entries IH]; intros i first os.
  { exists []. simpl. by rewrite app_nil_r. }
  cbn [DumpVmap_loop]. rewrite lift_bind.
  destruct (DumpVmap_scan _ _ _ _ _ _ _) as [spill_shifts| | |];
    try (exists []; simpl; by rewrite app_nil_r).
  rewrite !put_bind. cbv zeta beta. rewrite Dumping_bind_unfold.
  destruct (_ <? 16).
  - rewrite !put_bind. unfold put at 1. cbv beta iota.
    match goal with
    | |- context [DumpVmap_loop core fp entries ?j false ?os1] =>
        destruct (IH j false os1) as [out ->]
    end.
    eexists. rewrite <- !app_assoc. reflexivity.
  - rewrite !put_bind. unfold put at 1. cbv beta iota.
    match goal with
    | |- context [DumpVmap_loop core fp entries ?j false ?os1] =>
        destruct (IH j false os1) as [out ->]
    end.
    eexists. rewrite <- !app_assoc. reflexivity.
Qed.

(** The entries of a table in two parts: when the first part is
    decoded, the loop goes on with the second. *)
Lemma DumpVmap_loop_app core fp :
  is_uint32 core -> is_uint32 fp ->
  forall entries1 entries2 i first os es,
    0 <= i -> i + Z.of_nat (length entries1) <= 65535 ->
    decode_entries (spill_stream core fp) arm_register (Z.to_nat i) entries1 = Some es ->
    DumpVmap_loop core fp (entries1 ++ entries2) i first os
    = DumpVmap_loop core fp entries2 (i + Z.of_nat (length entries1))
        (first && bool_decide (entries1 = [])) (os ++ render_entries first es).
Proof.
  intros Hc Hf. induction entries1 as [|dex_reg entries1 IH];
    intros entries2 i first os es Hi Hlen Hes.
  { injection Hes as <-. simpl. rewrite Z.add_0_r, app_nil_r, andb_true_r. done. }
  simpl length in Hlen. cbn [decode_entries] in Hes.
  destruct (nth_set_bit (Z.to_nat i) (spill_stream core fp)) as [slot|] eqn:Hslot;
    [|done].
  cbn [mbind option_bind] in Hes.
  destruct (decode_entries _ _ (S (Z.to_nat i)) entries1) as [rest|] eqn:Hrest; [|done].
  injection Hes as <-.
  pose proof (nth_set_bit_spill_stream_bound _ _ _ _ Hc Hf Hslot) as Hb.
  cbn [app DumpVmap_loop]. rewrite lift_bind.
  rewrite DumpVmap_scan_total by (try done; lia). rewrite Hslot.
  replace (slot + 1 - 1) with slot by lia.
  rewrite (wrap32_small slot), (wrap32_small (i + 1)) by (unfold is_uint32; lia).
  rewrite !put_bind.
  assert (Hreg : forall k : unit -> Dumping unit,
    ((if slot <? 16 then put (Text "/r");; put (Num slot)
      else put (Text "/fr");; put (Num (wrap32 (slot - 16)))) ≫= k)
      ((os ++ [Text (if first then "v" else ", v")]) ++ [Num dex_reg])
    = k tt (os ++ [Text (if first then "v" else ", v"); Num dex_reg]
               ++ render_register (arm_register slot))).
  { intros k. unfold arm_register.
    destruct (Z.ltb_spec slot 16).
    - rewrite Dumping_bind_unfold, !put_bind. simpl.
      by rewrite <- !app_assoc.
    - rewrite Dumping_bind_unfold, !put_bind. simpl.
      rewrite wrap32_small by (unfold is_uint32; lia).
      by rewrite <- !app_assoc. }
  rewrite Hreg.
  rewrite (IH entries2 (i + 1) false _ rest);
    [|lia|lia|by replace (Z.to_nat (i + 1)) with (S (Z.to_nat i)) by lia].
  rewrite andb_false_r. cbn [andb render_entries].
  replace (i + 1 + Z.of_nat (length entries1)) with (i + Z.of_nat (S (length entries1)))
    by lia.
  by rewrite <- !app_assoc.
Qed.

(** C3, amended. The entries whose set bit lies in the core spill mask
    come first in a table.  For each of them, at position [i], the slot
    is the index of the [(i+1)]-th set bit of the core mask, low to high;
    the entry is printed as core register [slot] when [slot < 16] and as
    fp register [slot - 16] otherwise.  When the table has no other
    entries, this is all that is printed. *)
Theorem DumpVmap_prints_nth_set_bit t core fp in_core others os :
  is_uint32 core -> is_uint32 fp ->
  Z.of_nat (length (vmap_entries t)) <= 65535 ->
  vmap_entries t = in_core ++ others ->
  (forall i, (i < length in_core)%nat ->
             is_Some (nth_set_bit i (mask_bits core))) ->
  exists es rest,
    fst (DumpVmap (Some t) core fp os)
    = os ++ [Text "\t\t\t"] ++ render_entries true es ++ rest /\
    length es = length in_core /\
    (forall i dex_reg, in_core !! i = Some dex_reg ->
       exists slot,
         nth_set_bit i (mask_bits core) = Some slot /\
         es !! i = Some (dex_reg, if slot <? 16 then CoreRegister slot
                                  else FpRegister (slot - 16))) /\
    (others = [] ->
     DumpVmap (Some t) core fp os = (os ++ render_vmap es, Returns tt)).
Proof.
  intros Hc Hf Hlen Hsplit Hcore.
  assert (forall i, (i < length in_core)%nat ->
                    nth_set_bit i (spill_stream core fp)
                    = nth_set_bit i (mask_bits core)) as Hsame.
  { intros i Hi. destruct (Hcore i Hi) as [slot Hslot].
    rewrite Hslot. by apply nth_set_bit_app_Some. }
  destruct (decode_entries_is_Some (spill_stream core fp) arm_register in_core 0)
    as [es Hes].
  { intros i Hi. rewrite Hsame by done. by apply Hcore. }
  pose proof (decode_entries_lookup _ _ _ _ _ Hes) as [Hl Hlk].
  rewrite Hsplit, length_app in Hlen.
  assert (forall i dex_reg, in_core !! i = Some dex_reg ->
            exists slot,
              nth_set_bit i (mask_bits core) = Some slot /\
              es !! i = Some (dex_reg, if slot <? 16 then CoreRegister slot
                                       else FpRegister (slot - 16))) as Hentries.
  { intros i dex_reg Hi. destruct (Hlk i dex_reg Hi) as (slot & Hs & He).
    exists slot. rewrite <- Hsame by (by apply lookup_lt_Some in Hi). done. }
  unfold DumpVmap. rewrite Hsplit, put_bind. cbv beta. rewrite Dumping_bind_unfold.
  rewrite (DumpVmap_loop_app core fp Hc Hf in_core others 0 true _ es)
    by (try done; lia).
  destruct (DumpVmap_loop_extends core fp others (0 + Z.of_nat (length in_core))
              (true && bool_decide (in_core = []))
              ((os ++ [Text "\t\t\t"]) ++ render_entries true es)) as [out Hout].
  destruct (DumpVmap_loop core fp others _ _ _) as [os1 o1] eqn:Hloop.
  cbn [fst] in Hout. subst os1.
  exists es, (match o1 with Returns _ => out ++ [Text "\n"] | _ => out end).
  split; [|split; [done|split; [done|]]].
  - destruct o1; unfold put; cbn [fst]; by rewrite <- !app_assoc.
  - intros ->. cbn [DumpVmap_loop] in Hloop. injection Hloop as Hout <-.
    unfold put, render_vmap. f_equal. rewrite <- Hout, <- !app_assoc. done.
Qed.

Lemma DumpVmap_prints_nth_set_bit_witness :
  exists es rest,
    fst (DumpVmap (Some (vmap_of [5; 7; 9; 11])) 0x10003 1 [])
    = [] ++ [Text "\t\t\t"] ++ render_entries true es ++ rest /\
    length es = 3%nat /\
    (forall i dex_reg, [5; 7; 9] !! i = Some dex_reg ->
       exists slot,
         nth_set_bit i (mask_bits 0x10003) = Some slot /\
         es !! i = Some (dex_reg, if slot <? 16 then CoreRegister slot
                                  else FpRegister (slot - 16))) /\
    ([11] = [] ->
     DumpVmap (Some (vmap_of [5; 7; 9; 11])) 0x10003 1 []
     = ([] ++ render_vmap es, Returns tt)).
Proof.
  apply (DumpVmap_prints_nth_set_bit (vmap_of [5; 7; 9; 11]) 0x10003 1
           [5; 7; 9] [11] []).
  - unfold is_uint32. lia.
  - unfold is_uint32. lia.
  - simpl. lia.
  - reflexivity.
  - intros i Hi. simpl in Hi.
    destruct i as [|[|[|i]]]; [vm_compute; eauto ..|lia].
Defined.

(** ** Failures end the report *)

Lemma bind_returns_inv {A B} (m : Dumping A) (k : A -> Dumping B) os :
  returns (snd ((m ≫= k) os)) ->
  exists a os', m os = (os', Returns a) /\ returns (snd (k a os')).
Proof.
  rewrite Dumping_bind_unfold. destruct (m os) as [os' [a| | |]]; simpl.
  - intros H. by exists a, os'.
  - intros [? [=]].
  - intros [? [=]].
  - intros [? [=]].
Qed.

Lemma for_each_returns_inv {A} (body : Z -> A -> Dumping unit) l : forall i os x,
  returns (snd (for_each body i l os)) ->
  x ∈ l ->
  exists j os', returns (snd (body j x os')).
Proof.
  induction l as [|y l IH]; intros i os x Hret Hx; [by apply elem_of_nil in Hx|].
  cbn [for_each] in Hret.
  apply bind_returns_inv in Hret as (a & os' & Hy & Hrest).
  apply elem_of_cons in Hx as [->|Hx].
  - exists i, os. rewrite Hy. by exists a.
  - by apply (IH _ _ _ Hrest).
Qed.

Lemma DumpVmap_malformed m os :
  vmap_in_range m -> malformed_vmap m ->
  exists os',
    DumpVmap (GetVmapTable m) (GetCoreSpillMask m) (GetFpSpillMask m) os
    = (os', CheckFailure "!processing_fp").
Proof.
  intros (Hc & Hf & Hlen) (t & i & Ht & Hi & Hnone).
  rewrite Ht, DumpVmap_spec by auto.
  rewrite (decode_entries_None _ _ _ 0 i Hi Hnone). eauto.
Qed.

Lemma DumpOatMethod_malformed idx m midx os :
  vmap_in_range m -> malformed_vmap m ->
  ~ returns (snd (DumpOatMethod idx m midx os)).
Proof.
  intros Hr Hm Hret. unfold DumpOatMethod in Hret.
  repeat
    match type of Hret with
    | returns (snd ((DumpVmap _ _ _ ≫= _) _)) => fail 1
    | _ => apply bind_returns_inv in Hret as (? & ? & _ & Hret)
    end.
  apply bind_returns_inv in Hret as (a & os' & Hv & _).
  match type of Hv with
  | DumpVmap _ _ _ ?o = _ => destruct (DumpVmap_malformed m o Hr Hm) as [os'' Hfail]
  end.
  congruence.
Qed.

Lemma DumpOatClass_malformed c m os :
  m ∈ class_methods c ->
  vmap_in_range (oat_method m) -> malformed_vmap (oat_method m) ->
  ~ returns (snd (DumpOatClass c os)).
Proof.
  unfold class_methods, DumpOatClass. intros Hin Hr Hm Hret.
  destruct (GetClassData c) as [cd|]; [|by apply elem_of_nil in Hin].
  apply bind_returns_inv in Hret as (? & os1 & Hd & Hret).
  apply bind_returns_inv in Hret as (? & os2 & Hv & _).
  apply elem_of_app in Hin as [Hin|Hin].
  - destruct (for_each_returns_inv DumpOatClass_method (direct_methods cd) 0 os m)
      as (j & o & Hj); [|done|].
    { rewrite Hd. by eexists. }
    exact (DumpOatMethod_malformed _ _ _ _ Hr Hm Hj).
  - destruct (for_each_returns_inv DumpOatClass_method (virtual_methods cd) _ os1 m
                ltac:(rewrite Hv; by eexists) Hin) as (j & o & Hj).
    exact (DumpOatMethod_malformed _ _ _ _ Hr Hm Hj).
Qed.

Lemma DumpOatDexFile_malformed odf m os :
  m ∈ dex_file_methods odf ->
  vmap_in_range (oat_method m) -> malformed_vmap (oat_method m) ->
  ~ returns (snd (DumpOatDexFile odf os)).
Proof.
  unfold dex_file_methods, DumpOatDexFile. intros Hin Hr Hm Hret.
  do 3 apply bind_returns_inv in Hret as (? & ? & _ & Hret).
  destruct (OpenDexFile odf) as [dex|]; [|by apply elem_of_nil in Hin].
  apply list_elem_of_bind in Hin as (c & Hmc & Hc).
  apply bind_returns_inv in Hret as (? & os1 & Hd & _).
  match type of Hd with
  | for_each ?body ?i ?l ?o = _ =>
      destruct (for_each_returns_inv body l i o c) as (j & o' & Hj); [|done|]
  end.
  { rewrite Hd. by eexists. }
  simpl in Hj.
  do 3 apply bind_returns_inv in Hj as (? & ? & _ & Hj).
  by apply (DumpOatClass_malformed c m) in Hj.
Qed.

Lemma Dump_malformed d m os :
  m ∈ dumped_methods (oat_file_ d) ->
  vmap_in_range m -> malformed_vmap m ->
  ~ returns (snd (Dump d os)).
Proof.
  unfold dumped_methods, Dump. intros Hin Hr Hm Hret.
  apply list_elem_of_fmap in Hin as (cm & -> & Hin).
  apply list_elem_of_bind in Hin as (odf & Hcm & Hodf).
  repeat
    match type of Hret with
    | returns (snd (for_each _ _ _ _)) => fail 1
    | _ => apply bind_returns_inv in Hret as (? & ? & _ & Hret)
    end.
  match type of Hret with
  | returns (snd (for_each ?body ?i ?l ?o)) =>
      destruct (for_each_returns_inv body l i o odf Hret Hodf) as (j & o' & Hj)
  end.
  by apply (DumpOatDexFile_malformed odf cm) in Hj.
Qed.

Lemma bad_vmap_method_malformed : malformed_vmap bad_vmap_method.
Proof. exists {| vmap_address := 0xac0; vmap_entries := [5; 7] |}, 1%nat.
  split; [done|]. split; [simpl; lia|done]. Qed.

Lemma bad_vmap_method_in_range : vmap_in_range bad_vmap_method.
Proof.
  split; [|split]; try (unfold is_uint32; simpl; lia).
  intros t [= <-]. simpl. lia.
Qed.

Lemma bad_vmap_method_dumped : bad_vmap_method ∈ dumped_methods (oat_file_ bad_vmap_dumper).
Proof.
  unfold bad_vmap_dumper. rewrite new_OatDumper_file.
  apply list_elem_of_In. vm_compute. auto.
Qed.

(** C9, as stated, fails: the failed CHECK ends the process.  In a file
    whose first method has a malformed table and whose second method is
    well formed, the report stops inside the first method and the
    block of the second one is never written. *)
Lemma Dump_stops_at_malformed_vmap :
  bad_vmap_method ∈ dumped_methods (oat_file_ bad_vmap_dumper) /\
  malformed_vmap bad_vmap_method /\
  snd (Dump bad_vmap_dumper []) = CheckFailure "!processing_fp" /\
  ~ returns (snd (Dump bad_vmap_dumper [])) /\
  class_header_item 0 (sample_class bad_vmap_method) ∈ fst (Dump bad_vmap_dumper []) /\
  class_header_item 1 (sample_class sample_method) ∉ fst (Dump bad_vmap_dumper []).
Proof.
  split; [exact bad_vmap_method_dumped|].
  split; [exact bad_vmap_method_malformed|].
  split; [vm_compute; reflexivity|].
  split; [intros [a Ha]; vm_compute in Ha; discriminate Ha|].
  split.
  - apply list_elem_of_In. vm_compute. tauto.
  - intros H. apply list_elem_of_In in H. vm_compute in H.
    repeat (destruct H as [H|H]; [discriminate H|]). exact H.
Qed.

(** ** The pc mapping table: [DumpMappingTable] *)

Lemma flatten_pairs_length ps : length (flatten_pairs ps) = (2 * length ps)%nat.
Proof. induction ps as [|[a b] ps IH]; simpl; lia. Qed.

Lemma flatten_pairs_app ps qs :
  flatten_pairs (ps ++ qs) = flatten_pairs ps ++ flatten_pairs qs.
Proof. induction ps as [|[a b] ps IH]; simpl; [done|]. by rewrite IH. Qed.

Lemma flatten_pairs_lookup done p todo rest :
  (flatten_pairs (done ++ p :: todo) ++ rest) !! (2 * length done)%nat = Some (fst p) /\
  (flatten_pairs (done ++ p :: todo) ++ rest) !! S (2 * length done)%nat = Some (snd p).
Proof.
  rewrite flatten_pairs_app, <- app_assoc. destruct p as [a b].
  cbn [flatten_pairs fst snd].
  split.
  - rewrite lookup_app_r; rewrite flatten_pairs_length; [|lia].
    by rewrite Nat.sub_diag.
  - rewrite lookup_app_r; rewrite flatten_pairs_length; [|lia].
    by replace (S (2 * length done) - 2 * length done)%nat with 1%nat by lia.
Qed.

Lemma read_bind_Some {B} what a k w (f : Z -> Dumping B) os :
  a !! Z.to_nat k = Some w -> (read what a k ≫= f) os = f w os.
Proof. intros H. unfold read. rewrite H. reflexivity. Qed.

(** The loop writes [render_loop] for the pairs that are left. *)
Lemma DumpMappingTable_loop_spec code len P rest :
  forall todo done fuel os,
    len = 2 * Z.of_nat (length done + length todo) ->
    len < 2 ^ 32 ->
    (length todo < fuel)%nat ->
    DumpMappingTable_loop fuel code (flatten_pairs (done ++ todo) ++ rest)
                          len P (2 * Z.of_nat (length done)) os
    = (os ++ render_loop code len P (length done) todo, Returns tt).
Proof.
  induction todo as [|p todo IH]; intros done fuel os Hlen Hmax Hfuel.
  - destruct fuel as [|fuel]; [simpl in Hfuel; lia|]. cbn [DumpMappingTable_loop].
    destruct (Z.ltb_spec (2 * Z.of_nat (length done)) len); [simpl in Hlen; lia|].
    simpl. by rewrite app_nil_r.
  - destruct fuel as [|fuel]; [simpl in Hfuel; lia|]. cbn [DumpMappingTable_loop].
    simpl length in *.
    destruct (Z.ltb_spec (2 * Z.of_nat (length done)) len); [|lia].
    destruct (flatten_pairs_lookup done p todo rest) as [H0 H1].
    rewrite (read_bind_Some _ _ _ (fst p))
      by (by replace (Z.to_nat (2 * Z.of_nat (length done)))
               with (2 * length done)%nat by lia).
    cbv zeta.
    rewrite (read_bind_Some _ _ _ (snd p))
      by (by replace (Z.to_nat (2 * Z.of_nat (length done) + 1))
               with (S (2 * length done))%nat by lia).
    rewrite put_bind. cbv beta.
    rewrite (wrap32_small (2 * Z.of_nat (length done) + 2)) by (unfold is_uint32; lia).
    rewrite Dumping_bind_unfold.
    assert (Hrec : forall os',
      DumpMappingTable_loop fuel code (flatten_pairs (done ++ p :: todo) ++ rest)
                            len P (2 * Z.of_nat (length done) + 2) os'
      = (os' ++ render_loop code len P (S (length done)) todo, Returns tt)).
    { intros os'.
      replace (done ++ p :: todo) with ((done ++ [p]) ++ todo)
        by (by rewrite <- app_assoc).
      replace (2 * Z.of_nat (length done) + 2)
        with (2 * Z.of_nat (length (done ++ [p])))
        by (rewrite length_app; simpl; lia).
      replace (S (length done)) with (length (done ++ [p]))
        by (rewrite length_app; simpl; lia).
      apply IH; [rewrite length_app; simpl; lia|done|lia]. }
    cbn [render_loop]. unfold render_pair.
    destruct (_ =? P).
    + unfold put at 1. rewrite Hrec. by rewrite <- !app_assoc.
    + destruct (_ <? len).
      * unfold put at 1. rewrite Hrec. by rewrite <- !app_assoc.
      * unfold mret, Dumping_mret, Dumping_ret. rewrite Hrec.
        by rewrite <- !app_assoc.
Qed.

Lemma render_loop_after code len P : forall todo j,
  P < 2 * Z.of_nat j + 2 ->
  len = 2 * Z.of_nat (j + length todo) ->
  render_loop code len P j todo = render_section code todo.
Proof.
  induction todo as [|p todo IH]; intros j HP Hlen; [done|].
  cbn [render_loop render_section]. simpl length in Hlen.
  destruct (Z.eqb_spec (2 * Z.of_nat j + 2) P); [lia|].
  rewrite IH by lia.
  destruct todo as [|q todo].
  - destruct (Z.ltb_spec (2 * Z.of_nat j + 2) len); [simpl in Hlen; lia|done].
  - destruct (Z.ltb_spec (2 * Z.of_nat j + 2) len); [done|simpl in Hlen; lia].
Qed.

Lemma render_loop_split code len k : forall todo j,
  (j < k)%nat -> (k - j <= length todo)%nat ->
  len = 2 * Z.of_nat (j + length todo) ->
  render_loop code len (2 * Z.of_nat k) j todo
  = render_section code (take (k - j) todo) ++ [Text "}\n\t\t{"]
      ++ render_section code (drop (k - j) todo).
Proof.
  induction todo as [|p todo IH]; intros j Hj Hk Hlen; [simpl in Hk; lia|].
  cbn [render_loop]. simpl length in *.
  destruct (k - j)%nat as [|d] eqn:Hd; [lia|]. cbn [take drop].
  destruct (Z.eqb_spec (2 * Z.of_nat j + 2) (2 * Z.of_nat k)) as [He|Hne].
  - assert (d = 0%nat) as -> by lia. rewrite take_0, drop_0.
    rewrite render_loop_after by lia. done.
  - destruct (Z.ltb_spec (2 * Z.of_nat j + 2) len); [|lia].
    rewrite IH by lia. replace (k - S j)%nat with d by lia.
    destruct d as [|d]; [lia|]. destruct todo as [|q todo]; [simpl in Hk; lia|].
    done.
Qed.

(** C8, as stated, fails in its example: the two counts are counts of
    32-bit words, two to a pair.  With the counts 4 and 2 only the first
    two pairs are read, one to each section. *)
Lemma DumpMappingTable_counts_words :
  DumpMappingTable
    (with_mapping_table [4; 2; 0x10; 3; 0x20; 5; 3; 0x10; 5; 0x20]) []
  = (render_mapping_table 0x1000 [(0x10, 3)] [(0x20, 5)], Returns tt) /\
  render_mapping_table 0x1000 [(0x10, 3)] [(0x20, 5)]
  <> render_mapping_table 0x1000 [(0x10, 3); (0x20, 5)] [(3, 0x10); (5, 0x20)].
Proof. split; [vm_compute; reflexivity|discriminate]. Qed.

(** C8, amended. The table is [length; pc_to_dex_entries; words...] with
    both counts in words, two words to a pair.  The first [length / 2]
    pairs are split by position alone: the first [pc_to_dex_entries / 2]
    of them are written as the first section, the others as the second
    (for even counts with [0 < pc_to_dex_entries <= length]). *)
Theorem DumpMappingTable_splits_at_pc_to_dex_entries m t pairs k rest os :
  GetMappingTable m = Some t ->
  GetCode m <> 0 ->
  table_words t
    = 2 * Z.of_nat (length pairs) :: 2 * Z.of_nat k :: flatten_pairs pairs ++ rest ->
  (0 < k <= length pairs)%nat ->
  2 * Z.of_nat (length pairs) < 2 ^ 32 ->
  DumpMappingTable m os
  = (os ++ render_mapping_table (GetCode m) (take k pairs) (drop k pairs),
     Returns tt).
Proof.
  intros Ht Hcode Hwords Hk Hmax. unfold DumpMappingTable.
  rewrite Ht. destruct (Z.eqb_spec (GetCode m) 0); [done|]. rewrite Hwords.
  rewrite put_bind. cbv beta. rewrite Dumping_bind_unfold.
  pose proof (DumpMappingTable_loop_spec (GetCode m)
                (2 * Z.of_nat (length pairs)) (2 * Z.of_nat k) rest pairs []
                (S (length (flatten_pairs pairs ++ rest))) (os ++ [Text "\t\t{"]))
    as Hloop.
  simpl app in Hloop. change (2 * Z.of_nat (@length (Z * Z) [])) with 0 in Hloop.
  rewrite Hloop; [|simpl; lia|done|rewrite length_app, flatten_pairs_length; lia].
  simpl length. rewrite render_loop_split; [|lia|lia|simpl; lia].
  rewrite Nat.sub_0_r, !put_bind. unfold render_mapping_table, put.
  f_equal. rewrite <- ?app_assoc. simpl. by rewrite <- ?app_assoc.
Qed.

Lemma DumpMappingTable_splits_at_pc_to_dex_entries_witness :
  DumpMappingTable
    (with_mapping_table [8; 4; 0x10; 3; 0x20; 5; 3; 0x10; 5; 0x20]) []
  = ([] ++ render_mapping_table 0x1000
             (take 2 [(0x10, 3); (0x20, 5); (3, 0x10); (5, 0x20)])
             (drop 2 [(0x10, 3); (0x20, 5); (3, 0x10); (5, 0x20)]),
     Returns tt).
Proof.
  apply (DumpMappingTable_splits_at_pc_to_dex_entries
           (with_mapping_table [8; 4; 0x10; 3; 0x20; 5; 3; 0x10; 5; 0x20])
           {| table_address := 0xa00;
              table_words := [8; 4; 0x10; 3; 0x20; 5; 3; 0x10; 5; 0x20] |}
           [(0x10, 3); (0x20, 5); (3, 0x10); (5, 0x20)] 2 [] []).
  - reflexivity.
  - simpl. lia.
  - reflexivity.
  - simpl. lia.
  - simpl. lia.
Defined.

(** With the word counts, the pairs of the example come out as the
    design document lists them. *)
Example DumpMappingTable_example :
  DumpMappingTable
    (with_mapping_table [8; 4; 0x10; 3; 0x20; 5; 3; 0x10; 5; 0x20]) []
  = (render_mapping_table 0x1000 [(0x10, 3); (0x20, 5)] [(3, 0x10); (5, 0x20)],
     Returns tt).
Proof. vm_compute. reflexivity. Qed.

(** ** The outlier sweeps *)

Lemma element_bind_Some {A B} what (v : list A) j x (k : A -> Dumping B) os :
  v !! j = Some x -> (element what v j ≫= k) os = k x os.
Proof. intros H. unfold element. rewrite H. reflexivity. Qed.

Lemma element_bind_None {A B} what (v : list A) j (k : A -> Dumping B) os :
  v !! j = None -> (element what v j ≫= k) os = (os, UndefinedBehaviour what).
Proof. intros H. unfold element. rewrite H. reflexivity. Qed.

Lemma puts_bind {B} items (k : unit -> Dumping B) os :
  (puts items ≫= k) os = k tt (os ++ items).
Proof. reflexivity. Qed.

Lemma reports_app {T} (a b : list (SweepEvent T)) : reports (a ++ b) = reports a + reports b.
Proof. unfold reports. rewrite List.filter_app, length_app. lia. Qed.

Lemma reports_nonneg {T} (a : list (SweepEvent T)) : 0 <= reports a.
Proof. unfold reports. lia. Qed.

Lemma render_events_app {T} header line (a b : list (SweepEvent T)) :
  render_events header line (a ++ b)
  = render_events header line a ++ render_events header line b.
Proof. unfold render_events. apply bind_app. Qed.

Lemma qualifying_cons {T} (exceeds : Z -> T -> Outcome bool) i x rest :
  qualifying exceeds i (x :: rest)
  = (if qualifies exceeds i x then 1 else 0) + qualifying exceeds i rest.
Proof.
  unfold qualifying. cbn [List.filter].
  destruct (qualifies exceeds i x); simpl length; lia.
Qed.

Lemma qualifies_decided {T} (exceeds : Z -> T -> Outcome bool) i x b :
  exceeds i x = Returns b -> qualifies exceeds i x = b.
Proof. unfold qualifies. intros ->. by destruct b. Qed.

Section SweepFacts.
Context {T : Type}.
Variable exceeds : Z -> T -> Outcome bool.
Variable zero : T.
Variable header : Z -> list Item.
Variable line : Z -> T -> list Item.
Variable methods : list Z.

Local Abbreviation scan := (sweep_scan exceeds zero header line methods).
Local Abbreviation loop := (sweep_loop exceeds zero header line methods).
Local Abbreviation render := (render_events header line).

(** What one pass over the samples does, whatever its outcome: it
    writes events, it never brings the number of written samples above
    21, and when it returns it has counted every written sample and left
    [i] as it was or at 2. *)
Lemma sweep_scan_cap count : forall j i first st os os' o,
  0 <= dumped_values st <= 21 ->
  scan count j i first st os = (os', o) ->
  exists evs,
    os' = os ++ render evs /\
    dumped_values st + reports evs <= 21 /\
    (forall i' st', o = Returns (i', st') ->
       dumped_values st' = dumped_values st + reports evs /\
       length (samples st') = length (samples st) /\
       (i' = i \/ (i' = 2 /\ i <> 1 /\ 20 < dumped_values st'))).
Proof.
  induction count as [|count IH]; intros j i first st os os' o Hd Hscan.
  { injection Hscan as <- <-. exists []. simpl. rewrite app_nil_r.
    split; [done|]. split; [unfold reports; simpl; lia|].
    intros i' st' [= <- <-]. unfold reports. simpl. split; [lia|]. split; [done|by left]. }
  cbn [sweep_scan] in Hscan.
  destruct (samples st !! j) as [cur|] eqn:Hcur.
  2:{ rewrite element_bind_None in Hscan by done. injection Hscan as <- <-.
      exists []. simpl. rewrite app_nil_r. split; [done|].
      split; [unfold reports; simpl; lia|]. intros i' st' [=]. }
  rewrite (element_bind_Some _ _ _ cur) in Hscan by done.
  rewrite lift_bind in Hscan.
  destruct (exceeds i cur) as [[|]| | |];
    try (injection Hscan as <- <-; exists []; simpl; rewrite app_nil_r;
         split; [done|]; split; [unfold reports; simpl; lia|]; intros i' st' [=]).
  - destruct (Z.gtb_spec (dumped_values st) 20) as [Hcap|Hcap].
    + destruct (Z.eqb_spec i 1) as [->|Hi].
      * apply IH in Hscan as (evs & -> & Hle & Hret); [|simpl; lia].
        exists evs. split; [done|]. split; [simpl in Hle; lia|].
        intros i' st' Ho. destruct (Hret _ _ Ho) as (H1 & H2 & H3).
        simpl in *. split; [done|]. split; [done|].
        destruct H3 as [?|(?&?&?)]; [by left|done].
      * injection Hscan as <- <-. exists []. simpl. rewrite app_nil_r.
        split; [done|]. split; [unfold reports; simpl; lia|].
        intros i' st' [= <- <-]. unfold reports. simpl.
        split; [lia|]. split; [done|]. right. repeat split; [done|lia].
    + rewrite Dumping_bind_unfold in Hscan.
      assert (Hfirst : (if first then puts (header i) else mret tt) os
                       = (os ++ render (if first then [Heading i] else []), Returns tt)).
      { destruct first; simpl; unfold puts, render_events; simpl;
          by rewrite ?app_nil_r. }
      rewrite Hfirst in Hscan.
      destruct (methods !! j) as [method|] eqn:Hmethod.
      2:{ rewrite element_bind_None in Hscan by done. injection Hscan as <- <-.
          eexists. split; [done|]. split; [|intros i' st' [=]].
          destruct first; unfold reports; simpl; lia. }
      rewrite (element_bind_Some _ _ _ method) in Hscan by done.
      rewrite puts_bind in Hscan.
      rewrite wrap32_small in Hscan by (unfold is_uint32; lia).
      apply IH in Hscan as (evs & -> & Hle & Hret); [|simpl; lia].
      exists ((if first then [Heading i] else []) ++ Report method cur :: evs).
      rewrite render_events_app, reports_app. simpl in Hle.
      change (Report method cur :: evs) with ([Report method cur] ++ evs).
      rewrite render_events_app, reports_app.
      assert (reports (if first then [Heading (T := T) i] else []) = 0) as ->
        by (by destruct first).
      change (reports [Report method cur]) with 1.
      split.
      { rewrite <- !app_assoc. do 2 f_equal. unfold render_events. simpl.
        by rewrite app_nil_r. }
      split; [lia|].
      intros i' st' Ho. destruct (Hret _ _ Ho) as (H1 & H2 & H3). simpl in *.
      rewrite length_insert in H2. split; [lia|]. split; [done|].
      destruct H3 as [?|(?&?&?)]; [by left|by right].
  - apply IH in Hscan as (evs & -> & Hle & Hret); [|done]. by exists evs.
Qed.

(** The whole sweep: at most 21 samples are written, whatever the
    outcome. *)
Lemma sweep_loop_cap fuel : forall n i st os os' o,
  0 <= dumped_values st <= 21 ->
  loop fuel n i st os = (os', o) ->
  exists evs,
    os' = os ++ render evs /\
    dumped_values st + reports evs <= 21 /\
    (forall st', o = Returns st' ->
       dumped_values st' = dumped_values st + reports evs /\
       length (samples st') = length (samples st)).
Proof.
  induction fuel as [|fuel IH]; intros n i st os os' o Hd Hloop.
  { injection Hloop as <- <-. exists []. unfold reports. simpl.
    rewrite app_nil_r. split; [done|]. split; [lia|]. intros st' [=]. }
  cbn [sweep_loop] in Hloop.
  destruct (i >? 0).
  2:{ injection Hloop as <- <-. exists []. unfold reports. simpl.
      rewrite app_nil_r. split; [done|]. split; [lia|].
      intros st' [= <-]. split; [lia|done]. }
  rewrite Dumping_bind_unfold in Hloop.
  destruct (scan n 0%nat i true st os) as [os1 o1] eqn:Hscan.
  apply sweep_scan_cap in Hscan as (evs1 & -> & Hle1 & Hret1); [|done].
  destruct o1 as [[i1 st1]| | |];
    try (injection Hloop as <- <-; exists evs1; split; [done|];
         split; [done|]; intros st' [=]).
  destruct (Hret1 _ _ eq_refl) as (Hd1 & Hlen1 & _).
  pose proof (reports_nonneg evs1).
  apply IH in Hloop as (evs2 & -> & Hle2 & Hret2); [|simpl; lia].
  exists (evs1 ++ evs2). rewrite render_events_app, reports_app, app_assoc.
  simpl in *. split; [done|]. split; [lia|].
  intros st' Ho. destruct (Hret2 _ Ho) as [H1 H2]. split; [lia|congruence].
Qed.

Lemma sweep_scan_fuel count : forall j i first st os,
  (forall k x, exceeds k x <> OutOfFuel) ->
  snd (scan count j i first st os) <> OutOfFuel.
Proof.
  induction count as [|count IH]; intros j i first st os Hex; [done|].
  cbn [sweep_scan].
  destruct (samples st !! j) as [cur|] eqn:Hcur;
    [|by rewrite element_bind_None by done].
  rewrite (element_bind_Some _ _ _ cur), lift_bind by done.
  pose proof (Hex i cur) as Hcur'.
  destruct (exceeds i cur) as [[|]| | |]; try done.
  - destruct (dumped_values st >? 20).
    + destruct (i =? 1); [by apply IH|done].
    + rewrite Dumping_bind_unfold.
      destruct first; simpl.
      * destruct (methods !! j) as [method|] eqn:Hm;
          [|by rewrite element_bind_None by done].
        rewrite (element_bind_Some _ _ _ method), puts_bind by done. by apply IH.
      * destruct (methods !! j) as [method|] eqn:Hm;
          [|by rewrite element_bind_None by done].
        rewrite (element_bind_Some _ _ _ method), puts_bind by done. by apply IH.
  - by apply IH.
Qed.

(** The fuel of [sweep] is enough: the loop over the thresholds ends. *)
Lemma sweep_loop_fuel fuel : forall n i st os,
  (forall k x, exceeds k x <> OutOfFuel) ->
  0 <= dumped_values st <= 21 ->
  0 <= i < 2 ^ 32 ->
  (Z.to_nat i < fuel)%nat ->
  snd (loop fuel n i st os) <> OutOfFuel.
Proof.
  induction fuel as [|fuel IH]; intros n i st os Hex Hd Hi Hfuel; [lia|].
  cbn [sweep_loop].
  destruct (Z.gtb_spec i 0) as [Hpos|]; [|done].
  rewrite Dumping_bind_unfold.
  pose proof (sweep_scan_fuel n 0%nat i true st os Hex) as Hnf.
  destruct (scan n 0%nat i true st os) as [os1 o1] eqn:Hscan.
  apply sweep_scan_cap in Hscan as (evs1 & -> & Hle1 & Hret1); [|done].
  destruct o1 as [[i1 st1]| | |]; try done.
  destruct (Hret1 _ _ eq_refl) as (Hd1 & _ & Hi1).
  pose proof (reports_nonneg evs1).
  assert (1 <= i1 <= i) by (destruct Hi1 as [->|(-> & ? & ?)]; lia).
  simpl. rewrite wrap32_small by (unfold is_uint32; lia).
  apply IH; [done|lia|lia|lia].
Qed.

Lemma drop_lookup_head (l : list T) j x rest :
  drop j l = x :: rest -> l !! j = Some x /\ drop (S j) l = rest.
Proof.
  intros H. split.
  - replace j with (j + 0)%nat by lia. by rewrite <- lookup_drop, H.
  - replace (S j) with (j + 1)%nat by lia. by rewrite <- drop_drop, H.
Qed.

(** A pass in which no sample qualifies changes nothing. *)
Lemma sweep_scan_no_match rest : forall j i first st os,
  drop j (samples st) = rest ->
  (forall x, x ∈ rest -> exceeds i x = Returns false) ->
  scan (length rest) j i first st os = (os, Returns (i, st)).
Proof.
  induction rest as [|x rest IH]; intros j i first st os Hdrop Hno; [done|].
  destruct (drop_lookup_head _ _ _ _ Hdrop) as [Hx Hrest].
  cbn [length sweep_scan].
  rewrite (element_bind_Some _ _ _ x), lift_bind by done.
  rewrite (Hno x) by left. apply IH; [done|]. intros y Hy. apply Hno. by right.
Qed.



(** A pass at threshold 1, in general: the qualifying samples are
    written until 21 have been, and the others are counted as skipped. *)
Lemma sweep_scan_at_one rest : forall j first st os,
  0 <= dumped_values st <= 21 ->
  drop j (samples st) = rest ->
  (forall x, x ∈ rest -> decided exceeds 1 x) ->
  (j + length rest <= length methods)%nat ->
  0 <= skipped_values st ->
  skipped_values st + Z.of_nat (length rest) < 2 ^ 32 ->
  exists os' st',
    scan (length rest) j 1 first st os = (os', Returns (1, st')) /\
    dumped_values st' = Z.min (dumped_values st + qualifying exceeds 1 rest) 21 /\
    skipped_values st'
    = skipped_values st + dumped_values st + qualifying exceeds 1 rest
      - dumped_values st'.
Proof.
  induction rest as [|x rest IH]; intros j first st os Hd Hdrop Hdec Hm Hs0 Hs.
  { exists os, st. split; [done|]. unfold qualifying. simpl. lia. }
  destruct (drop_lookup_head _ _ _ _ Hdrop) as [Hx Hrest].
  cbn [length sweep_scan]. simpl length in Hs, Hm.
  rewrite (element_bind_Some _ _ _ x), lift_bind by done.
  destruct (Hdec x) as [b Hb]; [left|].
  assert (Hdec' : forall y, y ∈ rest -> decided exceeds 1 y)
    by (intros y Hy; apply Hdec; by right).
  rewrite qualifying_cons, (qualifies_decided _ _ _ _ Hb), Hb.
  assert (Hq : 0 <= qualifying exceeds 1 rest) by (unfold qualifying; lia).
  destruct b.
  - destruct (Z.gtb_spec (dumped_values st) 20) as [Hcap|Hcap].
    + rewrite Z.eqb_refl, wrap32_small by (unfold is_uint32; lia).
      destruct (IH (S j) first
                  {| samples := samples st; dumped_values := dumped_values st;
                     skipped_values := skipped_values st + 1 |} os)
        as (os' & st' & Hscan & Hd' & Hs'); [simpl; try done; lia ..|].
      exists os', st'. split; [exact Hscan|]. simpl in *. lia.
    + rewrite Dumping_bind_unfold.
      destruct (lookup_lt_is_Some_2 methods j) as [method Hmethod]; [lia|].
      assert (Hfirst : exists os1, (if first then puts (header 1) else mret tt) os
                                   = (os1, Returns tt))
        by (destruct first; eexists; reflexivity).
      destruct Hfirst as [os1 ->].
      rewrite (element_bind_Some _ _ _ method), puts_bind by done.
      rewrite wrap32_small by (unfold is_uint32; lia).
      destruct (IH (S j) false
                  {| samples := <[j:=zero]> (samples st);
                     dumped_values := dumped_values st + 1;
                     skipped_values := skipped_values st |}
                  (os1 ++ line method x))
        as (os' & st' & Hscan & Hd' & Hs');
        [simpl; lia
        |simpl; rewrite <- Hrest; by rewrite drop_insert_lt by lia
        |done|lia|simpl; lia|simpl; lia|].
      exists os', st'. split; [exact Hscan|]. simpl in *. lia.
  - destruct (IH (S j) first st os) as (os' & st' & Hscan & Hd' & Hs');
      try done; try lia.
    exists os', st'. split; [exact Hscan|]. lia.
Qed.

(** The passes at thresholds at which no sample qualifies are without
    effect: the sweep goes on at threshold 1. *)
Lemma sweep_loop_quiet d : forall fuel n i st os,
  i = 1 + Z.of_nat d -> i < 2 ^ 32 ->
  n = length (samples st) ->
  (forall k x, 2 <= k <= i -> x ∈ samples st -> exceeds k x = Returns false) ->
  loop (d + fuel) n i st os = loop fuel n 1 st os.
Proof.
  induction d as [|d IH]; intros fuel n i st os Hi Hmax Hn Hno.
  { simpl. by replace i with 1 by lia. }
  cbn [Nat.add sweep_loop].
  destruct (Z.gtb_spec i 0); [|lia].
  rewrite Dumping_bind_unfold, Hn.
  rewrite (sweep_scan_no_match (samples st) 0 i true st os); [|done|].
  2:{ intros x Hx. apply Hno; [lia|done]. }
  simpl. rewrite wrap32_small by (unfold is_uint32; lia).
  rewrite <- Hn. apply IH; [lia|lia|done|].
  intros k x Hk Hx. apply Hno; [lia|done].
Qed.



End SweepFacts.

Lemma only_at_one_check_sound {T} (exceeds : Z -> T -> Outcome bool) start values :
  only_at_one_check exceeds start values = true ->
  only_at_one exceeds start values.
Proof.
  unfold only_at_one_check. rewrite forallb_forall. intros H.
  assert (Hk : forall k x, 1 <= k <= start -> x ∈ values ->
            match exceeds k x with
            | Returns b => if 2 <=? k then negb b else true
            | _ => false
            end = true).
  { intros k x Hk Hx.
    specialize (H k). rewrite forallb_forall in H.
    apply H; [|by apply list_elem_of_In].
    apply list_elem_of_In, elem_of_seqZ. lia. }
  split.
  - intros k x Hk' Hx. specialize (Hk k x Hk' Hx). unfold decided.
    destruct (exceeds k x) as [b| | |]; try done. by exists b.
  - intros k x Hk' Hx. specialize (Hk k x ltac:(lia) Hx). unfold qualifies.
    destruct (exceeds k x) as [b| | |]; try done.
    destruct (Z.leb_spec 2 k); [|lia]. by destruct b.
Qed.

Lemma only_at_one_no_match {T} (exceeds : Z -> T -> Outcome bool) start values k x :
  only_at_one exceeds start values ->
  2 <= k <= start -> x ∈ values -> exceeds k x = Returns false.
Proof.
  intros [Hdec Hno] Hk Hx. specialize (Hno k x Hk Hx).
  destruct (Hdec k x ltac:(lia) Hx) as [b Hb].
  rewrite (qualifies_decided _ _ _ _ Hb) in Hno. by subst.
Qed.

(** A sweep in which samples qualify at threshold 1 only: the first 21
    of them are written, the others are counted as skipped. *)
Lemma sweep_only_at_one {T} (exceeds : Z -> T -> Outcome bool) zero header line
    methods start n values os :
  1 <= start < 2 ^ 32 ->
  n = length values ->
  (length values <= length methods)%nat ->
  Z.of_nat (length values) < 2 ^ 32 ->
  only_at_one exceeds start values ->
  exists st' evs,
    sweep exceeds zero header line methods start n values os
    = (os ++ render_events header line evs, Returns st') /\
    reports evs = Z.min (qualifying exceeds 1 values) 21 /\
    dumped_values st' = Z.min (qualifying exceeds 1 values) 21 /\
    skipped_values st'
    = qualifying exceeds 1 values - Z.min (qualifying exceeds 1 values) 21.
Proof.
  intros Hstart Hn Hlen Hmax Hone. unfold sweep.
  set (st0 := {| samples := values; dumped_values := 0; skipped_values := 0 |}).
  replace (S (Z.to_nat start)) with (Z.to_nat (start - 1) + 2)%nat by lia.
  rewrite (sweep_loop_quiet exceeds zero header line methods (Z.to_nat (start - 1)));
    [|lia|lia|done|].
  2:{ intros k x Hk Hx. by apply (only_at_one_no_match exceeds start values). }
  cbn [sweep_loop]. change (1 >? 0) with true. cbv iota.
  rewrite Dumping_bind_unfold, Hn.
  destruct (sweep_scan_at_one exceeds zero header line methods values 0 true st0 os)
    as (os' & st' & Hscan & Hd & Hs); simpl; try done; try lia.
  { intros x Hx. destruct Hone as [Hdec _]. apply Hdec; [lia|done]. }
  rewrite Hscan. simpl.
  apply sweep_scan_cap in Hscan as (evs & -> & _ & Hret); [|simpl; lia].
  destruct (Hret _ _ eq_refl) as (Hrep & _ & _). simpl in Hrep, Hd, Hs.
  exists st', evs. change (wrap32 (1 - 1) >? 0) with false. cbv iota.
  split; [done|]. split; [lia|]. split; [done|lia].
Qed.


Lemma size_of_double_outcome d :
  (exists z, size_of_double d = Returns z) \/
  size_of_double d = UndefinedBehaviour "double to size_t".
Proof.
  unfold size_of_double. destruct (Prim2SF d) as [?| | |sign m e]; eauto.
  destruct (_ =? 0); eauto. destruct sign; eauto. destruct (_ <? _); eauto.
Qed.

Lemma size_exceeds_fuel size_mean size_variance i x :
  size_exceeds size_mean size_variance i x <> OutOfFuel.
Proof. unfold size_exceeds. by destruct (x >? size_mean). Qed.

Lemma expansion_exceeds_fuel expansion_mean expansion_variance i x :
  expansion_exceeds expansion_mean expansion_variance i x <> OutOfFuel.
Proof.
  unfold expansion_exceeds. destruct (_ <? _)%float; [|done].
  destruct (size_of_double_outcome (x - expansion_mean)%float) as [[z ->]| ->]; done.
Qed.

Lemma stats_25_at_one_only :
  only_at_one (size_exceeds 41 2500) 100 (method_outlier_size stats_25_at_one) /\
  qualifying (size_exceeds 41 2500) 1 (method_outlier_size stats_25_at_one) = 25.
Proof.
  split; [|vm_compute; reflexivity].
  apply only_at_one_check_sound. vm_compute. reflexivity.
Qed.

(** C4, as stated, fails: the cap is tested with [dumped_values > 20],
    so a 21st sample is written before anything is skipped.  With 25
    samples that qualify at threshold 1 only, 21 are written and 4 are
    counted as skipped. *)
Lemma DumpOutliers_writes_21_of_25 :
  qualifying (size_exceeds 41 2500) 1 (method_outlier_size stats_25_at_one) = 25 /\
  (exists st evs,
     size_sweep 41 2500 stats_25_at_one []
     = (render_events size_header size_line evs, Returns st) /\
     reports evs = 21 /\ skipped_values st = 4 /\ ~ reports evs <= 20) /\
  length (List.filter is_size_report (fst (DumpOutliers stats_25_at_one []))) = 21%nat.
Proof.
  destruct stats_25_at_one_only as [Hone Hq].
  split; [exact Hq|]. split; [|vm_compute; reflexivity].
  destruct (sweep_only_at_one (size_exceeds 41 2500) 0 size_header size_line
              (method_outlier stats_25_at_one) 100
              (length (method_outlier_size stats_25_at_one))
              (method_outlier_size stats_25_at_one) [])
    as (st & evs & Hsweep & Hrep & _ & Hskip);
    [lia|reflexivity|vm_compute; lia|by vm_compute|exact Hone|].
  rewrite Hq in Hrep, Hskip. exists st, evs.
  split; [exact Hsweep|]. split; [exact Hrep|]. split; [exact Hskip|]. lia.
Qed.

(** C4, amended. In each of the two sweeps at most 21 samples are
    written in all; and when 21 or more samples qualify at threshold 1
    and none at a higher threshold, exactly 21 are written and the
    others are counted as skipped. *)
Theorem outlier_sweeps_write_at_most_21 (s : Stats) :
  (forall size_mean size_variance os os' o,
      size_sweep size_mean size_variance s os = (os', o) ->
      o <> OutOfFuel /\
      exists evs, os' = os ++ render_events size_header size_line evs /\
                  reports evs <= 21) /\
  (forall expansion_mean expansion_variance os os' o,
      expansion_sweep expansion_mean expansion_variance s os = (os', o) ->
      o <> OutOfFuel /\
      exists evs, os' = os ++ render_events expansion_header expansion_line evs /\
                  reports evs <= 21) /\
  (forall size_mean size_variance os q,
      length (method_outlier s) = length (method_outlier_size s) ->
      Z.of_nat (length (method_outlier_size s)) < 2 ^ 32 ->
      only_at_one (size_exceeds size_mean size_variance) 100 (method_outlier_size s) ->
      qualifying (size_exceeds size_mean size_variance) 1 (method_outlier_size s) = q ->
      21 <= q ->
      exists st evs,
        size_sweep size_mean size_variance s os
        = (os ++ render_events size_header size_line evs, Returns st) /\
        reports evs = 21 /\ dumped_values st = 21 /\ skipped_values st = q - 21) /\
  (forall expansion_mean expansion_variance os q,
      length (method_outlier s) = length (method_outlier_size s) ->
      length (method_outlier_expansion s) = length (method_outlier_size s) ->
      Z.of_nat (length (method_outlier_size s)) < 2 ^ 32 ->
      only_at_one (expansion_exceeds expansion_mean expansion_variance) 10
                  (method_outlier_expansion s) ->
      qualifying (expansion_exceeds expansion_mean expansion_variance) 1
                 (method_outlier_expansion s) = q ->
      21 <= q ->
      exists st evs,
        expansion_sweep expansion_mean expansion_variance s os
        = (os ++ render_events expansion_header expansion_line evs, Returns st) /\
        reports evs = 21 /\ dumped_values st = 21 /\ skipped_values st = q - 21).
Proof.
  split; [|split; [|split]].
  - intros size_mean size_variance os os' o Hsweep. split.
    + intros ->. unfold size_sweep, sweep in Hsweep.
      eapply (sweep_loop_fuel (size_exceeds size_mean size_variance));
        [apply size_exceeds_fuel| | | |by rewrite Hsweep];
        cbn [dumped_values]; lia.
    + unfold size_sweep, sweep in Hsweep.
      apply sweep_loop_cap in Hsweep as (evs & -> & Hle & _);
        [|cbn [dumped_values]; lia].
      exists evs. split; [done|]. cbn [dumped_values] in Hle. lia.
  - intros expansion_mean expansion_variance os os' o Hsweep. split.
    + intros ->. unfold expansion_sweep, sweep in Hsweep.
      eapply (sweep_loop_fuel (expansion_exceeds expansion_mean expansion_variance));
        [apply expansion_exceeds_fuel| | | |by rewrite Hsweep];
        cbn [dumped_values]; lia.
    + unfold expansion_sweep, sweep in Hsweep.
      apply sweep_loop_cap in Hsweep as (evs & -> & Hle & _);
        [|cbn [dumped_values]; lia].
      exists evs. split; [done|]. cbn [dumped_values] in Hle. lia.
  - intros size_mean size_variance os q Hm Hmax Hone Hq Hge.
    destruct (sweep_only_at_one (size_exceeds size_mean size_variance) 0
                size_header size_line (method_outlier s) 100
                (length (method_outlier_size s)) (method_outlier_size s) os)
      as (st & evs & Hsweep & Hrep & Hd & Hskip);
      [lia|reflexivity|lia|exact Hmax|exact Hone|].
    exists st, evs. rewrite Hq in Hrep, Hd, Hskip. split; [exact Hsweep|]. lia.
  - intros expansion_mean expansion_variance os q Hm He Hmax Hone Hq Hge.
    destruct (sweep_only_at_one (expansion_exceeds expansion_mean expansion_variance)
                0%float expansion_header expansion_line (method_outlier s) 10
                (length (method_outlier_size s)) (method_outlier_expansion s) os)
      as (st & evs & Hsweep & Hrep & Hd & Hskip);
      [lia|by rewrite He|lia|by rewrite He|exact Hone|].
    exists st, evs. rewrite Hq in Hrep, Hd, Hskip. split; [exact Hsweep|]. lia.
Qed.

Lemma outlier_sweeps_write_at_most_21_witness :
  exists st evs,
    size_sweep 41 2500 stats_25_at_one []
    = ([] ++ render_events size_header size_line evs, Returns st) /\
    reports evs = 21 /\ dumped_values st = 21 /\ skipped_values st = 25 - 21.
Proof.
  destruct (outlier_sweeps_write_at_most_21 stats_25_at_one) as (_ & _ & H & _).
  apply (H 41 2500 [] 25).
  - vm_compute. reflexivity.
  - vm_compute. reflexivity.
  - exact (proj1 stats_25_at_one_only).
  - exact (proj2 stats_25_at_one_only).
  - lia.
Defined.




(** The run of [DumpOutliers] in which the cap is exceeded at threshold
    3: 21 samples are written there, the 22nd is counted at threshold 1. *)
Example DumpOutliers_jump_example :
  List.filter (fun it => match it with Num _ => true | _ => false end)
              (fst (DumpOutliers stats_22_at_three []))
  = [Num 3; Num 1] /\
  length (List.filter is_size_report (fst (DumpOutliers stats_22_at_three [])))
  = 21%nat.
Proof. split; vm_compute; reflexivity. Qed.

(** With one sample the summing loop writes nothing, and it returns
    unless a conversion of the expansion to [size_t] is undefined. *)
Lemma DumpOutliers_sums_one s x0 os :
  method_outlier_size s = [x0] ->
  exists o,
    DumpOutliers_sums 1 0 s 0 0 0 0 os = (os, o) /\
    ((exists sums, o = Returns sums) \/ (exists what, o = UndefinedBehaviour what)).
Proof.
  intros Hs. cbn [DumpOutliers_sums]. rewrite Hs.
  rewrite (element_bind_Some _ _ _ x0) by done.
  destruct (method_outlier_expansion s !! 0%nat) as [e|] eqn:He.
  2:{ rewrite element_bind_None by done. eauto. }
  rewrite (element_bind_Some _ _ _ e), lift_bind by done.
  destruct (size_of_double_outcome (double_of_size 0 + e)%float) as [[z ->]| ->];
    [|eauto].
  rewrite lift_bind.
  destruct (size_of_double_outcome (double_of_size 0 + e * e)%float) as [[z' ->]| ->];
    eauto.
Qed.

(** C6, on the code: with fewer than two samples [DumpOutliers] divides
    by zero (by [n] when there is none, by [n - 1] when there is one);
    nothing guards the divisions. *)
Theorem DumpOutliers_divides_by_zero s os :
  (length (method_outlier_size s) < 2)%nat ->
  exists what, DumpOutliers s os = (os, UndefinedBehaviour what).
Proof.
  intros Hn. unfold DumpOutliers.
  destruct (method_outlier_size s) as [|x0 [|x1 rest]] eqn:Hs; [| |simpl in Hn; lia].
  - eexists. reflexivity.
  - simpl length. rewrite Dumping_bind_unfold.
    destruct (DumpOutliers_sums_one s x0 os Hs) as (o & -> & [[sums ->]|[what ->]]);
      [|by eexists].
    destruct sums as [[[a b] c] d]. eexists. reflexivity.
Qed.

Lemma DumpOutliers_divides_by_zero_witness :
  exists what, DumpOutliers (stats_of [7] 2%float) [] = ([], UndefinedBehaviour what).
Proof.
  apply (DumpOutliers_divides_by_zero (stats_of [7] 2%float) []). simpl. lia.
Defined.

(** * Further properties *)

(** ** The registry of region starts *)

Lemma StdSet_insert_absorb x s : StdSet.ordered s -> x ∈ s -> StdSet.insert x s = s.
Proof.
  unfold StdSet.ordered. induction s as [|y s IH]; intros Hs Hx.
  { by apply elem_of_nil in Hx. }
  inversion Hs as [|? ? Hs' Hall]; subst. rewrite Forall_forall in Hall. simpl.
  apply elem_of_cons in Hx as [->|Hx].
  - by rewrite Z.ltb_irrefl, Z.eqb_refl.
  - specialize (Hall x Hx).
    destruct (Z.ltb_spec x y); [lia|]. destruct (Z.eqb_spec x y); [lia|].
    f_equal. auto.
Qed.

Lemma offsets_insert_absorb x d :
  registry_ok d -> wrap32 x ∈ offsets_ d -> offsets_insert x d = d.
Proof.
  intros [Hord _] Hx. unfold offsets_insert, set_offsets.
  rewrite StdSet_insert_absorb by done. by destruct d.
Qed.

Lemma offsets_insert_here x d : wrap32 x ∈ offsets_ (offsets_insert x d).
Proof. simpl. apply StdSet_elem_of_insert. by left. Qed.

Lemma method_registered_insert f m x d :
  method_registered f m d -> method_registered f m (offsets_insert x d).
Proof.
  intros (H1 & H2 & H3 & H4 & H5).
  repeat split; by apply offsets_insert_mono.
Qed.

Lemma AddOffsets_registers m d :
  method_registered (oat_file_ d) m (AddOffsets m d).
Proof.
  unfold method_registered, AddOffsets, registered_code_offset.
  repeat split;
    repeat first [apply offsets_insert_here | apply offsets_insert_mono].
Qed.

(** A loop of insertions establishes for each element what its own
    step establishes, when later steps keep it. *)
Lemma foldl_establishes {A} (step : A -> OatDumper -> OatDumper)
    (I : OatDumper -> Prop) (Q : A -> OatDumper -> Prop) :
  (forall a d, I d -> I (step a d)) ->
  (forall a d, I d -> Q a (step a d)) ->
  (forall a b d, Q a d -> Q a (step b d)) ->
  forall l d a, I d -> a ∈ l -> Q a (foldl (fun d a => step a d) d l).
Proof.
  intros HI Hest Hkeep. induction l as [|b l IH]; intros d a Hd Ha.
  { by apply elem_of_nil in Ha. }
  simpl. apply elem_of_cons in Ha as [->|Ha].
  - assert (Hb : Q b (step b d)) by auto.
    clear IH. revert Hb. generalize (step b d). clear d Hd.
    induction l as [|c l IH]; simpl; auto.
  - apply IH; auto.
Qed.

Lemma AddOffsets_file m d : oat_file_ (AddOffsets m d) = oat_file_ d.
Proof. by apply (AddOffsets_inv (fun d' => oat_file_ d' = oat_file_ d)). Qed.

Lemma AddOffsets_keeps f m0 m d :
  method_registered f m0 d -> method_registered f m0 (AddOffsets m d).
Proof. apply AddOffsets_inv. apply method_registered_insert. Qed.

Lemma AddClassOffsets_registers f c m d :
  oat_file_ d = f -> m ∈ class_methods c ->
  method_registered f (oat_method m) (AddClassOffsets c d).
Proof.
  intros Hf Hm. unfold class_methods, AddClassOffsets in *.
  destruct (GetClassData c) as [cd|]; [|by apply elem_of_nil in Hm].
  assert (HI : forall (a : ClassMethod) d0,
             oat_file_ d0 = f -> oat_file_ (AddOffsets (oat_method a) d0) = f)
    by (intros a d0 H; by rewrite AddOffsets_file).
  assert (Hest : forall (a : ClassMethod) d0,
             oat_file_ d0 = f ->
             method_registered f (oat_method a) (AddOffsets (oat_method a) d0))
    by (intros a d0 H; rewrite <- H; apply AddOffsets_registers).
  assert (Hkeep : forall (a b : ClassMethod) d0,
             method_registered f (oat_method a) d0 ->
             method_registered f (oat_method a) (AddOffsets (oat_method b) d0))
    by (intros a b d0 H; by apply AddOffsets_keeps).
  apply elem_of_app in Hm as [Hm|Hm].
  - apply (foldl_inv (method_registered f (oat_method m))
             (fun m' => AddOffsets (oat_method m'))).
    { intros a d0 H. by apply AddOffsets_keeps. }
    exact (foldl_establishes (fun m' => AddOffsets (oat_method m'))
             (fun d => oat_file_ d = f)
             (fun m' d => method_registered f (oat_method m') d)
             HI Hest Hkeep _ d m Hf Hm).
  - refine (foldl_establishes (fun m' => AddOffsets (oat_method m'))
              (fun d => oat_file_ d = f)
              (fun m' d => method_registered f (oat_method m') d)
              HI Hest Hkeep _ _ m _ Hm).
    apply (foldl_inv (fun d => oat_file_ d = f)
             (fun m' => AddOffsets (oat_method m'))); [exact HI|exact Hf].
Qed.

Lemma AddClassOffsets_file c d : oat_file_ (AddClassOffsets c d) = oat_file_ d.
Proof. by apply (AddClassOffsets_inv (fun d' => oat_file_ d' = oat_file_ d)). Qed.

Lemma AddClassOffsets_keeps f m0 c d :
  method_registered f m0 d -> method_registered f m0 (AddClassOffsets c d).
Proof. apply AddClassOffsets_inv. apply method_registered_insert. Qed.

Lemma AddDexFileOffsets_registers f odf m d :
  oat_file_ d = f -> m ∈ dex_file_methods odf ->
  method_registered f (oat_method m) (AddDexFileOffsets odf d).
Proof.
  intros Hf Hm. unfold dex_file_methods, AddDexFileOffsets in *.
  destruct (OpenDexFile odf) as [dex|]; [|by apply elem_of_nil in Hm].
  apply list_elem_of_bind in Hm as (c & Hm & Hc).
  refine (foldl_establishes AddClassOffsets (fun d => oat_file_ d = f)
            (fun c d => forall m, m ∈ class_methods c ->
                                  method_registered f (oat_method m) d)
            _ _ _ _ _ c _ Hc m Hm).
  - intros a d0 H. by rewrite AddClassOffsets_file.
  - intros a d0 H m0 Hm0. by apply AddClassOffsets_registers.
  - intros a b d0 H m0 Hm0. apply AddClassOffsets_keeps. auto.
  - done.
Qed.

Lemma AddDexFileOffsets_file odf d : oat_file_ (AddDexFileOffsets odf d) = oat_file_ d.
Proof. by apply (AddDexFileOffsets_inv (fun d' => oat_file_ d' = oat_file_ d)). Qed.

Lemma AddDexFileOffsets_keeps f m0 odf d :
  method_registered f m0 d -> method_registered f m0 (AddDexFileOffsets odf d).
Proof. apply AddDexFileOffsets_inv. apply method_registered_insert. Qed.

(** X1. The constructor registers, for every method that the report goes
    through, its code offset (with the Thumb bit cleared on Thumb2) and
    the offsets of its mapping table, vmap table, gc map and invoke
    stub. *)
Theorem new_OatDumper_registers_every_method hp f m :
  m ∈ dumped_methods f ->
  method_registered f m (new_OatDumper hp f).
Proof.
  intros Hm. unfold dumped_methods in Hm.
  apply list_elem_of_fmap in Hm as (cm & -> & Hcm).
  apply list_elem_of_bind in Hcm as (odf & Hcm & Hodf).
  unfold new_OatDumper, AddAllOffsets.
  apply method_registered_insert.
  refine (foldl_establishes AddDexFileOffsets (fun d => oat_file_ d = f)
            (fun odf d => forall m, m ∈ dex_file_methods odf ->
                                    method_registered f (oat_method m) d)
            _ _ _ _ _ odf _ Hodf cm Hcm).
  - intros a d0 H. by rewrite AddDexFileOffsets_file.
  - intros a d0 H m0 Hm0. by apply AddDexFileOffsets_registers.
  - intros a b d0 H m0 Hm0. apply AddDexFileOffsets_keeps. auto.
  - done.
Qed.

Lemma new_OatDumper_registers_every_method_witness :
  method_registered sample_oat_file sample_method sample_dumper.
Proof.
  apply (new_OatDumper_registers_every_method EmptyString sample_oat_file sample_method).
  apply list_elem_of_In. vm_compute. auto.
Defined.

(** X2. The registry that the constructor builds is strictly increasing
    (so without duplicates), holds 32-bit values only, and contains the
    offset of the end of the file. *)
Theorem new_OatDumper_registry_invariant hp f :
  StronglySorted Z.lt (offsets_ (new_OatDumper hp f)) /\
  NoDup (offsets_ (new_OatDumper hp f)) /\
  Forall is_uint32 (offsets_ (new_OatDumper hp f)) /\
  wrap32 (End_ f - Begin f) ∈ offsets_ (new_OatDumper hp f).
Proof.
  destruct (new_OatDumper_ok hp f) as [Hord Hrng].
  split; [exact Hord|]. split; [|split; [exact Hrng|apply new_OatDumper_sentinel]].
  clear Hrng. unfold StdSet.ordered in Hord.
  induction Hord as [|x l Hs IH Hall]; constructor; [|done].
  intros Hx. rewrite Forall_forall in Hall. specialize (Hall x Hx). lia.
Qed.

(** X3. Registering a method again changes nothing: [AddOffsets] is
    idempotent on a well-formed registry. *)
Theorem AddOffsets_idempotent m d :
  registry_ok d -> AddOffsets m (AddOffsets m d) = AddOffsets m d.
Proof.
  intros Hok.
  assert (Hok' : registry_ok (AddOffsets m d))
    by (apply (AddOffsets_inv registry_ok); [apply offsets_insert_ok|done]).
  pose proof (AddOffsets_registers m d) as (H1 & H2 & H3 & H4 & H5).
  pose proof (AddOffsets_file m d) as Hf.
  unfold registered_code_offset in H1.
  set (d' := AddOffsets m d) in *.
  unfold AddOffsets at 1. cbv zeta. rewrite Hf.
  rewrite (offsets_insert_absorb _ d' Hok' H1).
  rewrite (offsets_insert_absorb _ d' Hok' H2).
  rewrite (offsets_insert_absorb _ d' Hok' H3).
  rewrite (offsets_insert_absorb _ d' Hok' H4).
  apply (offsets_insert_absorb _ d' Hok' H5).
Qed.

Lemma AddOffsets_idempotent_witness :
  AddOffsets sample_method (AddOffsets sample_method sample_dumper)
  = AddOffsets sample_method sample_dumper.
Proof.
  apply (AddOffsets_idempotent sample_method sample_dumper).
  apply new_OatDumper_ok.
Defined.

(** X4. For an address inside the file and below its end, the inferred
    region is not empty and does not reach past the end of the file. *)
Theorem ComputeSize_within_file hp f a :
  mapped f ->
  Begin f <= a < End_ f ->
  exists n,
    ComputeSize (new_OatDumper hp f) a = (new_OatDumper hp f, Returns n) /\
    0 < n <= End_ f - a.
Proof.
  intros (HB & HBE & HE) Ha.
  set (d := new_OatDumper hp f).
  assert (Hok : registry_ok d) by apply new_OatDumper_ok.
  assert (Hf : oat_file_ d = f) by apply new_OatDumper_file.
  pose proof (new_OatDumper_sentinel hp f) as Hsent.
  rewrite wrap32_small in Hsent by (unfold is_uint32; lia).
  destruct (StdSet.upper_bound (a - Begin f) (offsets_ d)) as [o|] eqn:Hub.
  - exists (o - (a - Begin f)).
    apply (StdSet_upper_bound_Some _ _ _ (proj1 Hok)) in Hub as Hmin.
    destruct Hmin as (Hin & Hgt & Hmin). specialize (Hmin _ Hsent ltac:(lia)).
    split; [|lia].
    replace a with (Begin (oat_file_ d) + (a - Begin f)) at 1 by (rewrite Hf; lia).
    apply ComputeSize_successor; rewrite ?Hf; try done. lia.
  - exfalso. rewrite StdSet_upper_bound_None in Hub.
    specialize (Hub _ Hsent). lia.
Qed.

Lemma ComputeSize_within_file_witness :
  exists n,
    ComputeSize (new_OatDumper EmptyString sample_oat_file) 0x1101
    = (new_OatDumper EmptyString sample_oat_file, Returns n) /\
    0 < n <= End_ sample_oat_file - 0x1101.
Proof.
  apply (ComputeSize_within_file EmptyString sample_oat_file 0x1101).
  - exact sample_oat_file_mapped.
  - simpl. lia.
Defined.

Lemma StdSet_ordered_app_r s1 s2 : StdSet.ordered (s1 ++ s2) -> StdSet.ordered s2.
Proof.
  unfold StdSet.ordered. induction s1 as [|x s1 IH]; simpl; [done|].
  intros H. inversion H; subst. auto.
Qed.

(** Sizes of the regions that start at consecutive registered offsets. *)
Lemma ComputeSize_consecutive d : forall mid s1 o0 on s2,
  registry_ok d -> mapped (oat_file_ d) ->
  offsets_ d = s1 ++ o0 :: mid ++ on :: s2 ->
  on <= End_ (oat_file_ d) - Begin (oat_file_ d) ->
  exists sizes,
    Forall2 (fun o n => ComputeSize d (Begin (oat_file_ d) + o) = (d, Returns n))
            (o0 :: mid) sizes /\
    Zsum sizes = on - o0.
Proof.
  induction mid as [|o1 mid IH]; intros s1 o0 on s2 Hok Hmap Heq Hon.
  - simpl in Heq. exists [on - o0]. split; [|unfold Zsum; simpl; lia].
    constructor; [|constructor].
    destruct Hok as [Hord Hrng].
    assert (Hub : StdSet.upper_bound o0 (offsets_ d) = Some on).
    { rewrite Heq. apply StdSet_upper_bound_adjacent. by rewrite <- Heq. }
    apply ComputeSize_successor; try done.
    rewrite Forall_forall in Hrng.
    assert (is_uint32 o0) by (apply Hrng; rewrite Heq; set_solver).
    apply StdSet_upper_bound_greater in Hub as [? _].
    unfold is_uint32 in *. lia.
  - simpl in Heq.
    destruct (IH (s1 ++ [o0]) o1 on s2 Hok Hmap) as (sizes & Hall & Hsum);
      [by rewrite <- app_assoc|done|].
    exists ((o1 - o0) :: sizes). split; [|unfold Zsum in *; simpl; lia].
    constructor; [|done].
    pose proof Hok as [Hord Hrng].
    assert (Hub : StdSet.upper_bound o0 (offsets_ d) = Some o1).
    { rewrite Heq. apply StdSet_upper_bound_adjacent. by rewrite <- Heq. }
    apply ComputeSize_successor; try done.
    rewrite Forall_forall in Hrng.
    assert (is_uint32 o0) by (apply Hrng; rewrite Heq; set_solver).
    assert (o1 < on).
    { rewrite Heq in Hord. apply StdSet_ordered_app_r in Hord.
      inversion Hord as [|? ? Hord' _]; subst.
      inversion Hord' as [|? ? _ Hall']; subst.
      rewrite Forall_forall in Hall'. apply Hall'. set_solver. }
    apply StdSet_upper_bound_greater in Hub as [? _].
    unfold is_uint32 in *. lia.
Qed.

(** X5. The regions tile the file: for consecutive registered offsets
    [o0 < ... < on] inside the file, the sizes inferred at [o0] up to
    the offset before [on] add up to [on - o0]. *)
Theorem ComputeSize_sizes_add_up hp f s1 o0 mid on s2 :
  mapped f ->
  offsets_ (new_OatDumper hp f) = s1 ++ o0 :: mid ++ on :: s2 ->
  on <= End_ f - Begin f ->
  exists sizes,
    Forall2 (fun o n => ComputeSize (new_OatDumper hp f) (Begin f + o)
                        = (new_OatDumper hp f, Returns n))
            (o0 :: mid) sizes /\
    Zsum sizes = on - o0.
Proof.
  intros Hmap Heq Hon.
  pose proof (new_OatDumper_file hp f) as Hf.
  destruct (ComputeSize_consecutive (new_OatDumper hp f) mid s1 o0 on s2)
    as (sizes & Hall & Hsum); rewrite ?Hf; try done.
  { apply new_OatDumper_ok. }
  exists sizes. rewrite Hf in Hall. done.
Qed.

Lemma ComputeSize_sizes_add_up_witness :
  exists sizes,
    Forall2 (fun o n => ComputeSize (new_OatDumper EmptyString sample_oat_file)
                                    (Begin sample_oat_file + o)
                        = (new_OatDumper EmptyString sample_oat_file, Returns n))
            (0x140 :: [0x900; 0x940; 0x960; 0x1000; 0x2000]) sizes /\
    Zsum sizes = 0xff00 - 0x140.
Proof.
  apply (ComputeSize_sizes_add_up EmptyString sample_oat_file []
           0x140 [0x900; 0x940; 0x960; 0x1000; 0x2000] 0xff00 []).
  - exact sample_oat_file_mapped.
  - reflexivity.
  - simpl. lia.
Defined.

(** ** The size ledger *)

(** X6. A second query of an address gives the size of the first one,
    clears the flag, and leaves the ledger as the first query left it. *)
Theorem ComputeOatSize_repeated s a :
  let '(s1, first1, size1) := ComputeOatSize s a in
  ComputeOatSize s1 a = (s1, false, size1).
Proof.
  rewrite ComputeOatSize_unfold.
  rewrite ComputeOatSize_unfold. simpl.
  assert (Hin : a ∈ (if decide (a ∈ already_seen_ s) then already_seen_ s
                     else {[a]} ∪ already_seen_ s)).
  { destruct (decide (a ∈ already_seen_ s)); [done|].
    apply elem_of_union. left. by apply elem_of_singleton. }
  rewrite decide_True by done.
  rewrite bool_decide_eq_false_2; [done|]. intros Hn. by apply Hn.
Qed.

Lemma first_occurrences_spec addrs : forall s,
  (forall b, b ∈ addrs -> returns (snd (ComputeSize (oat_dumper_ s) b))) ->
  let firsts := first_occurrences addrs (ComputeOatSize_session s addrs) in
  NoDup firsts /\
  (forall a, a ∈ firsts <-> a ∈ addrs /\ a ∉ already_seen_ s).
Proof.
  induction addrs as [|b addrs IH]; intros s Hret.
  { simpl. split; [constructor|]. intros a. split.
    - intros H. by apply elem_of_nil in H.
    - intros [H _]. by apply elem_of_nil in H. }
  cbn [ComputeOatSize_session].
  pose proof (ComputeOatSize_seen s b) as Hseen.
  rewrite ComputeOatSize_unfold in *. simpl in Hseen.
  destruct (Hret b) as [n Hn]; [left|]. rewrite Hn.
  cbn [first_occurrences].
  match goal with |- context [ComputeOatSize_session ?s' _] =>
    destruct (IH s') as [Hnd Hiff]; [intros c Hc; apply Hret; by right|] end.
  simpl in Hiff. rewrite Hseen in Hnd, Hiff. rewrite Hseen.
  destruct (decide (b ∈ already_seen_ s)) as [Hb|Hb].
  - rewrite bool_decide_eq_false_2 by (intros Hn'; by apply Hn').
    split; [done|]. intros a. rewrite Hiff, elem_of_cons. set_solver.
  - rewrite bool_decide_eq_true_2 by done.
    split.
    + constructor; [|done]. rewrite Hiff. set_solver.
    + intros a. rewrite !elem_of_cons, Hiff.
      destruct (decide (a = b)) as [->|Hne]; set_solver.
Qed.

(** X7. Over a session that starts with nothing seen, the queries that
    set the flag name every queried address exactly once: totals added
    up under the flag count each shared region once. *)
Theorem ComputeOatSize_flags_each_address_once s addrs :
  already_seen_ s = ∅ ->
  (forall b, b ∈ addrs -> returns (snd (ComputeSize (oat_dumper_ s) b))) ->
  NoDup (first_occurrences addrs (ComputeOatSize_session s addrs)) /\
  (forall a, a ∈ first_occurrences addrs (ComputeOatSize_session s addrs)
             <-> a ∈ addrs).
Proof.
  intros Hfresh Hret.
  destruct (first_occurrences_spec addrs s Hret) as [Hnd Hiff].
  split; [done|]. intros a. rewrite Hiff, Hfresh. set_solver.
Qed.

Lemma ComputeOatSize_flags_each_address_once_witness :
  NoDup (first_occurrences [0x1101; 0xa40; 0x1101]
           (ComputeOatSize_session sample_image_dumper [0x1101; 0xa40; 0x1101])) /\
  (forall a, a ∈ first_occurrences [0x1101; 0xa40; 0x1101]
                   (ComputeOatSize_session sample_image_dumper [0x1101; 0xa40; 0x1101])
             <-> a ∈ [0x1101; 0xa40; 0x1101]).
Proof.
  apply (ComputeOatSize_flags_each_address_once sample_image_dumper
           [0x1101; 0xa40; 0x1101]).
  - reflexivity.
  - intros b Hb. rewrite !elem_of_cons in Hb.
    destruct Hb as [->|[->|[->|Hb]]];
      [eexists; vm_compute; reflexivity ..|by apply elem_of_nil in Hb].
Defined.

(** ** Bit masks *)

Lemma land_pow2 a i :
  0 <= i -> Z.land a (2 ^ i) = if Z.testbit a i then 2 ^ i else 0.
Proof.
  intros Hi. apply Z.bits_inj'. intros n Hn.
  rewrite Z.land_spec, Z.pow2_bits_eqb by done.
  destruct (Z.eqb_spec i n) as [->|Hne].
  - destruct (Z.testbit a n); simpl.
    + by rewrite Z.pow2_bits_true.
    + by rewrite Z.bits_0.
  - rewrite andb_false_r. destruct (Z.testbit a i).
    + by rewrite Z.pow2_bits_false.
    + by rewrite Z.bits_0.
Qed.

Lemma lxor_pow2_bits a i n :
  0 <= i -> 0 <= n ->
  Z.testbit (Z.lxor a (2 ^ i)) n = xorb (Z.testbit a n) (i =? n).
Proof. intros Hi Hn. by rewrite Z.lxor_spec, Z.pow2_bits_eqb. Qed.

Lemma uint32_zero_bits a :
  is_uint32 a -> (forall k, 0 <= k < 32 -> Z.testbit a k = false) -> a = 0.
Proof.
  intros [H0 H1] Hbits. apply Z.bits_inj'. intros n Hn. rewrite Z.bits_0.
  destruct (Z_lt_dec n 32) as [Hlt|Hge]; [apply Hbits; lia|].
  destruct (Z.eq_dec a 0) as [->|Hne]; [apply Z.bits_0|].
  apply Z.bits_above_log2; [done|].
  assert (Z.log2 a < 32) by (apply Z.log2_lt_pow2; lia). lia.
Qed.

Lemma lxor_pow2_uint32 a i :
  is_uint32 a -> 0 <= i < 32 -> Z.testbit a i = true -> is_uint32 (Z.lxor a (2 ^ i)).
Proof.
  intros [H0 H1] Hi Hbit. unfold is_uint32.
  assert (Hnn : 0 <= Z.lxor a (2 ^ i)) by (apply Z.lxor_nonneg; split; intros; lia).
  split; [done|].
  destruct (Z.eq_dec (Z.lxor a (2 ^ i)) 0) as [->|Hne]; [lia|].
  apply Z.log2_lt_pow2; [lia|].
  destruct (Z_lt_dec (Z.log2 (Z.lxor a (2 ^ i))) 32) as [|Hge]; [done|exfalso].
  pose proof (Z.bit_log2 (Z.lxor a (2 ^ i)) ltac:(lia)) as Htop.
  rewrite lxor_pow2_bits in Htop by lia.
  destruct (Z.eqb_spec i (Z.log2 (Z.lxor a (2 ^ i)))) as [|_]; [lia|].
  rewrite xorb_false_r in Htop.
  destruct (Z.eq_dec a 0) as [->|Ha]; [by rewrite Z.bits_0 in Htop|].
  rewrite Z.bits_above_log2 in Htop; [done|lia|].
  assert (Z.log2 a < 32) by (apply Z.log2_lt_pow2; lia). lia.
Qed.

Lemma set_bits_cons mask i n :
  0 < n ->
  set_bits mask i n
  = if Z.testbit mask i then i :: set_bits mask (i + 1) (n - 1)
    else set_bits mask (i + 1) (n - 1).
Proof.
  intros Hn. unfold set_bits. rewrite seqZ_cons by done. cbn [List.filter].
  by rewrite Z.add_1_r, Z.sub_1_r.
Qed.

Lemma set_bits_ext m1 m2 i n :
  0 <= i ->
  (forall k, i <= k < i + n -> Z.testbit m1 k = Z.testbit m2 k) ->
  set_bits m1 i n = set_bits m2 i n.
Proof.
  intros Hi Hext. unfold set_bits. apply List.filter_ext_in.
  intros k Hk. apply Hext. apply list_elem_of_In, elem_of_seqZ in Hk. lia.
Qed.

Lemma set_bits_nil mask i n :
  (forall k, i <= k < i + n -> Z.testbit mask k = false) -> set_bits mask i n = [].
Proof.
  intros Hno. unfold set_bits.
  induction (seqZ i n) as [|k l IH] eqn:Hl in Hno |- *; [done|].
  assert (Hall : forall k', k' ∈ k :: l -> Z.testbit mask k' = false).
  { intros k' Hk'. apply Hno. rewrite <- Hl in Hk'. apply elem_of_seqZ in Hk'. lia. }
  clear Hno Hl IH. induction (k :: l) as [|x xs IH]; [done|]. simpl.
  rewrite (Hall x) by left. apply IH. intros k' Hk'. apply Hall. by right.
Qed.

Lemma set_bits_nil_inv mask i n k :
  set_bits mask i n = [] -> i <= k < i + n -> Z.testbit mask k = false.
Proof.
  intros Hnil Hk. destruct (Z.testbit mask k) eqn:Hbit; [exfalso|done].
  assert (Hin : k ∈ set_bits mask i n).
  { unfold set_bits. apply list_elem_of_In, List.filter_In.
    split; [|done]. apply list_elem_of_In, elem_of_seqZ. lia. }
  rewrite Hnil in Hin. by apply elem_of_nil in Hin.
Qed.

(** A non-zero 32-bit mask whose bits below [i] are clear has a set bit
    from [i] on. *)
Lemma set_bits_not_nil mask i n :
  is_uint32 mask -> mask <> 0 ->
  0 <= i -> i + n = 32 ->
  (forall k, 0 <= k < i -> Z.testbit mask k = false) ->
  set_bits mask i n <> [].
Proof.
  intros Hm Hnz Hi Hn Hlow Hnil. apply Hnz. apply uint32_zero_bits; [done|].
  intros k Hk. destruct (Z_lt_dec k i); [apply Hlow; lia|].
  apply (set_bits_nil_inv mask i n); [done|lia].
Qed.

(** The loop of [DumpSpillMask], from position [i] on: the bits below
    [i] have been cleared, and some bit is left. *)
Lemma DumpSpillMask_loop_spec is_float n : forall i spill_mask os,
  0 <= i -> i + Z.of_nat n = 32 ->
  is_uint32 spill_mask -> spill_mask <> 0 ->
  (forall k, 0 <= k < i -> Z.testbit spill_mask k = false) ->
  DumpSpillMask_loop n i spill_mask is_float os
  = (os ++ render_spills is_float (set_bits spill_mask i (Z.of_nat n)), Returns tt).
Proof.
  induction n as [|n IH]; intros i mask os Hi Hn Hm Hnz Hlow.
  { exfalso. apply Hnz. apply uint32_zero_bits; [done|]. intros k Hk. apply Hlow. lia. }
  cbn [DumpSpillMask_loop].
  assert (Hsh : wrap32 (Z.shiftl 1 i) = 2 ^ i).
  { rewrite Z.shiftl_1_l. apply wrap32_small. unfold is_uint32.
    split; [apply Z.pow_nonneg; lia|]. apply Z.pow_lt_mono_r; lia. }
  rewrite Hsh, land_pow2 by done.
  rewrite set_bits_cons by lia.
  replace (Z.of_nat (S n) - 1) with (Z.of_nat n) by lia.
  assert (Hpow : 0 < 2 ^ i) by (apply Z.pow_pos_nonneg; lia).
  destruct (Z.testbit mask i) eqn:Hbit.
  - destruct (Z.eqb_spec (2 ^ i) 0) as [|_]; [lia|]. cbn [negb].
    rewrite Dumping_bind_unfold.
    assert (Hput : (if is_float then put (Text "fr");; put (Num i)
                    else put (Text "r");; put (Num i)) os
                   = (os ++ render_spilled is_float i, Returns tt)).
    { unfold render_spilled. destruct is_float; rewrite !put_bind; unfold put;
        by rewrite <- app_assoc. }
    rewrite Hput. cbv zeta.
    assert (Hrest : set_bits mask (i + 1) (Z.of_nat n)
                    = set_bits (Z.lxor mask (2 ^ i)) (i + 1) (Z.of_nat n)).
    { apply set_bits_ext; [lia|]. intros k Hk. rewrite lxor_pow2_bits by lia.
      destruct (Z.eqb_spec i k); [lia|]. by rewrite xorb_false_r. }
    destruct (Z.eqb_spec (Z.lxor mask (2 ^ i)) 0) as [Hz|Hnz']; cbn [negb].
    + rewrite Hrest, Hz.
      rewrite set_bits_nil by (intros; apply Z.bits_0). done.
    + rewrite put_bind.
      rewrite IH; try lia; try done.
      * assert (Hclear : forall k, 0 <= k < i + 1 ->
                  Z.testbit (Z.lxor mask (2 ^ i)) k = false).
        { intros k Hk. rewrite lxor_pow2_bits by lia.
          destruct (Z.eqb_spec i k) as [<-|Hne]; [by rewrite Hbit|].
          rewrite xorb_false_r. apply Hlow. lia. }
        pose proof (set_bits_not_nil (Z.lxor mask (2 ^ i)) (i + 1) (Z.of_nat n)
                      (lxor_pow2_uint32 mask i Hm ltac:(lia) Hbit) Hnz'
                      ltac:(lia) ltac:(lia) Hclear) as Hne.
        rewrite <- Hrest in Hne |- *.
        destruct (set_bits mask (i + 1) (Z.of_nat n)) as [|r rs]; [done|].
        cbn [render_spills]. by rewrite <- !app_assoc.
      * by apply lxor_pow2_uint32; [|lia|].
      * intros k Hk. rewrite lxor_pow2_bits by lia.
        destruct (Z.eqb_spec i k) as [<-|Hne]; [by rewrite Hbit|].
        rewrite xorb_false_r. apply Hlow. lia.
  - rewrite Z.eqb_refl. cbn [negb].
    apply IH; try lia; try done.
    intros k Hk. destruct (Z.eq_dec k i) as [->|]; [done|]. apply Hlow. lia.
Qed.

(** X8. [DumpSpillMask] writes nothing for an empty mask and otherwise
    the registers of the set bits of the mask, lowest first, separated
    by commas and enclosed in parentheses. *)
Theorem DumpSpillMask_prints_set_bits spill_mask is_float os :
  is_uint32 spill_mask ->
  DumpSpillMask spill_mask is_float os
  = (os ++ render_spill_mask is_float spill_mask, Returns tt).
Proof.
  intros Hm. unfold DumpSpillMask, render_spill_mask.
  destruct (Z.eqb_spec spill_mask 0) as [->|Hnz].
  { unfold mret, Dumping_mret, Dumping_ret. by rewrite app_nil_r. }
  rewrite put_bind, Dumping_bind_unfold.
  rewrite (DumpSpillMask_loop_spec is_float 32 0 spill_mask); try done; try lia.
  unfold put. by rewrite <- !app_assoc.
Qed.

Lemma DumpSpillMask_prints_set_bits_witness :
  DumpSpillMask 0x4ff0 false []
  = ([] ++ render_spill_mask false 0x4ff0, Returns tt).
Proof.
  apply (DumpSpillMask_prints_set_bits 0x4ff0 false []). unfold is_uint32. lia.
Defined.

(** ** The gc map: [DumpGcMap] *)

Lemma low_bit_of_shift byte k :
  0 <= k -> negb (Z.land (Z.shiftr byte k) 1 =? 0) = Z.testbit byte k.
Proof.
  intros Hk. change 1 with (Z.ones 1). rewrite Z.land_ones by lia.
  change (2 ^ 1) with 2. rewrite <- Z.bit0_mod, Z.shiftr_spec by lia.
  rewrite Z.add_0_l. by destruct (Z.testbit byte k).
Qed.

Lemma DumpGcMap_regs_spec reg_bitmap n : forall reg first os,
  0 <= reg -> reg + Z.of_nat n <= 8 * Z.of_nat (length reg_bitmap) ->
  reg + Z.of_nat n < 2 ^ 32 ->
  DumpGcMap_regs n reg reg_bitmap first os
  = (os ++ render_live first
             (List.filter (fun reg => Z.testbit
                             (default 0 (reg_bitmap !! Z.to_nat (reg / 8))) (reg mod 8))
                          (seqZ reg (Z.of_nat n))),
     Returns tt).
Proof.
  induction n as [|n IH]; intros reg first os Hreg Hlen Hmax.
  { simpl. by rewrite app_nil_r. }
  cbn [DumpGcMap_regs].
  assert (Hidx : (Z.to_nat (reg / 8) < length reg_bitmap)%nat).
  { assert (reg / 8 < Z.of_nat (length reg_bitmap))
      by (apply Z.div_lt_upper_bound; lia).
    assert (0 <= reg / 8) by (apply Z.div_pos; lia). lia. }
  destruct (lookup_lt_is_Some_2 _ _ Hidx) as [byte Hbyte].
  rewrite (read_bind_Some _ _ _ byte) by done.
  rewrite low_bit_of_shift by (apply Z.mod_pos_bound; lia).
  rewrite seqZ_cons by lia. cbn [List.filter]. rewrite Hbyte.
  change (default 0 (Some byte)) with byte.
  rewrite wrap32_small by (unfold is_uint32; lia).
  replace (Z.pred (Z.of_nat (S n))) with (Z.of_nat n) by lia.
  replace (Z.succ reg) with (reg + 1) by lia.
  destruct (Z.testbit byte (reg mod 8)).
  - rewrite Dumping_bind_unfold.
    assert (Hput : (if first then put (Text "  v");; put (Num reg)
                    else put (Text ", v");; put (Num reg)) os
                   = (os ++ [Text (if first then "  v" else ", v"); Num reg],
                      Returns tt)).
    { destruct first; rewrite !put_bind; unfold put; by rewrite <- app_assoc. }
    rewrite Hput, IH by lia. cbn [render_live]. rewrite <- ?app_assoc. reflexivity.
  - apply IH; lia.
Qed.

Lemma for_each_concat {A} (body : Z -> A -> Dumping unit) (out : A -> list Item) l :
  (forall i x os, x ∈ l -> body i x os = (os ++ out x, Returns tt)) ->
  forall i os, for_each body i l os = (os ++ concat (out <$> l), Returns tt).
Proof.
  induction l as [|x l IH]; intros Hbody i os.
  { simpl. by rewrite app_nil_r. }
  cbn [for_each]. rewrite Dumping_bind_unfold, Hbody by left.
  rewrite IH by (intros; apply Hbody; by right).
  simpl. by rewrite <- app_assoc.
Qed.

(** X9. When every bitmap of the gc map has its [RegWidth] bytes,
    [DumpGcMap] returns, and for each entry it writes the native pc
    (the code address plus the offset of the entry) and then the
    registers whose bit is set in the bitmap, in increasing order. *)
Theorem DumpGcMap_prints_live_registers code map os :
  0 <= RegWidth map -> RegWidth map * 8 < 2 ^ 32 ->
  (forall entry, entry ∈ gc_map_entries map ->
                 RegWidth map <= Z.of_nat (length (snd entry))) ->
  DumpGcMap code (Some map) os
  = (os ++ concat (render_gc_entry code (RegWidth map) <$> gc_map_entries map),
     Returns tt).
Proof.
  intros Hw Hmax Hlen. unfold DumpGcMap.
  apply for_each_concat. intros i entry os' Hentry.
  rewrite put_bind. cbv zeta. rewrite Dumping_bind_unfold.
  rewrite wrap32_small by (unfold is_uint32; lia).
  specialize (Hlen entry Hentry).
  rewrite DumpGcMap_regs_spec by lia.
  rewrite Z2Nat.id by lia.
  unfold render_gc_entry, live_registers, put. by rewrite <- !app_assoc.
Qed.

Lemma DumpGcMap_prints_live_registers_witness :
  DumpGcMap 0x1100 (Some sample_gc_map) []
  = ([] ++ concat (render_gc_entry 0x1100 (RegWidth sample_gc_map)
                     <$> gc_map_entries sample_gc_map),
     Returns tt).
Proof.
  apply (DumpGcMap_prints_live_registers 0x1100 sample_gc_map []).
  - simpl. lia.
  - simpl. lia.
  - intros entry Hentry. simpl in Hentry. rewrite !elem_of_cons in Hentry.
    destruct Hentry as [->|[->|Hentry]]; [simpl; lia ..|by apply elem_of_nil in Hentry].
Defined.

Example DumpGcMap_sample :
  fst (DumpGcMap 0x1100 (Some sample_gc_map) [])
  = [Formatted "\t\t\t%p" [ArgPtr 0x1110]; Text "  v"; Num 0; Text ", v"; Num 2;
     Text "\n";
     Formatted "\t\t\t%p" [ArgPtr 0x1124]; Text "  v"; Num 7; Text ", v"; Num 8;
     Text "\n"].
Proof. vm_compute. reflexivity. Qed.

(** ** The pc mapping table: edge cases *)

Lemma render_loop_no_break code len P : forall todo j,
  (forall j', (j <= j' < j + length todo)%nat -> 2 * Z.of_nat j' + 2 <> P) ->
  len = 2 * Z.of_nat (j + length todo) ->
  render_loop code len P j todo = render_section code todo.
Proof.
  induction todo as [|p todo IH]; intros j HP Hlen; [done|].
  cbn [render_loop render_section]. simpl length in *.
  destruct (Z.eqb_spec (2 * Z.of_nat j + 2) P) as [He|_];
    [exfalso; apply (HP j); [lia|done]|].
  rewrite IH; [|intros j' Hj'; apply HP; lia|lia].
  destruct todo as [|q todo].
  - destruct (Z.ltb_spec (2 * Z.of_nat j + 2) len); [simpl in Hlen; lia|done].
  - destruct (Z.ltb_spec (2 * Z.of_nat j + 2) len); [done|simpl in Hlen; lia].
Qed.

(** X10. When [pc_to_dex_entries] is 0, odd, or greater than [length],
    the test [i + 2 == pc_to_dex_entries] never holds: all the pairs
    are written in one brace group, without a section break. *)
Theorem DumpMappingTable_without_section_break m t pairs P rest os :
  GetMappingTable m = Some t ->
  GetCode m <> 0 ->
  table_words t = 2 * Z.of_nat (length pairs) :: P :: flatten_pairs pairs ++ rest ->
  P = 0 \/ Z.odd P = true \/ 2 * Z.of_nat (length pairs) < P ->
  2 * Z.of_nat (length pairs) < 2 ^ 32 ->
  DumpMappingTable m os
  = (os ++ [Text "\t\t{"] ++ render_section (GetCode m) pairs ++ [Text "}\n"; Flush],
     Returns tt).
Proof.
  intros Ht Hcode Hwords HP Hmax. unfold DumpMappingTable.
  rewrite Ht. destruct (Z.eqb_spec (GetCode m) 0); [done|]. rewrite Hwords.
  rewrite put_bind. cbv beta. rewrite Dumping_bind_unfold.
  pose proof (DumpMappingTable_loop_spec (GetCode m)
                (2 * Z.of_nat (length pairs)) P rest pairs []
                (S (length (flatten_pairs pairs ++ rest))) (os ++ [Text "\t\t{"]))
    as Hloop.
  simpl app in Hloop. change (2 * Z.of_nat (@length (Z * Z) [])) with 0 in Hloop.
  rewrite Hloop; [|simpl; lia|done|rewrite length_app, flatten_pairs_length; lia].
  simpl length. rewrite render_loop_no_break; [|intros j' Hj'|simpl; lia].
  - rewrite !put_bind. unfold put. f_equal. by rewrite <- ?app_assoc.
  - intros He. destruct HP as [->|[Hodd|Hgt]]; [lia| |simpl in Hj'; lia].
    rewrite <- He in Hodd. rewrite Z.add_comm, Z.odd_add_mul_2 in Hodd. done.
Qed.

Lemma DumpMappingTable_without_section_break_witness :
  DumpMappingTable (with_mapping_table [4; 3; 0x10; 3; 0x20; 5]) []
  = ([] ++ [Text "\t\t{"] ++ render_section 0x1000 [(0x10, 3); (0x20, 5)]
        ++ [Text "}\n"; Flush],
     Returns tt).
Proof.
  apply (DumpMappingTable_without_section_break
           (with_mapping_table [4; 3; 0x10; 3; 0x20; 5])
           {| table_address := 0xa00; table_words := [4; 3; 0x10; 3; 0x20; 5] |}
           [(0x10, 3); (0x20, 5)] 3 [] []).
  - reflexivity.
  - simpl. lia.
  - reflexivity.
  - right. left. reflexivity.
  - simpl. lia.
Defined.

Lemma read_bind_None {B} what a k (f : Z -> Dumping B) os :
  a !! Z.to_nat k = None -> (read what a k ≫= f) os = (os, UndefinedBehaviour what).
Proof. intros H. unfold read. rewrite H. reflexivity. Qed.

(** A table with fewer words than its [length] says is read past its
    end. *)
Lemma DumpMappingTable_loop_short code raw len P fuel : forall i os,
  0 <= i <= Z.of_nat (length raw) ->
  Z.of_nat (length raw) < len -> len < 2 ^ 32 ->
  Z.of_nat (length raw) - i < 2 * Z.of_nat fuel ->
  snd (DumpMappingTable_loop fuel code raw len P i os)
  = UndefinedBehaviour "raw_table".
Proof.
  induction fuel as [|fuel IH]; intros i os Hi Hlen Hmax Hfuel; [lia|].
  cbn [DumpMappingTable_loop].
  destruct (Z.ltb_spec i len); [|lia].
  destruct (raw !! Z.to_nat i) as [offset|] eqn:H0;
    [|by rewrite read_bind_None by done].
  rewrite (read_bind_Some _ _ _ offset) by done. cbv zeta.
  destruct (raw !! Z.to_nat (i + 1)) as [dex_pc|] eqn:H1;
    [|by rewrite read_bind_None by done].
  rewrite (read_bind_Some _ _ _ dex_pc), put_bind by done.
  apply lookup_lt_Some in H1.
  rewrite wrap32_small by (unfold is_uint32; lia).
  rewrite Dumping_bind_unfold.
  destruct (_ =? P); [unfold put; apply IH; lia|].
  destruct (_ <? len); [unfold put; apply IH; lia|].
  unfold mret, Dumping_mret, Dumping_ret. apply IH; lia.
Qed.

(** X11. A mapping table that holds fewer words than its [length] field
    counts is read past its end: the behaviour is undefined, there is no
    bounds check that would stop the dump of the method. *)
Theorem DumpMappingTable_reads_past_short_table m t len P raw os :
  GetMappingTable m = Some t ->
  GetCode m <> 0 ->
  table_words t = len :: P :: raw ->
  Z.of_nat (length raw) < len < 2 ^ 32 ->
  snd (DumpMappingTable m os) = UndefinedBehaviour "raw_table".
Proof.
  intros Ht Hcode Hwords Hlen. unfold DumpMappingTable.
  rewrite Ht. destruct (Z.eqb_spec (GetCode m) 0); [done|]. rewrite Hwords.
  rewrite put_bind. cbv beta. rewrite Dumping_bind_unfold.
  pose proof (DumpMappingTable_loop_short (GetCode m) raw len P (S (length raw)) 0
                (os ++ [Text "\t\t{"])) as Hloop.
  destruct (DumpMappingTable_loop _ _ _ _ _ _ _) as [os' o].
  simpl in Hloop. rewrite Hloop; [done|lia|lia|lia|lia].
Qed.

Lemma DumpMappingTable_reads_past_short_table_witness :
  snd (DumpMappingTable (with_mapping_table [8; 4; 0x10; 3; 0x20; 5]) [])
  = UndefinedBehaviour "raw_table".
Proof.
  apply (DumpMappingTable_reads_past_short_table
           (with_mapping_table [8; 4; 0x10; 3; 0x20; 5])
           {| table_address := 0xa00; table_words := [8; 4; 0x10; 3; 0x20; 5] |}
           8 4 [0x10; 3; 0x20; 5] []).
  - reflexivity.
  - simpl. lia.
  - reflexivity.
  - simpl. lia.
Defined.

(** ** The report of a well-formed oat file *)

Lemma put_returns i os : returns (snd (put i os)).
Proof. by exists tt. Qed.

Lemma mret_returns {A} (a : A) os : returns (snd ((mret a : Dumping A) os)).
Proof. by exists a. Qed.

Lemma bind_returns {A B} (m : Dumping A) (k : A -> Dumping B) os :
  returns (snd (m os)) ->
  (forall a os', returns (snd (k a os'))) ->
  returns (snd ((m ≫= k) os)).
Proof.
  intros [a Ha] Hk. rewrite Dumping_bind_unfold.
  destruct (m os) as [os' o]. simpl in Ha. subst o. apply Hk.
Qed.

Lemma for_each_returns {A} (body : Z -> A -> Dumping unit) l :
  (forall i x os, x ∈ l -> returns (snd (body i x os))) ->
  forall i os, returns (snd (for_each body i l os)).
Proof.
  induction l as [|x l IH]; intros Hbody i os; [by exists tt|].
  cbn [for_each]. apply bind_returns; [apply Hbody; left|].
  intros _ os'. apply IH. intros; apply Hbody; by right.
Qed.

Ltac returns_step :=
  lazymatch goal with
  | |- returns (snd (put _ _)) => apply put_returns
  | |- returns (snd (mret _ _)) => apply mret_returns
  | |- returns (snd (mbind _ _ _)) => apply bind_returns; [|intros ? ?; cbv beta]
  end.

Ltac returns_steps := repeat returns_step.

Lemma DumpSpillMask_returns spill_mask is_float os :
  is_uint32 spill_mask -> returns (snd (DumpSpillMask spill_mask is_float os)).
Proof.
  intros Hm. unfold DumpSpillMask.
  destruct (Z.eqb_spec spill_mask 0); [apply mret_returns|].
  returns_steps.
  rewrite DumpSpillMask_loop_spec; [by exists tt|lia|lia|done|done|intros; lia].
Qed.

Lemma DumpMappingTable_loop_returns code raw len P fuel : forall i os,
  0 <= i <= len -> Z.even (len - i) = true ->
  len <= Z.of_nat (length raw) -> len < 2 ^ 32 ->
  len - i < 2 * Z.of_nat fuel ->
  returns (snd (DumpMappingTable_loop fuel code raw len P i os)).
Proof.
  induction fuel as [|fuel IH]; intros i os Hi Heven Hlen Hmax Hfuel; [lia|].
  cbn [DumpMappingTable_loop].
  destruct (Z.ltb_spec i len); [|apply mret_returns].
  assert (i + 2 <= len) as Hnext.
  { destruct (Z.eq_dec (len - i) 1) as [He|]; [by rewrite He in Heven|lia]. }
  destruct (lookup_lt_is_Some_2 raw (Z.to_nat i)) as [offset H0]; [lia|].
  destruct (lookup_lt_is_Some_2 raw (Z.to_nat (i + 1))) as [dex_pc H1]; [lia|].
  rewrite (read_bind_Some _ _ _ offset) by done. cbv zeta.
  rewrite (read_bind_Some _ _ _ dex_pc), put_bind by done.
  rewrite wrap32_small by (unfold is_uint32; lia).
  assert (forall os', returns (snd (DumpMappingTable_loop fuel code raw len P (i + 2) os')))
    as Hrest.
  { intros os'. apply IH; [lia| |done|done|lia].
    replace (len - (i + 2)) with (len - i + 2 * (-1)) by lia.
    by rewrite Z.even_add_mul_2. }
  apply bind_returns; [|intros; apply Hrest].
  destruct (_ =? P); [apply put_returns|].
  destruct (_ <? len); [apply put_returns|apply mret_returns].
Qed.

Lemma DumpMappingTable_returns m os :
  well_formed_mapping_table m -> returns (snd (DumpMappingTable m os)).
Proof.
  intros Hwf. unfold DumpMappingTable.
  destruct (GetMappingTable m) as [t|] eqn:Ht; [|apply mret_returns].
  destruct (Z.eqb_spec (GetCode m) 0) as [|Hcode]; [apply mret_returns|].
  destruct (Hwf t Ht Hcode) as (len & P & raw & -> & Heven & Hlen & Hmax).
  returns_steps.
  apply DumpMappingTable_loop_returns; [lia|by rewrite Z.sub_0_r|lia|done|lia].
Qed.

Lemma DumpVmap_returns m os :
  vmap_in_range m -> ~ malformed_vmap m ->
  returns (snd (DumpVmap (GetVmapTable m) (GetCoreSpillMask m) (GetFpSpillMask m) os)).
Proof.
  intros (Hcore & Hfp & Hlen) Hwf.
  destruct (GetVmapTable m) as [t|] eqn:Ht; [|apply mret_returns].
  rewrite DumpVmap_spec by auto.
  destruct (decode_entries_is_Some
              (spill_stream (GetCoreSpillMask m) (GetFpSpillMask m))
              arm_register (vmap_entries t) 0) as [es ->]; [|by exists tt].
  intros i Hi. simpl.
  destruct (nth_set_bit i _) eqn:Hnth; [done|].
  exfalso. apply Hwf. by exists t, i.
Qed.

Lemma DumpGcMap_returns m os :
  well_formed_gc_map m ->
  returns (snd (DumpGcMap (GetCode m) (GetNativeGcMap m) os)).
Proof.
  intros Hwf. unfold DumpGcMap.
  destruct (GetNativeGcMap m) as [map|] eqn:Hmap; [|apply mret_returns].
  destruct (Hwf map Hmap) as (Hw & Hmax & Hlen).
  apply for_each_returns. intros _ entry os' Hentry.
  returns_steps.
  rewrite wrap32_small by (unfold is_uint32; lia).
  rewrite DumpGcMap_regs_spec; [by exists tt|lia| |].
  - specialize (Hlen entry Hentry). lia.
  - lia.
Qed.

Lemma DumpCode_returns code code_size os : returns (snd (DumpCode code code_size os)).
Proof. unfold DumpCode. destruct (_ || _); [apply mret_returns|apply put_returns]. Qed.

Lemma DumpOatMethod_returns i m idx os :
  well_formed_method m -> returns (snd (DumpOatMethod i m idx os)).
Proof.
  intros (Hrange & Hvmap & Hmapping & Hgc). unfold DumpOatMethod.
  pose proof Hrange as (Hcore & Hfp & _).
  repeat
    lazymatch goal with
    | |- returns (snd (DumpCode _ _ _)) => apply DumpCode_returns
    | |- returns (snd (DumpSpillMask _ _ _)) => apply DumpSpillMask_returns; assumption
    | |- returns (snd (DumpMappingTable _ _)) => apply DumpMappingTable_returns; assumption
    | |- returns (snd (DumpVmap _ _ _ _)) => apply DumpVmap_returns; assumption
    | |- returns (snd (DumpGcMap _ _ _)) => apply DumpGcMap_returns; assumption
    | |- _ => returns_step
    end.
Qed.

Lemma DumpOatClass_returns c os :
  (forall cm, cm ∈ class_methods c -> well_formed_method (oat_method cm)) ->
  returns (snd (DumpOatClass c os)).
Proof.
  unfold DumpOatClass, class_methods. intros Hwf.
  destruct (GetClassData c) as [cd|]; [|apply mret_returns].
  apply bind_returns.
  { apply for_each_returns. intros i cm os' Hcm. unfold DumpOatClass_method.
    apply (DumpOatMethod_returns i (oat_method cm) (GetMemberIndex cm) os'), Hwf.
    apply elem_of_app. by left. }
  intros _ os1. apply bind_returns; [|intros; apply put_returns].
  apply for_each_returns. intros i cm os' Hcm. unfold DumpOatClass_method.
  apply (DumpOatMethod_returns i (oat_method cm) (GetMemberIndex cm) os'), Hwf.
  apply elem_of_app. by right.
Qed.

Lemma DumpOatDexFile_returns odf os :
  (forall cm, cm ∈ dex_file_methods odf -> well_formed_method (oat_method cm)) ->
  returns (snd (DumpOatDexFile odf os)).
Proof.
  unfold DumpOatDexFile, dex_file_methods. intros Hwf.
  destruct (OpenDexFile odf) as [dex_file|]; [|returns_steps].
  returns_steps.
  apply for_each_returns. intros i c os_class Hc.
  returns_steps.
  apply DumpOatClass_returns. intros cm Hcm. apply Hwf.
  apply list_elem_of_bind. by exists c.
Qed.

(** X12. The report of an oat file all of whose methods are well formed
    is written to its end: no check fails and no table is read past its
    end. *)
Theorem Dump_returns_on_well_formed_file d os :
  (forall m, m ∈ dumped_methods (oat_file_ d) -> well_formed_method m) ->
  returns (snd (Dump d os)).
Proof.
  intros Hwf. unfold Dump. cbv zeta.
  repeat
    lazymatch goal with
    | |- returns (snd ((if ?c then _ else _) _)) => destruct c
    | |- _ => returns_step
    end.
  apply for_each_returns. intros _ odf os_dex Hodf.
  apply DumpOatDexFile_returns. intros cm Hcm. apply Hwf.
  unfold dumped_methods. apply list_elem_of_fmap. exists cm. split; [done|].
  apply list_elem_of_bind. by exists odf.
Qed.

Lemma sample_method_well_formed : well_formed_method sample_method.
Proof.
  split; [|split; [|split]].
  - split; [|split]; try (unfold is_uint32; simpl; lia).
    intros t [= <-]. simpl. lia.
  - intros (t & i & Ht & Hi & Hnone). injection Ht as <-.
    destruct i as [|[|i]]; [discriminate Hnone|discriminate Hnone|simpl in Hi; lia].
  - intros t [= <-] _. exists 8, 4, [0x10; 3; 0x20; 5; 3; 0x10; 5; 0x20].
    split; [reflexivity|]. split; [reflexivity|]. simpl. lia.
  - intros map [=].
Qed.

Lemma Dump_returns_on_well_formed_file_witness :
  returns (snd (Dump sample_dumper [])).
Proof.
  apply (Dump_returns_on_well_formed_file sample_dumper []).
  intros m Hm. apply list_elem_of_singleton in Hm as ->.
  apply sample_method_well_formed.
Defined.

(** ** The bytes of the objects, per class and in total *)

Lemma wrap32_add_l a b : wrap32 (wrap32 a + b) = wrap32 (a + b).
Proof. unfold wrap32. apply Zplus_mod_idemp_l. Qed.

Lemma wrap32_add_r a b : wrap32 (a + wrap32 b) = wrap32 (a + b).
Proof. unfold wrap32. apply Zplus_mod_idemp_r. Qed.

Lemma object_bytes_total_insert (t : SizeAndCountTable) d it :
  t !! d = None ->
  object_bytes_total (<[d := it]> t) = wrap32 (object_bytes_total t + bytes it).
Proof.
  intros Hd. unfold object_bytes_total.
  apply (map_fold_insert_L (M := gmap string)
           (fun (_ : string) it total => wrap32 (total + bytes it))); [|done].
  intros j1 j2 z1 z2 y _ _ _. rewrite !wrap32_add_l. f_equal. lia.
Qed.

Lemma object_bytes_total_replace (t : SizeAndCountTable) d old new :
  t !! d = Some old ->
  wrap32 (object_bytes_total (<[d := new]> t) + bytes old)
  = wrap32 (object_bytes_total t + bytes new).
Proof.
  intros Hd.
  rewrite <- (insert_delete_id t d old Hd) at 2.
  rewrite <- (insert_delete_eq t d new).
  rewrite !object_bytes_total_insert by apply lookup_delete_eq.
  rewrite !wrap32_add_l. f_equal. lia.
Qed.

Lemma object_bytes_total_range (t : SizeAndCountTable) :
  is_uint32 (object_bytes_total t).
Proof.
  unfold object_bytes_total.
  apply (map_fold_weak_ind (fun r _ => is_uint32 r)).
  - unfold is_uint32. lia.
  - intros. apply wrap32_range.
Qed.

Lemma object_bytes_total_Update t d n :
  object_bytes_total (Update d n t) = wrap32 (object_bytes_total t + n).
Proof.
  unfold Update. destruct (t !! d) as [it|] eqn:Hd.
  - pose proof (object_bytes_total_replace t d it
                  {| bytes := wrap32 (bytes it + n); count := wrap32 (count it + 1) |} Hd)
      as H.
    cbn [bytes] in H.
    rewrite <- (wrap32_small (object_bytes_total (<[d:=_]> t)))
      by apply object_bytes_total_range.
    transitivity (wrap32 (wrap32 (object_bytes_total
                    (<[d:={| bytes := wrap32 (bytes it + n);
                             count := wrap32 (count it + 1) |}]> t) + bytes it)
                          - bytes it)).
    { rewrite <- (Z.add_opp_r (wrap32 _)), wrap32_add_l. f_equal. lia. }
    rewrite H, wrap32_add_r.
    rewrite <- (Z.add_opp_r (wrap32 _)), wrap32_add_l. f_equal. lia.
  - by rewrite object_bytes_total_insert.
Qed.

Lemma Walk_snoc objs obj s :
  Walk (objs ++ [obj]) s = Callback_object_bytes obj (Walk objs s).
Proof. unfold Walk. by rewrite foldl_app. Qed.

Lemma Walk_total objs :
  object_bytes_total (sizes_and_counts (Walk objs new_ObjectStats))
  = object_bytes (Walk objs new_ObjectStats).
Proof.
  induction objs as [|obj objs IH] using rev_ind; [done|].
  rewrite Walk_snoc. unfold Callback_object_bytes.
  destruct (InDumpSpace obj); [|done]. cbn [negb object_bytes sizes_and_counts].
  by rewrite object_bytes_total_Update, IH.
Qed.

(** X13. The check [CHECK_EQ(object_bytes, object_bytes_total)] of
    [Stats::Dump] passes after every walk: the bytes that [Update] has
    filed under the class descriptors add up to the bytes that
    [Callback] has counted, whatever the objects and also when the
    counters wrap around. *)
Theorem Dump_object_bytes_check_passes objs :
  Dump_object_bytes_check (Walk objs new_ObjectStats) = Returns tt.
Proof.
  unfold Dump_object_bytes_check. rewrite Walk_total.
  by rewrite Z.eqb_refl.
Qed.

Lemma objects_of_snoc d objs obj :
  objects_of d (objs ++ [obj])
  = objects_of d objs
    ++ (if InDumpSpace obj && String.eqb (GetDescriptor obj) d then [obj] else []).
Proof. unfold objects_of. rewrite List.filter_app. simpl. by destruct (_ && _). Qed.

Lemma Zsum_snoc l x : Zsum (l ++ [x]) = Zsum l + x.
Proof. unfold Zsum. induction l as [|y l IH]; simpl; [lia|]. rewrite IH. lia. Qed.

(** X14. After a walk, the table has an entry for a descriptor exactly
    when some object of the dump space has it; the entry holds the sum
    of the sizes of these objects and their number, both modulo 2^32. *)
Theorem Walk_counts_per_descriptor objs d :
  Forall (fun obj => is_uint32 (SizeOf obj)) objs ->
  sizes_and_counts (Walk objs new_ObjectStats) !! d
  = match objects_of d objs with
    | [] => None
    | these =>
        Some {| bytes := wrap32 (Zsum (SizeOf <$> these));
                count := wrap32 (Z.of_nat (length these)) |}
    end.
Proof.
  induction objs as [|obj objs IH] using rev_ind; intros Hsizes; [done|].
  apply Forall_app in Hsizes as [Hsizes Hobj].
  inversion Hobj as [|? ? Hsize _]; subst. specialize (IH Hsizes).
  rewrite Walk_snoc, objects_of_snoc. unfold Callback_object_bytes.
  destruct (InDumpSpace obj); cbn [negb andb];
    [|rewrite app_nil_r; exact IH].
  cbn [sizes_and_counts]. unfold Update.
  destruct (String.eqb_spec (GetDescriptor obj) d) as [->|Hne].
  - rewrite IH. destruct (objects_of d objs) as [|o these] eqn:Hthese; cbv beta iota zeta.
    + rewrite lookup_insert_eq. cbn [app fmap list_fmap length].
      unfold Zsum. cbn [foldr]. rewrite Z.add_0_r, wrap32_small by done.
      reflexivity.
    + rewrite lookup_insert_eq. cbn [bytes count].
      rewrite !wrap32_add_l. cbn [app]. f_equal. f_equal; f_equal.
      * rewrite !fmap_cons, fmap_app, app_comm_cons. apply eq_sym, Zsum_snoc.
      * rewrite !length_cons, length_app. simpl. lia.
  - rewrite app_nil_r.
    destruct (sizes_and_counts (Walk objs new_ObjectStats) !! GetDescriptor obj);
      by rewrite lookup_insert_ne.
Qed.

Lemma Walk_counts_per_descriptor_witness :
  sizes_and_counts (Walk sample_objects new_ObjectStats) !! "Ljava/lang/String;"
  = Some {| bytes := wrap32 (Zsum [16; 32]); count := wrap32 2 |}.
Proof.
  apply (Walk_counts_per_descriptor sample_objects "Ljava/lang/String;").
  repeat constructor; unfold is_uint32; simpl; lia.
Defined.

(** ** The runs of an object array *)

Lemma Callback_run_spec value : forall rest run,
  0 <= run -> run + Z.of_nat (length rest) < 2 ^ 32 ->
  exists k : nat,
    Callback_run value rest run = run + Z.of_nat k /\
    (k <= length rest)%nat /\
    take k rest = replicate k value /\
    rest !! k <> Some value.
Proof.
  induction rest as [|x rest IH]; intros run Hrun Hmax.
  { exists 0%nat. simpl. repeat split; [lia|lia|done]. }
  cbn [Callback_run]. simpl length in Hmax.
  destruct (Z.eqb_spec value x) as [<-|Hne].
  - rewrite wrap32_small by (unfold is_uint32; lia).
    destruct (IH (run + 1)) as (k & Hk & Hlen & Htake & Hnext); [lia|lia|].
    exists (S k). rewrite Hk. simpl. rewrite Htake. repeat split; [lia|lia|done].
  - exists 0%nat. simpl. repeat split; [lia|lia|congruence].
Qed.

Lemma Callback_elements_spec obj_array :
  Z.of_nat (length obj_array) < 2 ^ 31 ->
  forall fuel i summary,
    0 <= i <= Z.of_nat (length obj_array) ->
    Z.of_nat (length obj_array) - i < Z.of_nat fuel ->
    exists out,
      Callback_elements fuel obj_array i summary = Returns (summary ++ out) /\
      expand_summary i out = Some (drop (Z.to_nat i) obj_array) /\
      head (summary_values out) = obj_array !! Z.to_nat i /\
      no_repeat (summary_values out).
Proof.
  intros Hlen. induction fuel as [|fuel IH]; intros i summary Hi Hfuel; [lia|].
  cbn [Callback_elements].
  destruct (Z.ltb_spec i (Z.of_nat (length obj_array))) as [Hlt|Hge].
  2:{ exists []. rewrite app_nil_r, drop_ge by lia.
      repeat split. simpl. symmetry. apply lookup_ge_None. lia. }
  destruct (lookup_lt_is_Some_2 obj_array (Z.to_nat i)) as [value Hvalue]; [lia|].
  rewrite Hvalue.
  replace (Z.to_nat (i + 1)) with (S (Z.to_nat i)) by lia.
  destruct (Callback_run_spec value (drop (S (Z.to_nat i)) obj_array) 0)
    as (k & Hrun & Hk & Htake & Hnext); [lia|rewrite length_drop; lia|].
  rewrite length_drop in Hk. rewrite Hrun, Z.add_0_l.
  rewrite lookup_drop in Hnext.
  replace (S (Z.to_nat i) + k)%nat with (Z.to_nat (i + Z.of_nat k + 1)) in Hnext by lia.
  assert (drop (Z.to_nat i) obj_array
          = replicate (S k) value ++ drop (Z.to_nat (i + Z.of_nat k + 1)) obj_array)
    as Hdrop.
  { rewrite (drop_S _ _ _ Hvalue). cbn [replicate app]. f_equal.
    rewrite <- (take_drop k (drop (S (Z.to_nat i)) obj_array)) at 1.
    rewrite Htake, drop_drop. do 2 f_equal. lia. }
  destruct k as [|k].
  - change (Z.of_nat 0 =? 0) with true. cbv beta iota zeta.
    destruct (IH (i + 1) ((summary ++ [Appended "\t%d: " [ArgInt i]])
                            ++ [ObjectValue value]))
      as (out & Hout & Hexp & Hhead & Hrep); [lia|lia|].
    exists (Appended "\t%d: " [ArgInt i] :: ObjectValue value :: out).
    split; [|split; [|split]].
    + rewrite Hout. by rewrite <- !app_assoc.
    + cbn [expand_summary]. rewrite Z.eqb_refl, Hexp, Hdrop. simpl.
      do 3 f_equal. lia.
    + done.
    + change (summary_values (Appended "\t%d: " [ArgInt i] :: ObjectValue value :: out))
        with (value :: summary_values out).
      replace (i + Z.of_nat 0 + 1) with (i + 1) in Hnext by lia.
      rewrite <- Hhead in Hnext.
      destruct (summary_values out) as [|y values]; [done|].
      split; [|done]. simpl in Hnext. congruence.
  - destruct (Z.eqb_spec (Z.of_nat (S k)) 0); [lia|].
    rewrite wrap32_small by (unfold is_uint32; lia). cbv beta iota zeta.
    destruct (IH (i + Z.of_nat (S k) + 1)
                ((summary ++ [Appended "\t%d to %zd: "
                                [ArgInt i; ArgInt (i + Z.of_nat (S k))]])
                   ++ [ObjectValue value]))
      as (out & Hout & Hexp & Hhead & Hrep); [lia|lia|].
    exists (Appended "\t%d to %zd: " [ArgInt i; ArgInt (i + Z.of_nat (S k))]
              :: ObjectValue value :: out).
    split; [|split; [|split]].
    + rewrite Hout. by rewrite <- !app_assoc.
    + cbn [expand_summary]. rewrite Z.eqb_refl.
      destruct (Z.ltb_spec i (i + Z.of_nat (S k))); [|lia]. cbn [andb].
      rewrite Hexp, Hdrop.
      replace (Z.to_nat (i + Z.of_nat (S k) - i + 1)) with (S (S k)) by lia.
      reflexivity.
    + done.
    + change (summary_values (Appended "\t%d to %zd: "
                                [ArgInt i; ArgInt (i + Z.of_nat (S k))]
                              :: ObjectValue value :: out))
        with (value :: summary_values out).
      rewrite <- Hhead in Hnext.
      destruct (summary_values out) as [|y values]; [done|].
      split; [|done]. simpl in Hnext. congruence.
Qed.

(** X15. The loop of [Callback] over an object array writes it in runs
    that can be read back: expanding every single index to one element
    and every range [i to j] to [j - i + 1] copies of its value gives
    the array again, and the indices follow one another from 0. *)
Theorem Callback_object_array_round_trip obj_array summary :
  Z.of_nat (length obj_array) < 2 ^ 31 ->
  exists out,
    Callback_object_array obj_array summary = Returns (summary ++ out) /\
    expand_summary 0 out = Some obj_array.
Proof.
  intros Hlen. unfold Callback_object_array.
  destruct (Callback_elements_spec obj_array Hlen (S (length obj_array)) 0 summary)
    as (out & Hout & Hexp & _); [lia|lia|].
  by exists out.
Qed.

Lemma Callback_object_array_round_trip_witness :
  exists out,
    Callback_object_array [0; 0; 0; 0x7000; 0x7010; 0x7010] [] = Returns ([] ++ out) /\
    expand_summary 0 out = Some [0; 0; 0; 0x7000; 0x7010; 0x7010].
Proof.
  apply (Callback_object_array_round_trip [0; 0; 0; 0x7000; 0x7010; 0x7010] []).
  simpl. lia.
Defined.

(** X16. The runs are maximal: no two entries that follow one another
    in the summary of an object array have the same value. *)
Theorem Callback_object_array_runs_are_maximal obj_array summary :
  Z.of_nat (length obj_array) < 2 ^ 31 ->
  exists out,
    Callback_object_array obj_array summary = Returns (summary ++ out) /\
    no_repeat (summary_values out).
Proof.
  intros Hlen. unfold Callback_object_array.
  destruct (Callback_elements_spec obj_array Hlen (S (length obj_array)) 0 summary)
    as (out & Hout & _ & _ & Hrep); [lia|lia|].
  by exists out.
Qed.

Lemma Callback_object_array_runs_are_maximal_witness :
  exists out,
    Callback_object_array [0; 0; 0; 0x7000; 0x7010; 0x7010] [] = Returns ([] ++ out) /\
    no_repeat (summary_values out).
Proof.
  apply (Callback_object_array_runs_are_maximal [0; 0; 0; 0x7000; 0x7010; 0x7010] []).
  simpl. lia.
Defined.

(** What the loop writes for an array with two runs and a single
    element between them. *)
Example Callback_object_array_sample :
  Callback_object_array [0; 0; 0; 0x7000; 0x7010; 0x7010] []
  = Returns [Appended "\t%d to %zd: " [ArgInt 0; ArgInt 2]; ObjectValue 0;
             Appended "\t%d: " [ArgInt 3]; ObjectValue 0x7000;
             Appended "\t%d to %zd: " [ArgInt 4; ArgInt 5]; ObjectValue 0x7010].
Proof. vm_compute. reflexivity. Qed.

(** ** The command line *)

Lemma starts_with_inv prefix : forall option,
  starts_with prefix option = true -> exists rest, option = prefix +:+ rest.
Proof.
  unfold starts_with.
  induction prefix as [|a prefix IH]; intros option H; [by exists option|].
  destruct option as [|b option]; [done|]. simpl in H.
  destruct (Ascii.ascii_dec a b) as [->|]; [|done].
  destruct (IH option H) as [rest ->]. by exists rest.
Qed.

(** The five prefixes exclude one another: which of them an option
    starts with is decided by its first characters. *)
Ltac decide_prefixes :=
  repeat match goal with
         | |- context [starts_with ?p (?q +:+ ?rest)] =>
             first [ change (starts_with p (q +:+ rest)) with false
                   | change (starts_with p (q +:+ rest)) with true ]
         | H : context [starts_with ?p (?q +:+ ?rest)] |- _ =>
             first [ change (starts_with p (q +:+ rest)) with false in H
                   | change (starts_with p (q +:+ rest)) with true in H ]
         end.

Lemma last_is_Some_cons {A} (x : A) l : exists y, last (x :: l) = Some y.
Proof.
  revert x. induction l as [|z l IH]; intros x; [by exists x|].
  destruct (IH z) as [y Hy]. exists y. exact Hy.
Qed.

Lemma last_value_cons prefix option argv :
  last_value prefix (option :: argv)
  = if starts_with prefix option
    then Some (default (substr prefix option) (last_value prefix argv))
    else last_value prefix argv.
Proof.
  unfold last_value. cbn [List.filter].
  destruct (starts_with prefix option); [|done].
  rewrite fmap_cons.
  destruct (substr prefix <$> List.filter (starts_with prefix) argv) as [|x l]; [done|].
  change (last (substr prefix option :: x :: l)) with (last (x :: l)).
  destruct (last_is_Some_cons x l) as [y ->]. done.
Qed.


Lemma parse_options_accepted good argv : forall o,
  forallb (accepted good) argv = true ->
  parse_options good argv o = inl (set_Options argv o).
Proof.
  induction argv as [|option argv IH]; intros o Hacc.
  { by destruct o. }
  cbn [forallb] in Hacc. apply andb_prop in Hacc as [Hopt Hacc].
  cbn [parse_options]. unfold set_Options. rewrite !last_value_cons.
  unfold accepted in Hopt.
  destruct (starts_with "--oat-file=" option) eqn:H1;
    [apply starts_with_inv in H1 as [rest ->]
    |destruct (starts_with "--image=" option) eqn:H2;
      [apply starts_with_inv in H2 as [rest ->]
      |destruct (starts_with "--boot-image=" option) eqn:H3;
        [apply starts_with_inv in H3 as [rest ->]
        |destruct (starts_with "--host-prefix=" option) eqn:H4;
          [apply starts_with_inv in H4 as [rest ->]
          |destruct (starts_with "--output=" option) eqn:H5;
            [apply starts_with_inv in H5 as [rest ->]|done]]]]];
    decide_prefixes.
  5:{ cbn [orb andb] in Hopt. rewrite Hopt. rewrite (IH _ Hacc). unfold set_Options.
      cbn [oat_filename image_filename boot_image_filename host_prefix out].
      f_equal. f_equal. by destruct (last_value "--output=" argv). }
  all: rewrite (IH _ Hacc); unfold set_Options;
    cbn [oat_filename image_filename boot_image_filename host_prefix out];
    f_equal; f_equal.
  - by destruct (last_value "--oat-file=" argv).
  - by destruct (last_value "--image=" argv).
  - by destruct (last_value "--boot-image=" argv).
  - by destruct (last_value "--host-prefix=" argv).
Qed.

Lemma parse_options_rejected good argv : forall o,
  forallb (accepted good) argv = false ->
  exists message, parse_options good argv o = inr message.
Proof.
  induction argv as [|option argv IH]; intros o Hrej; [done|].
  cbn [forallb] in Hrej. cbn [parse_options].
  unfold accepted in Hrej.
  destruct (starts_with "--oat-file=" option); [apply IH, Hrej|].
  destruct (starts_with "--image=" option); [apply IH, Hrej|].
  destruct (starts_with "--boot-image=" option); [apply IH, Hrej|].
  destruct (starts_with "--host-prefix=" option); [apply IH, Hrej|].
  destruct (starts_with "--output=" option); [|by eexists].
  cbn [orb andb] in Hrej. cbv zeta.
  destruct (good (substr "--output=" option)); [apply IH, Hrej|by eexists].
Qed.

Lemma existsb_last_value prefix argv :
  existsb (starts_with prefix) argv
  = match last_value prefix argv with Some _ => true | None => false end.
Proof.
  induction argv as [|option argv IH]; [done|].
  rewrite last_value_cons. cbn [existsb].
  by destruct (starts_with prefix option).
Qed.

(** X17. An argument that is none of the five options, or an
    [--output=] whose file cannot be opened, ends the run with the usage
    text, wherever it stands on the command line and whatever the other
    arguments are. *)
Theorem oatdump_rejects_command_line good android_product_out OatFile_Open
    Runtime_Create argv :
  forallb (accepted good) argv = false ->
  exists message,
    oatdump good android_product_out OatFile_Open Runtime_Create argv = usage message.
Proof.
  intros Hrej. unfold oatdump.
  destruct argv as [|option argv]; [by eexists|].
  destruct (parse_options_rejected good (option :: argv) no_Options Hrej)
    as [message ->].
  by exists message.
Qed.

Lemma oatdump_rejects_command_line_witness :
  exists message,
    oatdump (fun _ => true) None sample_OatFile_Open (fun _ => None)
            ["--oat-file=boot.oat"; "-v"; "--image=boot.art"]
    = usage message.
Proof.
  apply (oatdump_rejects_command_line (fun _ => true) None sample_OatFile_Open
           (fun _ => None) ["--oat-file=boot.oat"; "-v"; "--image=boot.art"]).
  reflexivity.
Defined.

(** The way on with an image, from an accepted command line. *)
Lemma oatdump_image good android_product_out OatFile_Open Runtime_Create argv
    image_filename_ :
  forallb (accepted good) argv = true ->
  last_value "--oat-file=" argv = None ->
  last_value "--image=" argv = Some image_filename_ ->
  oatdump good android_product_out OatFile_Open Runtime_Create argv
  = match Runtime_Create (given_runtime_options android_product_out argv) with
    | None => EXIT_FAILURE ("Failed to create runtime\n", [])
    | Some NoImageSpace => CHECK_failed "image_space != NULL"
    | Some (ImageSpace IsValid) =>
        if negb IsValid then
          EXIT_FAILURE ("Invalid image header %s\n", [ArgStr image_filename_])
        else
          DumpImage (given_runtime_options android_product_out argv) image_filename_
                    (given_host_prefix android_product_out argv)
                    (last_value "--output=" argv)
    end.
Proof.
  intros Hacc Hoat Himage. unfold oatdump, given_runtime_options, given_host_prefix.
  destruct argv as [|option argv]; [done|].
  rewrite (parse_options_accepted good _ _ Hacc).
  unfold set_Options, no_Options.
  cbn [oat_filename image_filename boot_image_filename host_prefix out].
  rewrite Hoat, Himage. cbn [from_option]. cbv zeta.
  destruct (last_value "--host-prefix=" (option :: argv)) as [hp|],
           android_product_out as [apo|],
           (last_value "--boot-image=" (option :: argv)) as [boot|],
           (last_value "--output=" (option :: argv)) as [output|];
    cbn [default from_option]; unfold id;
    match goal with
    | |- context [String.eqb ?a EmptyString] => destruct (String.eqb a EmptyString)
    end;
    reflexivity.
Qed.

(** X18. The run comes to a dump exactly when every argument is
    accepted and either the command line holds [--oat-file=] and no
    [--image=], and the oat file of the last [--oat-file=] can be
    opened; or it holds [--image=] and no [--oat-file=], and the runtime
    is created for its options with an image space whose header is
    valid. *)
Theorem oatdump_dumps_for_one_input good android_product_out OatFile_Open
    Runtime_Create argv :
  is_dump (oatdump good android_product_out OatFile_Open Runtime_Create argv) = true <->
  forallb (accepted good) argv = true /\
  match last_value "--oat-file=" argv, last_value "--image=" argv with
  | Some oat_filename, None => is_Some (OatFile_Open oat_filename)
  | None, Some _ =>
      Runtime_Create (given_runtime_options android_product_out argv)
      = Some (ImageSpace true)
  | _, _ => False
  end.
Proof.
  destruct (forallb (accepted good) argv) eqn:Hacc.
  - destruct (last_value "--oat-file=" argv) as [f|] eqn:Hoat,
             (last_value "--image=" argv) as [g|] eqn:Himage.
    + unfold oatdump. destruct argv as [|option argv]; [done|].
      rewrite (parse_options_accepted good _ _ Hacc).
      unfold set_Options, no_Options.
      cbn [oat_filename image_filename]. rewrite Hoat, Himage.
      cbn [from_option is_dump]. split; [done|by intros [_ ?]].
    + unfold oatdump. destruct argv as [|option argv]; [done|].
      rewrite (parse_options_accepted good _ _ Hacc).
      unfold set_Options, no_Options.
      cbn [oat_filename image_filename]. rewrite Hoat, Himage.
      cbn [from_option]. cbv zeta.
      destruct (OatFile_Open f) as [oat_file|]; cbn [is_dump].
      * split; [by split; [|eexists]|done].
      * split; [done|]. intros [_ [? [=]]].
    + rewrite (oatdump_image _ _ _ _ _ g Hacc Hoat Himage).
      destruct (Runtime_Create _) as [[|[|]]|]; cbn [negb is_dump];
        (split; [try done; by split|by intros [_ ?]]).
    + unfold oatdump. destruct argv as [|option argv]; [by split; [|intros [_ ?]]|].
      rewrite (parse_options_accepted good _ _ Hacc).
      unfold set_Options, no_Options.
      cbn [oat_filename image_filename]. rewrite Hoat, Himage.
      cbn [from_option is_dump]. split; [done|by intros [_ ?]].
  - destruct (oatdump_rejects_command_line good android_product_out OatFile_Open
                Runtime_Create argv Hacc) as [message ->].
    split; [done|]. by intros [? _].
Qed.

(** X19. With an [--oat-file=] option and no [--image=] option on an
    accepted command line, the run opens the file of the last
    [--oat-file=].  When that fails it ends with a failure; else it
    dumps that oat file to the file of the last [--output=], with the
    host prefix of the last [--host-prefix=], else
    [ANDROID_PRODUCT_OUT], else empty. *)
Theorem oatdump_dumps_last_oat_file good android_product_out OatFile_Open
    Runtime_Create argv oat_filename_ :
  forallb (accepted good) argv = true ->
  last_value "--oat-file=" argv = Some oat_filename_ ->
  last_value "--image=" argv = None ->
  oatdump good android_product_out OatFile_Open Runtime_Create argv
  = match OatFile_Open oat_filename_ with
    | Some oat_file =>
        DumpOatFile (new_OatDumper (given_host_prefix android_product_out argv) oat_file)
                    (last_value "--output=" argv)
    | None =>
        EXIT_FAILURE ("Failed to open oat file from %s\n", [ArgStr oat_filename_])
    end.
Proof.
  intros Hacc Hoat Himage. unfold oatdump, given_host_prefix.
  destruct argv as [|option argv]; [done|].
  rewrite (parse_options_accepted good _ _ Hacc).
  unfold set_Options, no_Options.
  cbn [oat_filename image_filename boot_image_filename host_prefix out].
  rewrite Hoat, Himage. cbn [from_option]. cbv zeta.
  by destruct (OatFile_Open oat_filename_),
              (last_value "--host-prefix=" (option :: argv)), android_product_out,
              (last_value "--output=" (option :: argv)).
Qed.

Lemma oatdump_dumps_last_oat_file_witness :
  oatdump (fun _ => true) (Some "out/target/product/crespo") sample_OatFile_Open
          (fun _ => None)
          ["--oat-file=a.oat"; "--output=/tmp/oatdump.txt"; "--oat-file=boot.oat"]
  = match sample_OatFile_Open "boot.oat" with
    | Some oat_file =>
        DumpOatFile
          (new_OatDumper
             (given_host_prefix (Some "out/target/product/crespo")
                ["--oat-file=a.oat"; "--output=/tmp/oatdump.txt"; "--oat-file=boot.oat"])
             oat_file)
          (last_value "--output="
             ["--oat-file=a.oat"; "--output=/tmp/oatdump.txt"; "--oat-file=boot.oat"])
    | None => EXIT_FAILURE ("Failed to open oat file from %s\n", [ArgStr "boot.oat"])
    end.
Proof.
  apply (oatdump_dumps_last_oat_file (fun _ => true) (Some "out/target/product/crespo")
           sample_OatFile_Open (fun _ => None)
           ["--oat-file=a.oat"; "--output=/tmp/oatdump.txt"; "--oat-file=boot.oat"]
           "boot.oat"); reflexivity.
Defined.

(** The run of the sample command line: the second oat file is opened
    and dumped; a file that cannot be opened ends the run. *)
Example oatdump_sample :
  oatdump (fun _ => true) (Some "out/target/product/crespo") sample_OatFile_Open
          (fun _ => None)
          ["--oat-file=a.oat"; "--output=/tmp/oatdump.txt"; "--oat-file=boot.oat"]
  = DumpOatFile (new_OatDumper "out/target/product/crespo" sample_oat_file)
                (Some "/tmp/oatdump.txt") /\
  oatdump (fun _ => true) None sample_OatFile_Open (fun _ => None)
          ["--oat-file=/no/such/file.oat"]
  = EXIT_FAILURE ("Failed to open oat file from %s\n", [ArgStr "/no/such/file.oat"]).
Proof. split; reflexivity. Qed.

(** ** A sweep writes a method once *)

Lemma live_count_insert {T} (live : T -> bool) (l : list T) j cur zero :
  l !! j = Some cur -> live cur = true -> live zero = false ->
  live_count live (<[j := zero]> l) + 1 = live_count live l.
Proof.
  intros Hj Hcur Hzero. unfold live_count.
  rewrite <- (take_drop_middle l j cur Hj) at 2.
  rewrite insert_take_drop by (by apply lookup_lt_Some in Hj).
  rewrite !List.filter_app. cbn [List.filter]. rewrite Hcur, Hzero.
  rewrite !length_app. simpl. lia.
Qed.

Section SweepOnce.
Context {T : Type}.
Variable exceeds : Z -> T -> Outcome bool.
Variable zero : T.
Variable header : Z -> list Item.
Variable line : Z -> T -> list Item.
Variable methods : list Z.
Variable live : T -> bool.

Hypothesis exceeds_decided : forall k x, decided exceeds k x.
Hypothesis exceeds_live : forall k x, exceeds k x = Returns true -> live x = true.
Hypothesis zero_not_live : live zero = false.

Local Abbreviation scan := (sweep_scan exceeds zero header line methods).
Local Abbreviation loop := (sweep_loop exceeds zero header line methods).

Local Abbreviation zeroes_what_it_counts := (zeroes_what_it_counts live zero).

Lemma zeroes_refl st : 0 <= dumped_values st <= 21 -> zeroes_what_it_counts st st.
Proof. intros Hd. repeat split; try done; try lia. intros; by right. Qed.

Lemma zeroes_trans st1 st2 st3 :
  zeroes_what_it_counts st1 st2 -> zeroes_what_it_counts st2 st3 ->
  zeroes_what_it_counts st1 st3.
Proof.
  intros (Hl1 & Hc1 & Hd1 & He1) (Hl2 & Hc2 & Hd2 & He2).
  repeat split; try lia.
  intros k x Hx. destruct (He2 k x Hx) as [->|Hx2]; [by left|]. by apply He1.
Qed.

Lemma sweep_scan_once count : forall j i first st os,
  (j + count <= length (samples st))%nat ->
  (length (samples st) <= length methods)%nat ->
  0 <= dumped_values st <= 21 ->
  exists os' i' st',
    scan count j i first st os = (os', Returns (i', st')) /\
    zeroes_what_it_counts st st' /\
    (i' = i \/ i' = 2 /\ i <> 1).
Proof.
  induction count as [|count IH]; intros j i first st os Hj Hm Hd.
  { exists os, i, st. split; [done|]. split; [by apply zeroes_refl|by left]. }
  cbn [sweep_scan].
  destruct (lookup_lt_is_Some_2 (samples st) j) as [cur Hcur]; [lia|].
  rewrite (element_bind_Some _ _ _ cur) by done. rewrite lift_bind.
  destruct (exceeds_decided i cur) as [over Hover]. rewrite Hover.
  destruct over.
  - destruct (Z.gtb_spec (dumped_values st) 20) as [Hcap|Hcap].
    + destruct (Z.eqb_spec i 1) as [->|Hi].
      * destruct (IH (S j) 1 first
                    {| samples := samples st; dumped_values := dumped_values st;
                       skipped_values := wrap32 (skipped_values st + 1) |} os)
          as (os' & i' & st' & Hscan & Hz & Hi'); [simpl; lia|done|done|].
        exists os', i', st'. split; [done|]. split; [exact Hz|done].
      * exists os, 2, st. split; [done|]. split; [by apply zeroes_refl|by right].
    + rewrite Dumping_bind_unfold.
      assert (exists os1, (if first then puts (header i) else mret tt) os
                          = (os1, Returns tt)) as [os1 ->]
        by (destruct first; by eexists).
      destruct (lookup_lt_is_Some_2 methods j) as [method Hmethod]; [lia|].
      rewrite (element_bind_Some _ _ _ method) by done. rewrite puts_bind.
      rewrite wrap32_small by (unfold is_uint32; lia).
      destruct (IH (S j) i false
                  {| samples := <[j := zero]> (samples st);
                     dumped_values := dumped_values st + 1;
                     skipped_values := skipped_values st |}
                  (os1 ++ line method cur))
        as (os' & i' & st' & Hscan & Hz & Hi');
        [cbn [samples]; rewrite length_insert; lia
        |cbn [samples]; rewrite length_insert; lia
        |cbn [dumped_values]; lia|].
      exists os', i', st'. split; [done|]. split; [|done].
      apply (zeroes_trans st {| samples := <[j := zero]> (samples st);
                                dumped_values := dumped_values st + 1;
                                skipped_values := skipped_values st |} st');
        [|exact Hz].
      split; [cbn [samples]; by rewrite length_insert|].
      split.
      { cbn [samples dumped_values].
        pose proof (live_count_insert live (samples st) j cur zero Hcur
                      (exceeds_live _ _ Hover) zero_not_live). lia. }
      split; [cbn [dumped_values]; lia|].
      intros k x. cbn [samples].
      destruct (decide (k = j)) as [->|Hne].
      * rewrite list_lookup_insert_eq by (by apply lookup_lt_Some in Hcur).
        intros [= <-]. by left.
      * rewrite list_lookup_insert_ne by done. by right.
  - apply IH; [lia|done|done].
Qed.

Lemma sweep_loop_once fuel : forall n i st os,
  n = length (samples st) ->
  (length (samples st) <= length methods)%nat ->
  0 <= dumped_values st <= 21 ->
  0 <= i < 2 ^ 32 ->
  (Z.to_nat i < fuel)%nat ->
  exists os' st',
    loop fuel n i st os = (os', Returns st') /\ zeroes_what_it_counts st st'.
Proof.
  induction fuel as [|fuel IH]; intros n i st os Hn Hm Hd Hi Hfuel; [lia|].
  cbn [sweep_loop].
  destruct (Z.gtb_spec i 0) as [Hpos|];
    [|exists os, st; split; [done|by apply zeroes_refl]].
  rewrite Dumping_bind_unfold.
  destruct (sweep_scan_once n 0 i true st os) as (os1 & i1 & st1 & -> & Hz1 & Hi1);
    [lia|done|done|].
  cbn [fst snd].
  assert (1 <= i1 <= i) by (destruct Hi1 as [->|(-> & ?)]; lia).
  rewrite wrap32_small by (unfold is_uint32; lia).
  pose proof Hz1 as (Hl1 & _ & Hd1 & _).
  destruct (IH n (i1 - 1) st1 os1) as (os' & st' & Hloop & Hz);
    [congruence|lia|done|lia|lia|].
  exists os', st'. split; [done|]. by apply (zeroes_trans _ _ _ Hz1).
Qed.

End SweepOnce.

(** X20. The sweep over the sizes returns for every mean and variance
    when there is a method for every size.  Each sample that it has
    written was above the mean and is 0 afterwards, the other samples
    are unchanged: the number of lines written is the number of samples
    above the mean that are gone, so no method is written twice. *)
Theorem size_sweep_writes_a_method_once size_mean size_variance s os :
  length (method_outlier s) = length (method_outlier_size s) ->
  0 <= size_mean ->
  exists os' st evs,
    size_sweep size_mean size_variance s os = (os', Returns st) /\
    os' = os ++ render_events size_header size_line evs /\
    reports evs = live_count (above size_mean) (method_outlier_size s)
                  - live_count (above size_mean) (samples st) /\
    length (samples st) = length (method_outlier_size s) /\
    forall j x, samples st !! j = Some x ->
      x = 0 \/ method_outlier_size s !! j = Some x.
Proof.
  intros Hlen Hmean. unfold size_sweep, sweep.
  destruct (sweep_loop_once (size_exceeds size_mean size_variance) 0
              size_header size_line (method_outlier s) (above size_mean))
    with (fuel := S (Z.to_nat 100)) (n := length (method_outlier_size s)) (i := 100)
         (st := {| samples := method_outlier_size s; dumped_values := 0;
                   skipped_values := 0 |}) (os := os)
    as (os' & st & Hloop & Hl & Hc & Hd & He).
  - intros k x. unfold decided, size_exceeds. destruct (x >? size_mean); by eexists.
  - intros k x. unfold size_exceeds, above. by destruct (x >? size_mean).
  - unfold above. destruct (Z.gtb_spec 0 size_mean); [lia|done].
  - done.
  - cbn [samples]. lia.
  - cbn [dumped_values]. lia.
  - lia.
  - lia.
  - destruct (sweep_loop_cap (size_exceeds size_mean size_variance) 0
                size_header size_line (method_outlier s)
                (S (Z.to_nat 100)) (length (method_outlier_size s)) 100
                {| samples := method_outlier_size s; dumped_values := 0;
                   skipped_values := 0 |} os os' (Returns st))
      as (evs & Hos & _ & Hret); [cbn [dumped_values]; lia|exact Hloop|].
    destruct (Hret st eq_refl) as [Hrep _].
    cbn [samples dumped_values] in *.
    exists os', st, evs. rewrite Hloop. split; [done|]. split; [done|].
    split; [lia|]. split; [done|exact He].
Qed.

Lemma size_sweep_writes_a_method_once_witness :
  exists os' st evs,
    size_sweep 41 2500 stats_25_at_one [] = (os', Returns st) /\
    os' = [] ++ render_events size_header size_line evs /\
    reports evs = live_count (above 41) (method_outlier_size stats_25_at_one)
                  - live_count (above 41) (samples st) /\
    length (samples st) = length (method_outlier_size stats_25_at_one) /\
    forall j x, samples st !! j = Some x ->
      x = 0 \/ method_outlier_size stats_25_at_one !! j = Some x.
Proof.
  apply (size_sweep_writes_a_method_once 41 2500 stats_25_at_one []).
  - vm_compute. reflexivity.
  - lia.
Defined.

(** ** The report lists every method once *)

Lemma reported_methods_app os1 os2 :
  reported_methods (os1 ++ os2) = reported_methods os1 ++ reported_methods os2.
Proof. apply omap_app. Qed.

Lemma silent_put item : reported_method item = None -> silent (put item).
Proof.
  intros H os. unfold put. cbn [fst]. rewrite reported_methods_app.
  unfold reported_methods at 2. simpl. rewrite H. apply app_nil_r.
Qed.

Lemma silent_mret {A} (a : A) : silent (mret a : Dumping A).
Proof. by intros os. Qed.

Lemma silent_lift {A} (o : Outcome A) : silent (lift o).
Proof. by intros os. Qed.

Lemma silent_read what a k : silent (read what a k).
Proof. intros os. unfold read. by destruct (a !! Z.to_nat k). Qed.

Lemma silent_bind {A B} (m : Dumping A) (k : A -> Dumping B) :
  silent m -> (forall a, silent (k a)) -> silent (m ≫= k).
Proof.
  intros Hm Hk os. rewrite Dumping_bind_unfold. specialize (Hm os).
  destruct (m os) as [os' [a| | |]]; try exact Hm.
  rewrite Hk. exact Hm.
Qed.

Lemma silent_for_each {A} (body : Z -> A -> Dumping unit) l :
  (forall i x, silent (body i x)) -> forall i, silent (for_each body i l).
Proof.
  intros Hbody. induction l as [|x l IH]; intros i; [apply silent_mret|].
  cbn [for_each]. apply silent_bind; [apply Hbody|intros _; apply IH].
Qed.

Ltac silent_step :=
  lazymatch goal with
  | |- silent (put _) => apply silent_put; reflexivity
  | |- silent (mret _) => apply silent_mret
  | |- silent (lift _) => apply silent_lift
  | |- silent (read _ _ _) => apply silent_read
  | |- silent (mbind _ _) => apply silent_bind; [|intros ?; cbv beta]
  | |- silent (if ?c then _ else _) => destruct c
  | |- silent (let _ := _ in _) => cbv zeta
  end.

Ltac silent_steps := repeat silent_step.

Lemma silent_DumpSpillMask_loop is_float n : forall i spill_mask,
  silent (DumpSpillMask_loop n i spill_mask is_float).
Proof.
  induction n as [|n IH]; intros i spill_mask; cbn [DumpSpillMask_loop];
    silent_steps; apply IH.
Qed.

Lemma silent_DumpSpillMask spill_mask is_float :
  silent (DumpSpillMask spill_mask is_float).
Proof. unfold DumpSpillMask. silent_steps. apply silent_DumpSpillMask_loop. Qed.

Lemma silent_DumpVmap_loop core fp entries : forall i first,
  silent (DumpVmap_loop core fp entries i first).
Proof.
  induction entries as [|dex_reg entries IH]; intros i first; cbn [DumpVmap_loop];
    silent_steps; apply IH.
Qed.

Lemma silent_DumpVmap t core fp : silent (DumpVmap t core fp).
Proof.
  unfold DumpVmap. destruct t as [t|]; silent_steps. apply silent_DumpVmap_loop.
Qed.

Lemma silent_DumpGcMap_regs reg_bitmap n : forall reg first,
  silent (DumpGcMap_regs n reg reg_bitmap first).
Proof.
  induction n as [|n IH]; intros reg first; cbn [DumpGcMap_regs];
    silent_steps; apply IH.
Qed.

Lemma silent_DumpGcMap code map : silent (DumpGcMap code map).
Proof.
  unfold DumpGcMap. destruct map as [map|]; [|apply silent_mret].
  apply silent_for_each. intros _ entry. silent_steps. apply silent_DumpGcMap_regs.
Qed.

Lemma silent_DumpMappingTable_loop code raw len P fuel : forall i,
  silent (DumpMappingTable_loop fuel code raw len P i).
Proof.
  induction fuel as [|fuel IH]; intros i; cbn [DumpMappingTable_loop];
    silent_steps; apply IH.
Qed.

Lemma silent_DumpMappingTable m : silent (DumpMappingTable m).
Proof.
  unfold DumpMappingTable. destruct (GetMappingTable m) as [t|]; [|apply silent_mret].
  silent_steps. destruct (table_words t) as [|len [|P raw]]; silent_steps.
  apply silent_DumpMappingTable_loop.
Qed.

Lemma silent_DumpCode code code_size : silent (DumpCode code code_size).
Proof. unfold DumpCode. silent_steps. Qed.

(** [DumpOatMethod] starts one method, whatever becomes of it. *)
Lemma DumpOatMethod_reported i m idx os :
  reported_methods (fst (DumpOatMethod i m idx os))
  = reported_methods os ++ [(i, idx)].
Proof.
  unfold DumpOatMethod. rewrite put_bind. cbv beta.
  match goal with
  | |- reported_methods (fst (?rest ?os')) = _ =>
      assert (silent rest) as Hsilent; [|rewrite (Hsilent os')]
  end.
  { repeat
      lazymatch goal with
      | |- silent (DumpCode _ _) => apply silent_DumpCode
      | |- silent (DumpSpillMask _ _) => apply silent_DumpSpillMask
      | |- silent (DumpMappingTable _) => apply silent_DumpMappingTable
      | |- silent (DumpVmap _ _ _) => apply silent_DumpVmap
      | |- silent (DumpGcMap _ _) => apply silent_DumpGcMap
      | |- _ => silent_step
      end. }
  by rewrite reported_methods_app.
Qed.

(** The loop over the methods of a class, with the index that it
    counts. *)
Lemma for_each_methods_reported l : forall n os,
  (forall cm, cm ∈ l -> well_formed_method (oat_method cm)) ->
  returns (snd (for_each DumpOatClass_method (wrap32 (Z.of_nat n)) l os)) /\
  reported_methods (fst (for_each DumpOatClass_method (wrap32 (Z.of_nat n)) l os))
  = reported_methods os
    ++ imap (fun k cm => (wrap32 (Z.of_nat (n + k)), GetMemberIndex cm)) l.
Proof.
  induction l as [|cm l IH]; intros n os Hwf.
  { split; [by exists tt|]. simpl. by rewrite app_nil_r. }
  cbn [for_each]. rewrite Dumping_bind_unfold.
  pose proof (DumpOatMethod_returns (wrap32 (Z.of_nat n)) (oat_method cm)
                (GetMemberIndex cm) os (Hwf cm ltac:(left))) as [[] Hret].
  pose proof (DumpOatMethod_reported (wrap32 (Z.of_nat n)) (oat_method cm)
                (GetMemberIndex cm) os) as Hrep.
  unfold DumpOatClass_method at 1 3.
  destruct (DumpOatMethod _ _ _ os) as [os1 o1]. cbn [fst snd] in *. subst o1.
  replace (wrap32 (wrap32 (Z.of_nat n) + 1)) with (wrap32 (Z.of_nat (S n)))
    by (rewrite wrap32_add_l; f_equal; lia).
  destruct (IH (S n) os1) as [Hret' Hrep']; [intros; apply Hwf; by right|].
  split; [done|]. rewrite Hrep', Hrep, <- app_assoc. f_equal.
  cbn [imap app]. rewrite Nat.add_0_r. f_equal.
  apply imap_ext. intros k x _. simpl. do 3 f_equal. lia.
Qed.

Lemma DumpOatClass_reported c os :
  (forall cm, cm ∈ class_methods c -> well_formed_method (oat_method cm)) ->
  returns (snd (DumpOatClass c os)) /\
  reported_methods (fst (DumpOatClass c os)) = reported_methods os ++ class_listing c.
Proof.
  unfold DumpOatClass, class_listing, class_methods. intros Hwf.
  destruct (GetClassData c) as [cd|].
  2:{ split; [by exists tt|]. simpl. by rewrite app_nil_r. }
  rewrite Dumping_bind_unfold.
  destruct (for_each_methods_reported (direct_methods cd) 0 os) as [[[] Hret1] Hrep1].
  { intros cm Hcm. apply Hwf, elem_of_app. by left. }
  change (wrap32 (Z.of_nat 0)) with 0 in *.
  destruct (for_each DumpOatClass_method 0 (direct_methods cd) os) as [os1 o1].
  cbn [fst snd] in *. subst o1.
  rewrite Dumping_bind_unfold.
  destruct (for_each_methods_reported (virtual_methods cd)
              (length (direct_methods cd)) os1) as [[[] Hret2] Hrep2].
  { intros cm Hcm. apply Hwf, elem_of_app. by right. }
  destruct (for_each DumpOatClass_method _ (virtual_methods cd) os1) as [os2 o2].
  cbn [fst snd] in *. subst o2.
  split; [by exists tt|]. unfold put. cbn [fst].
  rewrite reported_methods_app, Hrep2, Hrep1. simpl. rewrite app_nil_r, <- app_assoc.
  f_equal. by rewrite imap_app.
Qed.

(** A loop whose passes all return, each with its own list of
    methods. *)
Lemma for_each_reported {A} (body : Z -> A -> Dumping unit) (f : A -> list (Z * Z)) l :
  (forall i x os, x ∈ l ->
     returns (snd (body i x os)) /\
     reported_methods (fst (body i x os)) = reported_methods os ++ f x) ->
  forall i os,
    returns (snd (for_each body i l os)) /\
    reported_methods (fst (for_each body i l os)) = reported_methods os ++ (l ≫= f).
Proof.
  induction l as [|x l IH]; intros Hbody i os.
  { split; [by exists tt|]. simpl. by rewrite app_nil_r. }
  cbn [for_each]. rewrite Dumping_bind_unfold.
  destruct (Hbody i x os ltac:(left)) as [[[] Hret] Hrep].
  destruct (body i x os) as [os1 o1]. cbn [fst snd] in *. subst o1.
  destruct (IH (fun i y os Hy => Hbody i y os ltac:(by right)) (wrap32 (i + 1)) os1)
    as [Hret' Hrep'].
  split; [done|]. rewrite Hrep', Hrep, <- app_assoc. done.
Qed.

Lemma DumpOatDexFile_reported odf os :
  (forall cm, cm ∈ dex_file_methods odf -> well_formed_method (oat_method cm)) ->
  returns (snd (DumpOatDexFile odf os)) /\
  reported_methods (fst (DumpOatDexFile odf os))
  = reported_methods os ++ dex_file_listing odf.
Proof.
  unfold DumpOatDexFile, dex_file_listing, dex_file_methods. intros Hwf.
  rewrite !put_bind. cbv beta.
  destruct (OpenDexFile odf) as [dex_file|].
  2:{ split; [by exists tt|]. unfold put. cbn [fst].
      rewrite !reported_methods_app. simpl. by rewrite !app_nil_r. }
  rewrite Dumping_bind_unfold.
  match goal with
  | |- context [for_each ?body 0 ?l ?os1] =>
      destruct (for_each_reported body class_listing l) with (i := 0) (os := os1)
        as [[[] Hret] Hrep]
  end.
  { intros i c os' Hc. rewrite !put_bind. cbv beta.
    destruct (DumpOatClass_reported c
                (((os' ++ [Formatted "%zd: %s (type_idx=%d) ("
                             [ArgInt i; ArgStr (GetClassDescriptor c);
                              ArgInt (class_idx_ c)]])
                    ++ [Num (GetStatus c)]) ++ [Text ")\n"])) as [Hret Hrep].
    { intros cm Hcm. apply Hwf, list_elem_of_bind. by exists c. }
    split; [done|]. rewrite Hrep, !reported_methods_app. simpl.
    by rewrite !app_nil_r. }
  match goal with
  | |- context [for_each ?body 0 ?l ?os1] =>
      destruct (for_each body 0 l os1) as [os2 o2]
  end.
  cbn [fst snd] in *. subst o2. split; [by exists tt|].
  unfold put. cbn [fst]. rewrite reported_methods_app, Hrep, !reported_methods_app.
  simpl. by rewrite !app_nil_r.
Qed.

Lemma lists_put item : reported_method item = None -> lists (put item) [].
Proof.
  intros H os. split; [by exists tt|].
  rewrite (silent_put item H os). by rewrite app_nil_r.
Qed.

Lemma lists_mret {A} (a : A) : lists (mret a : Dumping A) [].
Proof. intros os. split; [by exists a|]. simpl. by rewrite app_nil_r. Qed.

Lemma lists_bind {A B} (m : Dumping A) (k : A -> Dumping B) listing :
  lists m [] -> (forall a, lists (k a) listing) -> lists (m ≫= k) listing.
Proof.
  intros Hm Hk os. rewrite Dumping_bind_unfold.
  destruct (Hm os) as [[a Hret] Hrep].
  destruct (m os) as [os' o]. cbn [fst snd] in *. subst o.
  destruct (Hk a os') as [Hret' Hrep'].
  split; [done|]. rewrite Hrep', Hrep. by rewrite app_nil_r.
Qed.

Ltac lists_step :=
  lazymatch goal with
  | |- lists (put _) _ => apply lists_put; reflexivity
  | |- lists (mret _) _ => apply lists_mret
  | |- lists (mbind _ _) _ => apply lists_bind; [|intros ?; cbv beta]
  | |- lists (if ?c then _ else _) _ => destruct c
  end.

(** X21. The report of a well-formed oat file starts a method for every
    method of the file, once each and in the order of the file, under
    the index that the method has in its class: the direct methods from
    0, the virtual methods after them. *)
Theorem Dump_lists_every_method_once d os :
  (forall m, m ∈ dumped_methods (oat_file_ d) -> well_formed_method m) ->
  reported_methods (fst (Dump d os))
  = reported_methods os ++ oat_file_listing (oat_file_ d).
Proof.
  intros Hwf.
  assert (lists (Dump d) (oat_file_listing (oat_file_ d))) as Hlists; [|apply Hlists].
  unfold Dump, oat_file_listing. cbv zeta.
  repeat lists_step.
  intros os'. apply for_each_reported.
  intros _ odf os_dex Hodf. apply DumpOatDexFile_reported.
  intros cm Hcm. apply Hwf. unfold dumped_methods.
  apply list_elem_of_fmap. exists cm. split; [done|].
  apply list_elem_of_bind. by exists odf.
Qed.

Lemma Dump_lists_every_method_once_witness :
  reported_methods (fst (Dump sample_dumper []))
  = reported_methods [] ++ oat_file_listing (oat_file_ sample_dumper).
Proof.
  apply (Dump_lists_every_method_once sample_dumper []).
  intros m Hm. apply list_elem_of_singleton in Hm as ->.
  apply sample_method_well_formed.
Defined.

(** ** The code of the methods in the ledger *)

Lemma Accounting_bind_unfold {A B} (m : Accounting A) (k : A -> Accounting B) st :
  (m ≫= k) st =
    match m st with
    | Returns (a, st') => k a st'
    | CheckFailure what => CheckFailure what
    | UndefinedBehaviour what => UndefinedBehaviour what
    | OutOfFuel => OutOfFuel
    end.
Proof. reflexivity. Qed.

Lemma ComputeOatSize_keeps_dumper s oat_data :
  oat_dumper_ (ComputeOatSize s oat_data).1.1 = oat_dumper_ s.
Proof.
  unfold ComputeOatSize, ComputeSize.
  destruct (decide _); destruct (_ || _); try done;
    by destruct (StdSet.upper_bound _ _).
Qed.

Lemma state_ComputeOatSize_bind_inv {B} oat_data (k : Z * bool -> Accounting B) s stats r :
  (state_ComputeOatSize oat_data ≫= k) (s, stats) = Returns r ->
  exists n first s1,
    oat_dumper_ s1 = oat_dumper_ s /\ k (n, first) (s1, stats) = Returns r.
Proof.
  rewrite Accounting_bind_unfold. unfold state_ComputeOatSize.
  pose proof (ComputeOatSize_keeps_dumper s oat_data) as Hd.
  destruct (ComputeOatSize s oat_data) as [[s1 first] [n| | |]]; try done.
  intros H. by exists n, first, s1.
Qed.

Lemma add_bind {B} c n (k : unit -> Accounting B) s stats :
  (add c n ≫= k) (s, stats) = k tt (s, bump c n stats).
Proof. reflexivity. Qed.

Lemma same_ledger_refl stats : same_ledger stats stats.
Proof. by split. Qed.

Lemma same_ledger_bump c n stats stats' :
  code_counter c = false -> same_ledger stats stats' ->
  same_ledger stats (bump c n stats').
Proof.
  intros Hc [Ho Hsame]. split; [done|]. intros c' Hc'. cbn [bump counter].
  destruct (decide (c' = c)) as [->|]; [congruence|by apply Hsame].
Qed.

(** A conditional [+=] on a counter that is no code counter. *)
Lemma maybe_add_bind_inv {B} (first : bool) c n (k : unit -> Accounting B) s stats0 stats r :
  code_counter c = false -> same_ledger stats0 stats ->
  ((if first then add c n else mret tt) ≫= k) (s, stats) = Returns r ->
  exists stats1, same_ledger stats0 stats1 /\ k tt (s, stats1) = Returns r.
Proof.
  intros Hc Hsame H. destruct first.
  - rewrite add_bind in H. exists (bump c n stats). split; [|done].
    by apply same_ledger_bump.
  - by exists stats.
Qed.

Lemma state_GetOatCodeBegin_bind {B} runtime m (k : Z -> Accounting B) s stats :
  (state_GetOatCodeBegin runtime m ≫= k) (s, stats)
  = k (GetOatCodeBegin runtime (oat_dumper_ s) m) (s, stats).
Proof. reflexivity. Qed.

Lemma state_GetOatCodeSize_bind {B} runtime m (k : Z -> Accounting B) s stats :
  (state_GetOatCodeSize runtime m ≫= k) (s, stats)
  = k (GetOatCodeSize runtime (oat_dumper_ s) m) (s, stats).
Proof. reflexivity. Qed.

Ltac ledger_call H :=
  let Hd := fresh "Hd" in
  apply state_ComputeOatSize_bind_inv in H as (? & ? & ? & Hd & H);
  cbv beta iota in H.

Ltac ledger_skip H Hsame :=
  let Hnew := fresh "Hsame" in
  eapply maybe_add_bind_inv in H as (? & Hnew & H);
  [clear Hsame; rename Hnew into Hsame|reflexivity|exact Hsame].

Lemma same_ledger_files m size stats stats' :
  has_managed_code m = false -> same_ledger stats stats' ->
  files_code m size stats stats' /\ files_sample m stats stats'.
Proof.
  intros Hm [Ho Hc]. unfold files_code, files_sample. rewrite Hm, Ho.
  split; [exact Hc|]. by rewrite app_nil_r, !Nat.add_0_r.
Qed.

Lemma counter_bump_same c n stats :
  counter (bump c n stats) c = wrap32 (counter stats c + n).
Proof. cbn [counter bump]. by rewrite decide_True. Qed.

Lemma counter_bump_other c c' n stats :
  c' <> c -> counter (bump c n stats) c' = counter stats c'.
Proof. intros H. cbn [counter bump]. by rewrite decide_False. Qed.

Ltac ledger_dumpers :=
  repeat match goal with
         | Hd : oat_dumper_ ?a = oat_dumper_ ?b |- _ => rewrite Hd in *; clear Hd
         end.

Lemma Callback_method_effect runtime object_bytes_ m s stats s' stats' :
  Callback_method runtime object_bytes_ m (s, stats) = Returns (tt, (s', stats')) ->
  oat_dumper_ s' = oat_dumper_ s /\
  files_code m (GetOatCodeSize runtime (oat_dumper_ s) m) stats stats' /\
  files_sample m stats stats'.
Proof.
  intros H. unfold Callback_method in H.
  pose proof (same_ledger_refl stats) as Hsame.
  destruct (AbstractMethod.IsNative m) eqn:Hnative.
  { ledger_call H. ledger_skip H Hsame.
    rewrite state_GetOatCodeBegin_bind, state_GetOatCodeSize_bind in H.
    ledger_call H.
    match type of H with (if ?first then _ else _) _ = _ => destruct first end;
      injection H as <- <-; (split; [congruence|]);
      apply same_ledger_files; try (by apply same_ledger_bump);
      try done; unfold has_managed_code; by rewrite Hnative. }
  destruct (_ || _) eqn:Hnone.
  { injection H as <- <-. split; [done|].
    apply same_ledger_files; [|done]. unfold has_managed_code. by rewrite Hnone, andb_false_r. }
  cbv zeta in H. rewrite add_bind in H.
  apply (same_ledger_bump dex_instruction_bytes
           (wrap32 (AbstractMethod.insns_size_in_code_units_ m * 2))) in Hsame;
    [|reflexivity].
  ledger_call H. ledger_skip H Hsame.
  ledger_call H. ledger_skip H Hsame.
  ledger_call H. ledger_skip H Hsame.
  ledger_call H. ledger_skip H Hsame.
  rewrite state_GetOatCodeBegin_bind, state_GetOatCodeSize_bind in H.
  ledger_call H.
  destruct Hsame as [Ho Hc].
  unfold files_code, files_sample, has_managed_code. rewrite Hnative, Hnone.
  cbn [negb andb]. cbv zeta.
  match type of H with
  | ((if ?first then _ else _) ≫= _) _ = _ => destruct first
  end;
    [destruct (AbstractMethod.IsConstructor m);
     [destruct (AbstractMethod.IsStatic m); [|destruct (_ >? kLargeConstructorDexBytes)]
     |destruct (_ >? kLargeMethodDexBytes)]|].
  all: injection H as <- <-.
  all: ledger_dumpers.
  all: split; [done|].
  all: cbn [counter outliers ComputeOutliers method_outlier method_outlier_size
         method_outlier_expansion].
  all: repeat first [rewrite counter_bump_same | rewrite counter_bump_other by discriminate].
  all: cbn [bump outliers].
  all: rewrite ?Ho, ?length_app, !Hc by reflexivity.
  all: (split; [split; [reflexivity|tauto]|done]).
Qed.

Lemma Callback_methods_cons_inv runtime object_bytes_ m methods s stats r :
  Callback_methods runtime ((object_bytes_, m) :: methods) (s, stats) = Returns (tt, r) ->
  exists s1 stats1,
    Callback_method runtime object_bytes_ m (s, stats) = Returns (tt, (s1, stats1)) /\
    Callback_methods runtime methods (s1, stats1) = Returns (tt, r).
Proof.
  cbn [Callback_methods]. rewrite Accounting_bind_unfold.
  destruct (Callback_method runtime object_bytes_ m (s, stats))
    as [[[] [s1 stats1]]| | |]; try done.
  intros H. by exists s1, stats1.
Qed.

Lemma files_code_ok m size stats stats' :
  files_code m size stats stats' ->
  ledger_ok stats -> 0 <= size ->
  counter stats managed_code_bytes_ignoring_deduplication + size < 2 ^ 32 ->
  ledger_ok stats' /\
  counter stats' managed_code_bytes_ignoring_deduplication
  = counter stats managed_code_bytes_ignoring_deduplication
    + (if has_managed_code m then size else 0).
Proof.
  unfold files_code, ledger_ok. cbv zeta. intros Hfiles (H1 & H2 & H3 & H4 & H5) Hsize Hmax.
  destruct (has_managed_code m).
  - destruct Hfiles as [Hi [(-> & -> & -> & ->)|[-> [(-> & -> & ->)|[(-> & -> & ->)
                             |[(-> & -> & ->)|(-> & -> & ->)]]]]]];
      rewrite Hi; rewrite ?wrap32_small by (unfold is_uint32; lia); lia.
  - rewrite !Hfiles by reflexivity. lia.
Qed.

Lemma Zsum_cons x l : Zsum (x :: l) = x + Zsum l.
Proof. reflexivity. Qed.

Lemma Zsum_fmap_nonneg {A} (f : A -> Z) l :
  Forall (fun x => 0 <= f x) l -> 0 <= Zsum (f <$> l).
Proof.
  induction 1 as [|x l Hx _ IH]; [done|]. rewrite fmap_cons, Zsum_cons. lia.
Qed.

Lemma Callback_methods_ledger_from runtime methods : forall s stats s' stats',
  Callback_methods runtime methods (s, stats) = Returns (tt, (s', stats')) ->
  ledger_ok stats ->
  Forall (fun m => 0 <= GetOatCodeSize runtime (oat_dumper_ s) m) (managed_methods methods) ->
  counter stats managed_code_bytes_ignoring_deduplication
  + Zsum (GetOatCodeSize runtime (oat_dumper_ s) <$> managed_methods methods) < 2 ^ 32 ->
  ledger_ok stats' /\
  counter stats' managed_code_bytes_ignoring_deduplication
  = counter stats managed_code_bytes_ignoring_deduplication
    + Zsum (GetOatCodeSize runtime (oat_dumper_ s) <$> managed_methods methods).
Proof.
  induction methods as [|[object_bytes_ m] methods IH]; intros s stats s' stats' Hrun Hok Hpos Hmax.
  { injection Hrun as <- <-. split; [done|]. unfold Zsum. simpl. lia. }
  apply Callback_methods_cons_inv in Hrun as (s1 & stats1 & Hm & Hrun).
  apply Callback_method_effect in Hm as (Hd & Hfiles & _).
  unfold managed_methods in *. rewrite fmap_cons in Hpos, Hmax |- *.
  cbn [List.filter snd] in Hpos, Hmax |- *.
  destruct (has_managed_code m) eqn:Hmanaged.
  - apply Forall_cons in Hpos as [Hsize Hpos].
    pose proof (Zsum_fmap_nonneg _ _ Hpos).
    rewrite fmap_cons, Zsum_cons in Hmax |- *.
    destruct (files_code_ok _ _ _ _ Hfiles Hok Hsize) as [Hok1 Hi1]; [lia|].
    rewrite Hmanaged in Hi1.
    destruct (IH s1 stats1 s' stats' Hrun Hok1) as [Hok' Hi'];
      rewrite ?Hd; [done|lia|].
    split; [done|]. rewrite Hi', Hd. lia.
  - pose proof (Zsum_fmap_nonneg _ _ Hpos).
    assert (ledger_ok stats1 /\
            counter stats1 managed_code_bytes_ignoring_deduplication
            = counter stats managed_code_bytes_ignoring_deduplication) as [Hok1 Hi1].
    { unfold files_code in Hfiles. rewrite Hmanaged in Hfiles. cbv zeta in Hfiles.
      unfold ledger_ok in *. rewrite !Hfiles by reflexivity. done. }
    destruct (IH s1 stats1 s' stats' Hrun Hok1) as [Hok' Hi'];
      rewrite ?Hd; [done|lia|].
    split; [done|]. rewrite Hi', Hd. lia.
Qed.

(** X22. When the callbacks for the methods return and the sizes of the
    code of the methods with code of their own add up to less than
    2^32, the ledger holds that sum as
    [managed_code_bytes_ignoring_deduplication]; [managed_code_bytes] is
    not more, and the three classes of code together are not more than
    [managed_code_bytes]. *)
Theorem Callback_methods_ledger runtime methods s s' stats' :
  Callback_methods runtime methods (s, new_CodeStats) = Returns (tt, (s', stats')) ->
  Forall (fun m => 0 <= GetOatCodeSize runtime (oat_dumper_ s) m) (managed_methods methods) ->
  Zsum (GetOatCodeSize runtime (oat_dumper_ s) <$> managed_methods methods) < 2 ^ 32 ->
  ledger_ok stats' /\
  counter stats' managed_code_bytes_ignoring_deduplication
  = Zsum (GetOatCodeSize runtime (oat_dumper_ s) <$> managed_methods methods).
Proof.
  intros Hrun Hpos Hmax.
  destruct (Callback_methods_ledger_from runtime methods s new_CodeStats s' stats' Hrun)
    as [Hok Hi]; [unfold ledger_ok; simpl; lia|done|simpl; lia|].
  split; [done|]. rewrite Hi. simpl. lia.
Qed.

Lemma sample_methods_return :
  match Callback_methods sample_runtime sample_methods (sample_image_dumper, new_CodeStats)
  with Returns _ => true | _ => false end = true.
Proof. vm_compute. reflexivity. Qed.

Lemma Callback_methods_ledger_witness :
  exists s' stats',
    Callback_methods sample_runtime sample_methods (sample_image_dumper, new_CodeStats)
    = Returns (tt, (s', stats')) /\
    ledger_ok stats' /\
    counter stats' managed_code_bytes_ignoring_deduplication
    = Zsum (GetOatCodeSize sample_runtime (oat_dumper_ sample_image_dumper)
              <$> managed_methods sample_methods).
Proof.
  pose proof sample_methods_return as Hret.
  destruct (Callback_methods sample_runtime sample_methods
              (sample_image_dumper, new_CodeStats)) as [[[] [s' stats']]| | |] eqn:Hrun;
    try discriminate Hret.
  exists s', stats'. split; [done|].
  apply (Callback_methods_ledger sample_runtime sample_methods sample_image_dumper
           s' stats' Hrun).
  - repeat constructor; vm_compute; discriminate.
  - vm_compute. reflexivity.
Defined.

Lemma Callback_methods_samples_from runtime methods : forall s stats s' stats',
  Callback_methods runtime methods (s, stats) = Returns (tt, (s', stats')) ->
  method_outlier (outliers stats')
  = method_outlier (outliers stats) ++ (AbstractMethod.address <$> managed_methods methods) /\
  length (method_outlier_size (outliers stats'))
  = (length (method_outlier_size (outliers stats)) + length (managed_methods methods))%nat /\
  length (method_outlier_expansion (outliers stats'))
  = (length (method_outlier_expansion (outliers stats)) + length (managed_methods methods))%nat.
Proof.
  induction methods as [|[object_bytes_ m] methods IH]; intros s stats s' stats' Hrun.
  { injection Hrun as <- <-. simpl. by rewrite app_nil_r, !Nat.add_0_r. }
  apply Callback_methods_cons_inv in Hrun as (s1 & stats1 & Hm & Hrun).
  apply Callback_method_effect in Hm as (_ & _ & Ha & Hb & Hc).
  destruct (IH s1 stats1 s' stats' Hrun) as (Ha' & Hb' & Hc').
  rewrite Ha', Hb', Hc', Ha, Hb, Hc.
  unfold managed_methods. rewrite fmap_cons. cbn [List.filter snd].
  destruct (has_managed_code m).
  - rewrite fmap_cons, <- app_assoc. simpl. split; [done|]. lia.
  - rewrite app_nil_r. split; [done|]. lia.
Qed.

(** X23. The callbacks file one outlier sample for every method with
    code of its own, in the order of the walk: the three vectors of
    samples have one length, and the sample at an index belongs to the
    method at the index. *)
Theorem Callback_methods_samples runtime methods s s' stats' :
  Callback_methods runtime methods (s, new_CodeStats) = Returns (tt, (s', stats')) ->
  method_outlier (outliers stats') = AbstractMethod.address <$> managed_methods methods /\
  length (method_outlier_size (outliers stats')) = length (method_outlier (outliers stats')) /\
  length (method_outlier_expansion (outliers stats'))
  = length (method_outlier (outliers stats')).
Proof.
  intros Hrun.
  destruct (Callback_methods_samples_from runtime methods s new_CodeStats s' stats' Hrun)
    as (Ha & Hb & Hc).
  rewrite Ha, Hb, Hc. simpl. by rewrite length_fmap.
Qed.

Lemma Callback_methods_samples_witness :
  exists s' stats',
    Callback_methods sample_runtime sample_methods (sample_image_dumper, new_CodeStats)
    = Returns (tt, (s', stats')) /\
    method_outlier (outliers stats')
    = AbstractMethod.address <$> managed_methods sample_methods /\
    length (method_outlier_size (outliers stats')) = length (method_outlier (outliers stats')) /\
    length (method_outlier_expansion (outliers stats'))
    = length (method_outlier (outliers stats')).
Proof.
  pose proof sample_methods_return as Hret.
  destruct (Callback_methods sample_runtime sample_methods
              (sample_image_dumper, new_CodeStats)) as [[[] [s' stats']]| | |] eqn:Hrun;
    try discriminate Hret.
  exists s', stats'. split; [done|].
  apply (Callback_methods_samples sample_runtime sample_methods sample_image_dumper
           s' stats' Hrun).
Defined.

(** The two sample methods that share their code: the code is filed
    once in [managed_code_bytes] and twice in the count that ignores
    deduplication. *)
Example Callback_methods_sample_deduplicates :
  match Callback_methods sample_runtime sample_methods (sample_image_dumper, new_CodeStats)
  with
  | Returns (_, (_, stats)) =>
      (counter stats managed_code_bytes,
       counter stats managed_code_bytes_ignoring_deduplication)
  | _ => (0, 0)
  end = (64, 128).
Proof. vm_compute. reflexivity. Qed.

(** ** A malformed vmap table ends the report *)

Lemma bind_after_returns {B} (m : Dumping unit) (k : unit -> Dumping B) os :
  returns (snd (m os)) -> (m ≫= k) os = k tt (fst (m os)).
Proof.
  intros [[] Hret]. rewrite Dumping_bind_unfold.
  destruct (m os) as [os' o]. cbn [fst snd] in *. by subst o.
Qed.

Lemma DumpOatMethod_fails_at_vmap i m idx os :
  fails_at_vmap m ->
  snd (DumpOatMethod i m idx os) = CheckFailure "!processing_fp".
Proof.
  intros (Hrange & Hvmap & Hmapping). pose proof Hrange as (Hcore & Hfp & _).
  unfold DumpOatMethod. rewrite !put_bind. cbv beta.
  rewrite bind_after_returns by (by apply DumpSpillMask_returns).
  rewrite put_bind. cbv beta.
  rewrite bind_after_returns by (by apply DumpSpillMask_returns).
  rewrite put_bind. cbv beta.
  rewrite bind_after_returns by (by apply DumpMappingTable_returns).
  rewrite put_bind. cbv beta. rewrite Dumping_bind_unfold.
  match goal with
  | |- context [DumpVmap _ _ _ ?o] =>
      destruct (DumpVmap_malformed m o Hrange Hvmap) as [os' ->]
  end.
  reflexivity.
Qed.

Lemma lists_runs (m : Dumping unit) : lists m [] -> runs m [].
Proof.
  intros Hm os. split.
  - intros _. apply Hm.
  - intros before u after Hnil. by destruct before.
Qed.

Lemma unit_listing_app units units' :
  unit_listing (units ++ units') = unit_listing units ++ unit_listing units'.
Proof. unfold unit_listing. apply fmap_app. Qed.

(** One part of the report after another. *)
Lemma runs_bind (m : Dumping unit) (k : unit -> Dumping unit) units1 units2 :
  runs m units1 -> (forall a, runs (k a) units2) -> runs (m ≫= k) (units1 ++ units2).
Proof.
  intros Hm Hk os. destruct (Hm os) as [Hm_all Hm_stop]. split.
  - intros Hgood. apply Forall_app in Hgood as [Hgood1 Hgood2].
    destruct (Hm_all Hgood1) as [Hret Hrep].
    rewrite (bind_after_returns m k os Hret).
    destruct (Hk tt (fst (m os))) as [Hk_all _].
    destruct (Hk_all Hgood2) as [Hret' Hrep'].
    split; [done|]. rewrite Hrep', Hrep, unit_listing_app, app_assoc. reflexivity.
  - intros before u after Hsplit Hgood Hbad.
    apply List.app_eq_app in Hsplit as [l [[-> Hrest]|[-> Hrest]]].
    + (* the first part holds [before] and more *)
      destruct l as [|u' l].
      * rewrite app_nil_r in *. simpl in Hrest. subst units2.
        destruct (Hm_all Hgood) as [Hret Hrep].
        rewrite (bind_after_returns m k os Hret).
        destruct (Hk tt (fst (m os))) as [_ Hk_stop].
        destruct (Hk_stop [] u after eq_refl (List.Forall_nil _) Hbad) as [Hfail Hrep'].
        split; [done|].
        rewrite Hrep', Hrep, ?unit_listing_app, <- ?app_assoc. reflexivity.
      * injection Hrest as <- ->.
        destruct (Hm_stop before u l eq_refl Hgood Hbad) as [Hfail Hrep].
        rewrite Dumping_bind_unfold. destruct (m os) as [os1 o1].
        cbn [fst snd] in *. subst o1. done.
    + (* the first part is the beginning of [before] *)
      apply Forall_app in Hgood as [Hgood1 Hgood2].
      destruct (Hm_all Hgood1) as [Hret Hrep].
      rewrite (bind_after_returns m k os Hret).
      destruct (Hk tt (fst (m os))) as [_ Hk_stop].
      destruct (Hk_stop l u after Hrest Hgood2 Hbad) as [Hfail Hrep'].
      split; [done|].
      rewrite Hrep', Hrep, <- ?app_assoc, ?unit_listing_app, <- ?app_assoc. reflexivity.
Qed.

Lemma runs_prefix (m : Dumping unit) (k : unit -> Dumping unit) units :
  lists m [] -> (forall a, runs (k a) units) -> runs (m ≫= k) units.
Proof. intros Hm Hk. apply (runs_bind m k [] units); [by apply lists_runs|done]. Qed.

Lemma runs_suffix (m : Dumping unit) (k : unit -> Dumping unit) units :
  runs m units -> (forall a, lists (k a) []) -> runs (m ≫= k) units.
Proof.
  intros Hm Hk. rewrite <- (app_nil_r units).
  apply runs_bind; [done|]. intros a. by apply lists_runs.
Qed.

Lemma runs_DumpOatClass_method i cm : runs (DumpOatClass_method i cm) [(i, cm)].
Proof.
  intros os. unfold DumpOatClass_method. split.
  - intros Hgood. apply Forall_cons in Hgood as [Hgood _]. split.
    + by apply DumpOatMethod_returns.
    + apply DumpOatMethod_reported.
  - intros before u after Hsplit _ Hbad.
    destruct before as [|? [|]]; try done. injection Hsplit as <- <-.
    split; [by apply DumpOatMethod_fails_at_vmap|apply DumpOatMethod_reported].
Qed.

Lemma runs_methods l : forall n,
  runs (for_each DumpOatClass_method (wrap32 (Z.of_nat n)) l)
       (imap (fun k cm => (wrap32 (Z.of_nat (n + k)), cm)) l).
Proof.
  induction l as [|cm l IH]; intros n.
  { apply lists_runs, lists_mret. }
  cbn [for_each imap]. rewrite Nat.add_0_r.
  apply (runs_bind _ _ [(wrap32 (Z.of_nat n), cm)]); [apply runs_DumpOatClass_method|].
  intros _.
  replace (wrap32 (wrap32 (Z.of_nat n) + 1)) with (wrap32 (Z.of_nat (S n)))
    by (rewrite wrap32_add_l; f_equal; lia).
  erewrite imap_ext; [apply (IH (S n))|].
  intros k x _. simpl. do 3 f_equal. lia.
Qed.

Lemma runs_for_each {A} (body : Z -> A -> Dumping unit)
    (f : A -> list (Z * ClassMethod)) l :
  (forall i x, x ∈ l -> runs (body i x) (f x)) ->
  forall i, runs (for_each body i l) (l ≫= f).
Proof.
  induction l as [|x l IH]; intros Hbody i.
  { apply lists_runs, lists_mret. }
  cbn [for_each]. change ((x :: l) ≫= f) with (f x ++ (l ≫= f)).
  apply runs_bind; [apply Hbody; left|].
  intros _. apply IH. intros; apply Hbody; by right.
Qed.

Ltac runs_step :=
  lazymatch goal with
  | |- runs (mbind _ (put _)) _ =>
      apply runs_prefix; [apply lists_put; reflexivity|intros ?; cbv beta]
  | |- runs (put _) [] => apply lists_runs, lists_put; reflexivity
  end.

Lemma runs_DumpOatClass c : runs (DumpOatClass c) (class_units c).
Proof.
  unfold DumpOatClass, class_units, class_methods.
  destruct (GetClassData c) as [cd|]; [|apply lists_runs, lists_mret].
  rewrite imap_app. apply runs_bind.
  - apply (runs_methods (direct_methods cd) 0).
  - intros _. apply runs_suffix; [|intros; apply lists_put; reflexivity].
    apply (runs_methods (virtual_methods cd) (length (direct_methods cd))).
Qed.

Lemma runs_DumpOatDexFile odf : runs (DumpOatDexFile odf) (dex_file_units odf).
Proof.
  unfold DumpOatDexFile, dex_file_units. repeat runs_step.
  destruct (OpenDexFile odf) as [dex_file|]; [|runs_step].
  apply runs_suffix; [|intros; apply lists_put; reflexivity].
  apply runs_for_each. intros i c _. repeat runs_step. apply runs_DumpOatClass.
Qed.

Lemma runs_Dump d : runs (Dump d) (oat_file_units (oat_file_ d)).
Proof.
  unfold Dump, oat_file_units. cbv zeta.
  repeat
    lazymatch goal with
    | |- runs (mbind _ (if ?c then _ else _)) _ =>
        apply runs_prefix; [destruct c; repeat lists_step|intros ?; cbv beta]
    | |- _ => runs_step
    end.
  apply runs_for_each. intros _ odf _. apply runs_DumpOatDexFile.
Qed.

(** C9, amended. When the scan for some entry of a vmap table runs
    through both spill masks without finding enough set bits,
    [DumpVmap] fails its CHECK, and the failure is not confined to the
    method.  For the first such method of an oat file, the methods
    before it being well formed and its own mapping table too, the
    report ends with the failed CHECK inside that method: the methods
    before it and the head of this one have been written, and no later
    method of the file is. *)
Theorem Dump_aborts_on_malformed_vmap d before u after os :
  oat_file_units (oat_file_ d) = before ++ u :: after ->
  Forall (fun u => well_formed_method (oat_method (snd u))) before ->
  vmap_in_range (oat_method (snd u)) ->
  malformed_vmap (oat_method (snd u)) ->
  well_formed_mapping_table (oat_method (snd u)) ->
  (forall os', exists os'',
      DumpVmap (GetVmapTable (oat_method (snd u)))
               (GetCoreSpillMask (oat_method (snd u)))
               (GetFpSpillMask (oat_method (snd u))) os'
      = (os'', CheckFailure "!processing_fp")) /\
  snd (Dump d os) = CheckFailure "!processing_fp" /\
  ~ returns (snd (Dump d os)) /\
  reported_methods (fst (Dump d os))
  = reported_methods os ++ unit_listing (before ++ [u]).
Proof.
  intros Hsplit Hgood Hrange Hvmap Hmapping.
  split; [intros os'; by apply DumpVmap_malformed|].
  destruct (runs_Dump d os) as [_ Hstop].
  destruct (Hstop before u after Hsplit Hgood) as [Hfail Hrep]; [done|].
  split; [done|]. split; [|done].
  rewrite Hfail. intros [a [=]].
Qed.

Lemma bad_vmap_units :
  oat_file_units (oat_file_ bad_vmap_dumper)
  = [] ++ (0, {| GetMemberIndex := 12; oat_method := bad_vmap_method |})
       :: [(0, {| GetMemberIndex := 12; oat_method := sample_method |})].
Proof. unfold bad_vmap_dumper. rewrite new_OatDumper_file. reflexivity. Qed.

Lemma Dump_aborts_on_malformed_vmap_witness :
  (forall os', exists os'',
      DumpVmap (GetVmapTable bad_vmap_method) (GetCoreSpillMask bad_vmap_method)
               (GetFpSpillMask bad_vmap_method) os'
      = (os'', CheckFailure "!processing_fp")) /\
  snd (Dump bad_vmap_dumper []) = CheckFailure "!processing_fp" /\
  ~ returns (snd (Dump bad_vmap_dumper [])) /\
  reported_methods (fst (Dump bad_vmap_dumper [])) = [(0, 12)].
Proof.
  apply (Dump_aborts_on_malformed_vmap bad_vmap_dumper []
           (0, {| GetMemberIndex := 12; oat_method := bad_vmap_method |})
           [(0, {| GetMemberIndex := 12; oat_method := sample_method |})] []).
  - exact bad_vmap_units.
  - constructor.
  - exact bad_vmap_method_in_range.
  - exact bad_vmap_method_malformed.
  - intros t [=].
Defined.
